(** * ext2.c: an inspector for ext2 volumes, embedded in Rocq

    The development follows [src/ext2.c] function by function.  The device
    file is a finite sequence of bytes; a C local that receives the result
    of a read is a buffer of memory cells, each either a byte or
    indeterminate; the unsigned integer types of the program are [Z] with
    their wrap-around written out.  A function of the program becomes a
    function into [outcome], which records how the call ends and, when it
    returns, the reads and prints it performed. *)

From Stdlib Require Import String.
From Stdlib Require Import Strings.Byte.
From Stdlib Require Import ZArith List Lia Bool.
Import ListNotations.
Local Open Scope Z_scope.

(** ** Integer types *)

Definition u64 (z : Z) : Z := z mod 2 ^ 64.
Definition u32 (z : Z) : Z := z mod 2 ^ 32.
Definition u8 (z : Z) : Z := z mod 2 ^ 8.

(** ** Bytes, memory cells and buffers *)

Definition byte_val (b : byte) : Z := Z.of_N (Byte.to_N b).

Definition byte_of_Z (z : Z) : byte :=
  match Byte.of_N (Z.to_N (z mod 256)) with
  | Some b => b
  | None => x00
  end.

(** A memory cell of a local variable: [None] is a cell that was never
    written (its value is indeterminate). *)
Definition mbyte : Type := option byte.
Definition buffer : Type := list mbyte.

(** A local of [n] bytes, as declared and not yet written. *)
Definition uninit (n : nat) : buffer := repeat None n.

(** Little-endian value of a sequence of bytes (the host is little-endian,
    as the on-disk format is). *)
Fixpoint le_val (bs : list byte) : Z :=
  match bs with
  | [] => 0
  | b :: bs' => byte_val b + 256 * le_val bs'
  end.

Fixpoint le_bytes (n : nat) (z : Z) : list byte :=
  match n with
  | O => []
  | S n' => byte_of_Z z :: le_bytes n' (z / 256)
  end.

(** All the cells of a buffer, when none is indeterminate. *)
Fixpoint cells (buf : buffer) : option (list byte) :=
  match buf with
  | [] => Some []
  | None :: _ => None
  | Some b :: buf' =>
      match cells buf' with
      | Some bs => Some (b :: bs)
      | None => None
      end
  end.

(** The unsigned integer member of [len] bytes at byte offset [off] of a
    struct held in [buf]; [None] when one of its cells is indeterminate or
    lies outside the buffer. *)
Definition member (buf : buffer) (off len : nat) : option Z :=
  let cs := firstn len (skipn off buf) in
  if Nat.eqb (length cs) len then option_map le_val (cells cs) else None.

(** The same for a struct in static storage, whose bytes are always
    determinate. *)
Definition smember (bs : list byte) (off len : nat) : Z :=
  le_val (firstn len (skipn off bs)).

(** [overwrite buff got]: the first cells of [buff] replaced by [got], the
    cells beyond kept as they were. *)
Definition overwrite {A : Type} (buff got : list A) : list A :=
  got ++ skipn (length got) buff.

(** ** Outcomes and traces *)

(** What a call does that can be observed from outside. *)
Inductive event : Type :=
| Read (offset size : Z)
    (** [_ext2_read(offset, _, size)] *)
| Leaf (blk_addr : Z)
    (** a routine for direct blocks is entered on data block [blk_addr] *)
| PutChar (c : mbyte)
    (** [printf("%c", data)] *)
| PutDirent (inode : Z) (ft : string) (name : buffer).
    (** the three [printf] calls of one directory line, with the values they
        are passed: the inode number, the file-type string and the first
        [name_len] cells of the name *)

Inductive outcome (A : Type) : Type :=
| Ret (a : A) (tr : list event)
    (** the call returns [a] after the events [tr] *)
| Exit (msg : string)
    (** [exit_err(msg)]: the message goes to stderr and the process exits
        with [EXIT_FAILURE]; messages are given without their final
        newline *)
| Undef
    (** the call does something C leaves undefined, or branches on an
        indeterminate value, or depends on the file position after a
        failed seek *)
| Timeout.
    (** a loop was cut off by its iteration budget *)

Arguments Ret {A} a tr.
Arguments Exit {A} msg.
Arguments Undef {A}.
Arguments Timeout {A}.

Definition ret {A : Type} (a : A) : outcome A := Ret a [].

Definition bind {A B : Type} (m : outcome A) (k : A -> outcome B) : outcome B :=
  match m with
  | Ret a tr =>
      match k a with
      | Ret b tr' => Ret b (tr ++ tr')
      | Exit msg => Exit msg
      | Undef => Undef
      | Timeout => Timeout
      end
  | Exit msg => Exit msg
  | Undef => Undef
  | Timeout => Timeout
  end.

Definition emit (e : event) : outcome unit := Ret tt [e].

(** Use of a value that may be indeterminate. *)
Definition defined {A : Type} (o : option A) : outcome A :=
  match o with
  | Some a => ret a
  | None => Undef
  end.

Declare Scope outcome_scope.
Delimit Scope outcome_scope with outcome.
Notation "x <- m ;; k" := (bind m (fun x => k))
  (at level 61, m at next level, right associativity) : outcome_scope.
Notation "m ;;; k" := (bind m (fun _ => k))
  (at level 61, right associativity) : outcome_scope.
Local Open Scope outcome_scope.

(** Projections of a trace. *)
Definition reads_of (tr : list event) : list (Z * Z) :=
  flat_map (fun e => match e with Read o s => [(o, s)] | _ => [] end) tr.

Definition leaves_of (tr : list event) : list Z :=
  flat_map (fun e => match e with Leaf b => [b] | _ => [] end) tr.

Definition chars_of (tr : list event) : list mbyte :=
  flat_map (fun e => match e with PutChar c => [c] | _ => [] end) tr.

(** ** The on-disk format, from <ext2fs/ext2_fs.h> *)

(** The header is included by [ext2.c] and is not part of the repository.
    Its constants and struct layouts are those of the ext2 on-disk format. *)

Definition EXT2_BAD_INO : Z := 1.
Definition EXT2_ROOT_INO : Z := 2.
Definition EXT2_NDIR_BLOCKS : Z := 12.
Definition EXT2_IND_BLOCK : Z := 12.
Definition EXT2_DIND_BLOCK : Z := 13.
Definition EXT2_TIND_BLOCK : Z := 14.
Definition EXT2_N_BLOCKS : Z := 15.
Definition EXT2_FT_REG_FILE : Z := 1.
Definition EXT2_FT_DIR : Z := 2.
Definition EXT2_FT_MAX : Z := 8.
Definition EXT2_SUPER_MAGIC : Z := 0xEF53.

(** [sizeof] of the structs the program reads into. *)
Definition sizeof_ext2_super_block : nat := 1024.
Definition sizeof_ext2_group_desc : nat := 32.
Definition sizeof_ext2_inode : nat := 128.
(** [inode] (4), [rec_len] (2), [name_len] (1), [file_type] (1) and
    [name[255]], padded to a multiple of 4. *)
Definition sizeof_ext2_dir_entry_2 : nat := 264.

(** Members of [struct ext2_super_block]. *)
Definition s_log_block_size (sb : list byte) : Z := smember sb 24 4.
Definition s_inodes_per_group (sb : list byte) : Z := smember sb 40 4.
Definition s_magic (sb : list byte) : Z := smember sb 56 2.
Definition s_inode_size (sb : list byte) : Z := smember sb 88 2.

(** Member of [struct ext2_group_desc]. *)
Definition bg_inode_table (gd : buffer) : option Z := member gd 8 4.

(** Members of [struct ext2_inode]. *)
Definition i_mode (ino_st : buffer) : option Z := member ino_st 0 2.
Definition i_size (ino_st : buffer) : option Z := member ino_st 4 4.
Definition i_block (ino_st : buffer) (i : Z) : option Z :=
  member ino_st (40 + 4 * Z.to_nat i) 4.

(** Members of [struct ext2_dir_entry_2]. *)
Definition de_inode (dir_ent : buffer) : option Z := member dir_ent 0 4.
Definition de_rec_len (dir_ent : buffer) : option Z := member dir_ent 4 2.
Definition de_name_len (dir_ent : buffer) : option Z := member dir_ent 6 1.
Definition de_file_type (dir_ent : buffer) : option Z := member dir_ent 7 1.
Definition de_name (dir_ent : buffer) : buffer := skipn 8 dir_ent.

(** Modelled from the spec: the macro [EXT2_BLOCK_SIZE] of the header,
    "block size = 1024 << log_block_size". *)
Definition EXT2_BLOCK_SIZE (sb : list byte) : Z :=
  Z.shiftl 1024 (s_log_block_size sb).

(** Modelled from the spec: the macro [EXT2_ADDR_PER_BLOCK] of the header,
    "addresses_per_block = block_size / 4". *)
Definition EXT2_ADDR_PER_BLOCK (sb : list byte) : Z :=
  EXT2_BLOCK_SIZE sb / 4.

(** Modelled from the spec: the macro [EXT2_INODES_PER_GROUP] of the header,
    the superblock's [inodes_per_group]. *)
Definition EXT2_INODES_PER_GROUP (sb : list byte) : Z :=
  s_inodes_per_group sb.

(** Modelled from the spec: the macro [EXT2_INODE_SIZE] of the header, the
    superblock's [inode_size]. *)
Definition EXT2_INODE_SIZE (sb : list byte) : Z :=
  s_inode_size sb.

(** Modelled from the spec: the macro [EXT2_DESC_SIZE] of the header,
    "group_desc_size (32 for ext2)". *)
Definition EXT2_DESC_SIZE (sb : list byte) : Z := 32.

Definition EXT2_SUPER_BLOCK_OFFSET : Z := 1024.
Definition EXT2_SUPER_BLOCK_SIZE : Z := Z.of_nat sizeof_ext2_super_block.
Definition EXT2_DIR_ENTRY_SIZE : Z := Z.of_nat sizeof_ext2_dir_entry_2.

Definition EXT2_IS_INODE_DIR (mode : Z) : bool :=
  Z.land mode 0xF000 =? 0x4000.
Definition EXT2_IS_INODE_REG_FILE (mode : Z) : bool :=
  Z.land mode 0xF000 =? 0x8000.

(** The file type to string map.  [EXT2_FT_MAX] is 8, so the array has
    eight slots; an index past them reads outside the array. *)
Definition _ft_to_str : list string :=
  ["Unknown  "; "Regular  "; "Directory"; "Character";
   "Block    "; "Fifo     "; "Socket   "; "Softlink "]%string.

Definition ft_to_str_at (file_type : Z) : option string :=
  if file_type <? 0 then None else nth_error _ft_to_str (Z.to_nat file_type).

(** ** Library routines used by the program *)

(** The byte by byte comparison of [memcmp]: it stops at the first
    difference, and the result is zero when the first [n] bytes agree.  An
    indeterminate cell met before a difference gives no defined result
    ([None]). *)
Fixpoint memcmp_scan (s1 : list byte) (s2 : buffer) (n : nat) {struct n}
    : option Z :=
  match n with
  | O => Some 0
  | S n' =>
      match s1, s2 with
      | c1 :: s1', Some c2 :: s2' =>
          if Byte.eqb c1 c2 then memcmp_scan s1' s2' n'
          else Some (byte_val c1 - byte_val c2)
      | _, _ => None
      end
  end.

(** [memcmp(s1, s2, n)] on a determinate object [s1] and the cells [s2].
    The call compares [n] bytes of each object: when one of the objects is
    shorter than [n] bytes the call reads past its end and has no defined
    result ([None]), whether or not a difference comes before the end. *)
Definition memcmp (s1 : list byte) (s2 : buffer) (n : nat) : option Z :=
  if (n <=? length s1)%nat && (n <=? length s2)%nat then memcmp_scan s1 s2 n
  else None.

(** A C string is given by its bytes; the end of the list stands for the
    terminating NUL, and a NUL inside the list ends the string there.
    [c_str s] is the object that holds the string, as [strdup] allocates
    it: the bytes and the NUL after them. *)
Definition c_str (s : list byte) : list byte := s ++ [x00].

Definition in_set (set : list byte) (c : byte) : bool :=
  existsb (Byte.eqb c) set.

Fixpoint strspn (s accept : list byte) : nat :=
  match s with
  | c :: s' =>
      if negb (Byte.eqb c x00) && in_set accept c then S (strspn s' accept)
      else O
  | [] => O
  end.

Fixpoint strcspn (s reject : list byte) : nat :=
  match s with
  | c :: s' =>
      if Byte.eqb c x00 || in_set reject c then O
      else S (strcspn s' reject)
  | [] => O
  end.

(** [strtok_r(s, delim, &s)]: the next token of [s] and the new value of
    [s], or [None] for a null result.  The token is the longest run of
    characters outside [delim] after the leading delimiters; the delimiter
    that ends it is overwritten by NUL and skipped. *)
Definition strtok_r (s delim : list byte) : option (list byte * list byte) :=
  let s1 := skipn (strspn s delim) s in
  match s1 with
  | [] => None
  | c :: _ =>
      if Byte.eqb c x00 then None
      else
        let n := strcspn s1 delim in
        let tok := firstn n s1 in
        match skipn n s1 with
        | [] => Some (tok, [])
        | e :: rest =>
            if Byte.eqb e x00 then Some (tok, e :: rest)
            else Some (tok, rest)
        end
  end.

(** ** Utility: [_get_toks] *)

Definition MAX_PATH_TOKS : Z := 256.

(** The loop of [_get_toks]; [toks] holds the [tok_i] tokens stored so far.
    Storing a token at index [MAX_PATH_TOKS] or beyond writes outside the
    array.  [n] bounds the number of iterations. *)
Fixpoint get_toks_loop (n : nat) (arg delim : list byte)
    (toks : list (list byte)) : outcome (list (list byte)) :=
  match n with
  | O => Timeout
  | S n' =>
      match strtok_r arg delim with
      | None => ret toks
      | Some (tok, arg') =>
          if MAX_PATH_TOKS <=? Z.of_nat (length toks) then Undef
          else get_toks_loop n' arg' delim (toks ++ [tok])
      end
  end.

(** [_get_toks(arg, delim, toks)]: the tokens written to [toks], in order;
    the function's result [tok_i] is their number.  Each iteration consumes
    at least one character of [arg], so [length arg + 1] iterations are
    enough (lemma [get_toks_total]). *)
Definition _get_toks (arg delim : list byte) : outcome (list (list byte)) :=
  get_toks_loop (S (length arg)) arg delim [].

(** ** The program, over its two globals *)

Section Volume.

(** [dev] is the content of the device file behind [_fd]; [_sb] is the
    superblock read by [ext2_init]. *)
Variable dev : list byte.
Variable _sb : list byte.

(** The bytes delivered by [lseek64(_fd, offset, SEEK_SET)] followed by
    [read(_fd, buff, size)]: those the device has from [offset] on, at most
    [size] of them. *)
Definition dev_read (offset size : Z) : list byte :=
  firstn (Z.to_nat size) (skipn (Z.to_nat offset) dev).

(** [_ext2_read(offset, buff, size)].  A short read leaves the rest of the
    buffer as it was.  An offset of [2^63] or more is negative as an
    [off64_t]: the seek fails and the read happens wherever the previous
    one ended, which this model does not track. *)
Definition _ext2_read (offset : Z) (buff : buffer) (size : Z) : outcome buffer :=
  if 2 ^ 63 <=? offset then Undef
  else Ret (overwrite buff (map Some (dev_read offset size))) [Read offset size].

(** Locals of [_ext2_ino_to_ino_st]. *)
Definition grp_nb (ino : Z) : Z :=
  u64 (ino - 1) / EXT2_INODES_PER_GROUP _sb.

Definition grp_desc_off (ino : Z) : Z :=
  u64 (EXT2_BLOCK_SIZE _sb + grp_nb ino * EXT2_DESC_SIZE _sb).

Definition ino_idx (ino : Z) : Z :=
  u64 (ino - 1) mod EXT2_INODES_PER_GROUP _sb.

Definition ino_off (inode_table : Z) (ino : Z) : Z :=
  let ino_tab_off := u64 (inode_table * EXT2_BLOCK_SIZE _sb) in
  u64 (ino_tab_off + ino_idx ino * EXT2_INODE_SIZE _sb).

(** [_ext2_ino_to_ino_st(ino, p_ino_st)]: the result is the content of
    [*p_ino_st] on return.  Division by an [inodes_per_group] of zero is
    undefined. *)
Definition _ext2_ino_to_ino_st (ino : Z) (p_ino_st : buffer) : outcome buffer :=
  if EXT2_INODES_PER_GROUP _sb =? 0 then Undef
  else
    grp_desc <- _ext2_read (grp_desc_off ino) (uninit sizeof_ext2_group_desc)
                  (EXT2_DESC_SIZE _sb) ;;
    inode_table <- defined (bg_inode_table grp_desc) ;;
    _ext2_read (ino_off inode_table ino) p_ino_st (Z.of_nat sizeof_ext2_inode).

(** The loop of [_ext2_dir_search]: [i] is the cursor, [dir_ent] the local
    struct, which keeps its content from one iteration to the next.
    [fuel] bounds the number of evaluations of the loop condition. *)
Fixpoint dir_search_loop (fuel : nat) (blk_off : Z) (nxt_arg : list byte)
    (i : Z) (dir_ent : buffer) : outcome Z :=
  match fuel with
  | O => Timeout
  | S fuel' =>
      if i <? EXT2_BLOCK_SIZE _sb then
        dir_ent <- _ext2_read (u64 (blk_off + i)) dir_ent EXT2_DIR_ENTRY_SIZE ;;
        name_len <- defined (de_name_len dir_ent) ;;
        c <- defined (memcmp (c_str nxt_arg) (de_name dir_ent) (Z.to_nat name_len)) ;;
        if c =? 0 then
          defined (de_inode dir_ent)
        else
          rec_len <- defined (de_rec_len dir_ent) ;;
          dir_search_loop fuel' blk_off nxt_arg (u32 (i + rec_len)) dir_ent
      else ret EXT2_BAD_INO
  end.

Definition _ext2_dir_search (fuel : nat) (blk_addr : Z) (nxt_arg : list byte)
    : outcome Z :=
  emit (Leaf blk_addr) ;;;
  let blk_off := u64 (blk_addr * EXT2_BLOCK_SIZE _sb) in
  dir_search_loop fuel blk_off nxt_arg 0 (uninit sizeof_ext2_dir_entry_2).

(** The loop of [_ext2_indir_search] over the addresses of one index block;
    [search] is the call made on each address, [n] the number of iterations
    left, [i] the index. *)
Fixpoint indir_search_loop (search : Z -> outcome Z) (blk_off : Z) (n : nat)
    (i : Z) (nxt_blk_addr : buffer) : outcome Z :=
  match n with
  | O => ret EXT2_BAD_INO
  | S n' =>
      nxt_blk_addr <- _ext2_read (u64 (blk_off + u32 (4 * i))) nxt_blk_addr 4 ;;
      a <- defined (member nxt_blk_addr 0 4) ;;
      if a =? 0 then ret EXT2_BAD_INO
      else
        nxt_ino <- search a ;;
        if nxt_ino >? EXT2_BAD_INO then ret nxt_ino
        else indir_search_loop search blk_off n' (i + 1) nxt_blk_addr
  end.

(** [_ext2_indir_search] with [below] levels of index blocks under the
    addresses of [blk_addr]: [indir_level = below + 1]. *)
Fixpoint indir_search_below (below : nat) (fuel : nat) (blk_addr : Z)
    (nxt_arg : list byte) : outcome Z :=
  let blk_off := u64 (blk_addr * EXT2_BLOCK_SIZE _sb) in
  indir_search_loop
    (match below with
     | O => fun a => _ext2_dir_search fuel a nxt_arg
     | S b => fun a => indir_search_below b fuel a nxt_arg
     end)
    blk_off (Z.to_nat (EXT2_ADDR_PER_BLOCK _sb)) 0 (uninit 4).

(** [_ext2_indir_search(blk_addr, nxt_arg, indir_level)].  [indir_level] is
    a [_u8]; the recursion passes [indir_level - 1] until it is 1. *)
Definition _ext2_indir_search (fuel : nat) (blk_addr : Z) (nxt_arg : list byte)
    (indir_level : Z) : outcome Z :=
  indir_search_below (Z.to_nat (u8 (indir_level - 1))) fuel blk_addr nxt_arg.

(** The loop of [_ext2_nxt_ino] over [i_block]; [n] counts the slots left
    before [EXT2_N_BLOCKS]. *)
Fixpoint nxt_ino_loop (fuel : nat) (ino_st : buffer) (nxt_arg : list byte)
    (n : nat) (i : Z) : outcome Z :=
  match n with
  | O => ret EXT2_BAD_INO
  | S n' =>
      blk_addr <- defined (i_block ino_st i) ;;
      if blk_addr =? 0 then ret EXT2_BAD_INO
      else
        nxt_ino <-
          (if i <? EXT2_NDIR_BLOCKS then _ext2_dir_search fuel blk_addr nxt_arg
           else if i =? EXT2_IND_BLOCK then _ext2_indir_search fuel blk_addr nxt_arg 1
           else if i =? EXT2_DIND_BLOCK then _ext2_indir_search fuel blk_addr nxt_arg 2
           else if i =? EXT2_TIND_BLOCK then _ext2_indir_search fuel blk_addr nxt_arg 3
           else Undef) ;;
        if nxt_ino >? EXT2_BAD_INO then ret nxt_ino
        else nxt_ino_loop fuel ino_st nxt_arg n' (i + 1)
  end.

Definition _ext2_nxt_ino (fuel : nat) (ino : Z) (nxt_arg : list byte) : outcome Z :=
  ino_st <- _ext2_ino_to_ino_st ino (uninit sizeof_ext2_inode) ;;
  mode <- defined (i_mode ino_st) ;;
  if negb (EXT2_IS_INODE_DIR mode) then
    Exit "The path consists of non-directory files"
  else nxt_ino_loop fuel ino_st nxt_arg (Z.to_nat EXT2_N_BLOCKS) 0.

(** The first loop of [ext2_path_to_ino], over the tokens. *)
Fixpoint path_loop (fuel : nat) (toks : list (list byte)) (ino : Z) : outcome Z :=
  match toks with
  | [] => ret ino
  | tok :: toks' =>
      ino <- _ext2_nxt_ino fuel ino tok ;;
      if ino <? EXT2_ROOT_INO then Exit "File search failed"
      else path_loop fuel toks' ino
  end.

Definition slash : list byte := ["/"%byte].

Definition ext2_path_to_ino (fuel : nat) (path : list byte) : outcome Z :=
  toks <- _get_toks path slash ;;
  path_loop fuel toks EXT2_ROOT_INO.

(** The loop of [_ext2_dir_print_reg_file]; [data] is the one-byte local. *)
Fixpoint print_reg_file_loop (n : nat) (blk_off i : Z) (data : buffer)
    : outcome unit :=
  match n with
  | O => ret tt
  | S n' =>
      data <- _ext2_read (u64 (blk_off + i)) data 1 ;;
      emit (PutChar (nth 0 data None)) ;;;
      print_reg_file_loop n' blk_off (i + 1) data
  end.

Definition _ext2_dir_print_reg_file (blk_addr : Z) : outcome unit :=
  let blk_off := u64 (blk_addr * EXT2_BLOCK_SIZE _sb) in
  print_reg_file_loop (Z.to_nat (EXT2_BLOCK_SIZE _sb)) blk_off 0 (uninit 1).

(** The loop of [_ext2_dir_print_dir]. *)
Fixpoint print_dir_loop (fuel : nat) (blk_off i : Z) (dir_ent : buffer)
    : outcome unit :=
  match fuel with
  | O => Timeout
  | S fuel' =>
      if i <? EXT2_BLOCK_SIZE _sb then
        dir_ent <- _ext2_read (u64 (blk_off + i)) dir_ent EXT2_DIR_ENTRY_SIZE ;;
        inode <- defined (de_inode dir_ent) ;;
        file_type <- defined (de_file_type dir_ent) ;;
        ft <- defined (ft_to_str_at file_type) ;;
        name_len <- defined (de_name_len dir_ent) ;;
        emit (PutDirent inode ft (firstn (Z.to_nat name_len) (de_name dir_ent))) ;;;
        rec_len <- defined (de_rec_len dir_ent) ;;
        print_dir_loop fuel' blk_off (u32 (i + rec_len)) dir_ent
      else ret tt
  end.

Definition _ext2_dir_print_dir (fuel : nat) (blk_addr : Z) : outcome unit :=
  let blk_off := u64 (blk_addr * EXT2_BLOCK_SIZE _sb) in
  print_dir_loop fuel blk_off 0 (uninit sizeof_ext2_dir_entry_2).

Definition _ext2_dir_print (fuel : nat) (blk_addr file_type : Z) : outcome unit :=
  emit (Leaf blk_addr) ;;;
  if file_type =? EXT2_FT_REG_FILE then _ext2_dir_print_reg_file blk_addr
  else if file_type =? EXT2_FT_DIR then _ext2_dir_print_dir fuel blk_addr
  else ret tt.

(** The loop of [_ext2_indir_print] over the addresses of one index block;
    [print] is the call made on each address. *)
Fixpoint indir_print_loop (print : Z -> outcome unit) (blk_off : Z) (n : nat)
    (i : Z) (nxt_blk_addr : buffer) : outcome unit :=
  match n with
  | O => ret tt
  | S n' =>
      nxt_blk_addr <- _ext2_read (u64 (blk_off + u32 (4 * i))) nxt_blk_addr 4 ;;
      a <- defined (member nxt_blk_addr 0 4) ;;
      if a =? 0 then ret tt
      else
        print a ;;;
        indir_print_loop print blk_off n' (i + 1) nxt_blk_addr
  end.

Fixpoint indir_print_below (below : nat) (fuel : nat) (blk_addr file_type : Z)
    : outcome unit :=
  let blk_off := u64 (blk_addr * EXT2_BLOCK_SIZE _sb) in
  indir_print_loop
    (match below with
     | O => fun a => _ext2_dir_print fuel a file_type
     | S b => fun a => indir_print_below b fuel a file_type
     end)
    blk_off (Z.to_nat (EXT2_ADDR_PER_BLOCK _sb)) 0 (uninit 4).

(** [_ext2_indir_print(blk_addr, file_type, indir_level)]. *)
Definition _ext2_indir_print (fuel : nat) (blk_addr file_type indir_level : Z)
    : outcome unit :=
  indir_print_below (Z.to_nat (u8 (indir_level - 1))) fuel blk_addr file_type.

(** The loop of [_ext2_print_ino_data] over [i_block]. *)
Fixpoint print_ino_data_loop (fuel : nat) (ino_st : buffer) (file_type : Z)
    (n : nat) (i : Z) : outcome unit :=
  match n with
  | O => ret tt
  | S n' =>
      blk_addr <- defined (i_block ino_st i) ;;
      if blk_addr =? 0 then ret tt
      else
        (if i <? EXT2_NDIR_BLOCKS then _ext2_dir_print fuel blk_addr file_type
         else if i =? EXT2_IND_BLOCK then _ext2_indir_print fuel blk_addr file_type 1
         else if i =? EXT2_DIND_BLOCK then _ext2_indir_print fuel blk_addr file_type 2
         else if i =? EXT2_TIND_BLOCK then _ext2_indir_print fuel blk_addr file_type 3
         else ret tt) ;;;
        print_ino_data_loop fuel ino_st file_type n' (i + 1)
  end.

Definition _ext2_print_ino_data (fuel : nat) (ino : Z) : outcome unit :=
  ino_st <- _ext2_ino_to_ino_st ino (uninit sizeof_ext2_inode) ;;
  mode <- defined (i_mode ino_st) ;;
  file_type <-
    (if EXT2_IS_INODE_REG_FILE mode then ret EXT2_FT_REG_FILE
     else if EXT2_IS_INODE_DIR mode then ret EXT2_FT_DIR
     else Exit "File type not supported") ;;
  print_ino_data_loop fuel ino_st file_type (Z.to_nat EXT2_N_BLOCKS) 0.

End Volume.

(** [ext2_init()]: [device_file] is the content of [DEVICE_FILE_PATH], or
    [None] when it cannot be opened.  The result is the pair of globals:
    the device behind [_fd] and [_sb], which is in static storage and so
    starts as zeros. *)
Definition ext2_init (device_file : option (list byte))
    : outcome (list byte * list byte) :=
  match device_file with
  | None => Exit "Failed to open the device file"
  | Some dev =>
      Ret (dev,
           overwrite (repeat x00 sizeof_ext2_super_block)
             (dev_read dev EXT2_SUPER_BLOCK_OFFSET EXT2_SUPER_BLOCK_SIZE))
          [Read EXT2_SUPER_BLOCK_OFFSET EXT2_SUPER_BLOCK_SIZE]
  end.

(** ** Notions used to state the properties *)

(** The block sizes of the data model. *)
Definition valid_block_size (sb : list byte) : Prop :=
  EXT2_BLOCK_SIZE sb = 1024 \/ EXT2_BLOCK_SIZE sb = 2048 \/
  EXT2_BLOCK_SIZE sb = 4096.

(** The [size] bytes from [offset] on are on the device, at offsets that
    [lseek64] accepts. *)
Definition in_device (dev : list byte) (offset size : Z) : Prop :=
  0 <= offset /\ 0 <= size /\
  offset + size <= Z.of_nat (length dev) /\ offset + size <= 2 ^ 63.

(** The leaf bound of the block enumerator, [N = addresses_per_block]. *)
Definition leaf_bound (sb : list byte) : Z :=
  let N := EXT2_ADDR_PER_BLOCK sb in 12 + N + N ^ 2 + N ^ 3.

(** The leaves under slot [i] of [i_block], for index blocks of [N]
    addresses, and under the [n] slots from [i] on. *)
Definition slot_leaves (N : nat) (i : Z) : nat :=
  if i <? EXT2_NDIR_BLOCKS then 1
  else if i =? EXT2_IND_BLOCK then N
  else if i =? EXT2_DIND_BLOCK then N ^ 2
  else if i =? EXT2_TIND_BLOCK then N ^ 3
  else 0.

Fixpoint slots_leaves (N : nat) (n : nat) (i : Z) : nat :=
  match n with
  | O => 0
  | S n' => slot_leaves N i + slots_leaves N n' (i + 1)
  end.

(** *** The inode table, in the words of the specification *)





(** *** Paths, in the words of the specification *)

Definition cons_hd {A : Type} (c : A) (l : list (list A)) : list (list A) :=
  match l with
  | [] => [[c]]
  | t :: ts => (c :: t) :: ts
  end.

(** The path split on ['/']; the string ends at its first NUL. *)
Fixpoint split_path (s : list byte) : list (list byte) :=
  match s with
  | [] => [[]]
  | c :: s' =>
      if Byte.eqb c x00 then [[]]
      else if Byte.eqb c "/"%byte then [] :: split_path s'
      else cons_hd c (split_path s')
  end.

Definition nonempty {A : Type} (l : list A) : bool :=
  match l with
  | [] => false
  | _ :: _ => true
  end.

(** The split with the empty components discarded. *)
Definition components (path : list byte) : list (list byte) :=
  filter nonempty (split_path path).

(** Two paths that agree on their first component and on the non-empty
    components after it. *)
Definition same_split (x1 x2 : list byte) : Prop :=
  hd [] (split_path x1) = hd [] (split_path x2) /\
  filter nonempty (tl (split_path x1)) = filter nonempty (tl (split_path x2)).

(** *** Directory blocks *)

(** A directory entry as a value; its [name_len] is the length of its
    name. *)
Record dirent : Type := mk_dirent {
  d_inode : Z;
  d_rec_len : Z;
  d_file_type : Z;
  d_name : list byte
}.

(** The bytes of an entry on disk: header and name. *)
Definition dirent_bytes (e : dirent) : list byte :=
  le_bytes 4 (d_inode e) ++ le_bytes 2 (d_rec_len e) ++
  le_bytes 1 (Z.of_nat (length (d_name e))) ++ le_bytes 1 (d_file_type e) ++
  d_name e.

(** The members fit their fields and the name has no NUL in it. *)
Definition dirent_ok (e : dirent) : bool :=
  (0 <=? d_inode e) && (d_inode e <? 2 ^ 32) &&
  (0 <=? d_rec_len e) && (d_rec_len e <? 2 ^ 16) &&
  (0 <=? d_file_type e) && (d_file_type e <? 2 ^ 8) &&
  (Z.of_nat (length (d_name e)) <? 2 ^ 8) &&
  forallb (fun c => negb (Byte.eqb c x00)) (d_name e).

(** The entries [ents] lie on the device one after the other from byte
    [base] on, each [rec_len] bytes after the one before. *)
Fixpoint entries_at (dev : list byte) (base : Z) (ents : list dirent) : Prop :=
  match ents with
  | [] => True
  | e :: ents' =>
      dev_read dev base (Z.of_nat (length (dirent_bytes e))) = dirent_bytes e /\
      entries_at dev (base + d_rec_len e) ents'
  end.

(** The offsets of the entries within their block, the first being at [o]. *)
Fixpoint entry_offsets (o : Z) (ents : list dirent) : list Z :=
  match ents with
  | [] => []
  | e :: ents' => o :: entry_offsets (o + d_rec_len e) ents'
  end.

Definition total_rec_len (ents : list dirent) : Z :=
  fold_right (fun e acc => d_rec_len e + acc) 0 ents.

(** Data block [blk_addr] is a directory block holding the entries [ents]
    and satisfies the on-disk invariant: every [rec_len] is positive and
    they sum to the block size. *)
Definition dir_block (dev sb : list byte) (blk_addr : Z) (ents : list dirent)
    : Prop :=
  forallb dirent_ok ents = true /\
  entries_at dev (blk_addr * EXT2_BLOCK_SIZE sb) ents /\
  Forall (fun e => 0 < d_rec_len e) ents /\
  total_rec_len ents = EXT2_BLOCK_SIZE sb.

(** The file type of every entry is within the table [_ft_to_str]. *)
Definition known_types (ents : list dirent) : bool :=
  forallb (fun e => d_file_type e <? EXT2_FT_MAX) ents.

Fixpoint prefixb (p s : list byte) : bool :=
  match p, s with
  | [], _ => true
  | a :: p', b :: s' => Byte.eqb a b && prefixb p' s'
  | _ :: _, [] => false
  end.

(** The test [_ext2_dir_search] makes on an entry, on values: the
    [name_len] bytes of the entry's name equal the first [name_len] bytes
    of the argument. *)
Definition name_agrees (nxt_arg : list byte) (e : dirent) : bool :=
  prefixb (d_name e) nxt_arg.

(** The comparison of the lookup on an entry stays inside the object that
    holds the argument, [strlen(nxt_arg) + 1] bytes: the entry's [name_len]
    is not above that size. *)
Definition name_fits (nxt_arg : list byte) (e : dirent) : bool :=
  (length (d_name e) <=? length nxt_arg + 1)%nat.

(** The entries the lookup compares: those up to the first whose name
    agrees. *)
Fixpoint scanned (nxt_arg : list byte) (ents : list dirent) : list dirent :=
  match ents with
  | [] => []
  | e :: ents' =>
      e :: (if name_agrees nxt_arg e then [] else scanned nxt_arg ents')
  end.

(** The names the lookup compares on [ents] all fit. *)
Definition names_fit (nxt_arg : list byte) (ents : list dirent) : bool :=
  forallb (name_fits nxt_arg) (scanned nxt_arg ents).

(** The cursor positions of the lookup scan: the offsets of the entries up
    to the first whose name agrees. *)
Fixpoint search_offsets (nxt_arg : list byte) (o : Z) (ents : list dirent)
    : list Z :=
  match ents with
  | [] => []
  | e :: ents' =>
      o :: (if name_agrees nxt_arg e then []
            else search_offsets nxt_arg (o + d_rec_len e) ents')
  end.

Fixpoint search_result (nxt_arg : list byte) (ents : list dirent) : Z :=
  match ents with
  | [] => EXT2_BAD_INO
  | e :: ents' =>
      if name_agrees nxt_arg e then d_inode e
      else search_result nxt_arg ents'
  end.

(** The events of a scan that reads an entry at each of the cursor
    positions [os] of the block at [blk_off]. *)
Definition entry_reads (blk_off : Z) (os : list Z) : list (Z * Z) :=
  map (fun o => (blk_off + o, EXT2_DIR_ENTRY_SIZE)) os.

(** *** Files *)

(** Inode [ino] loads, and its mode says regular file. *)
Definition is_regular (dev sb : list byte) (ino : Z) : Prop :=
  exists ino_st t mode,
    _ext2_ino_to_ino_st dev sb ino (uninit sizeof_ext2_inode) = Ret ino_st t /\
    i_mode ino_st = Some mode /\
    EXT2_IS_INODE_REG_FILE mode = true.

(** The bytes of data block [blk_addr]. *)
Definition block_bytes (dev sb : list byte) (blk_addr : Z) : list byte :=
  dev_read dev (blk_addr * EXT2_BLOCK_SIZE sb) (EXT2_BLOCK_SIZE sb).

Definition block_in_device (dev sb : list byte) (blk_addr : Z) : Prop :=
  in_device dev (blk_addr * EXT2_BLOCK_SIZE sb) (EXT2_BLOCK_SIZE sb).

(** Entry [j] of the index block at [blk_off] is on the device and is
    zero. *)
Definition zero_address (dev : list byte) (blk_off j : Z) : Prop :=
  u64 (blk_off + u32 (4 * j)) < 2 ^ 63 /\
  dev_read dev (u64 (blk_off + u32 (4 * j))) 4 = [x00; x00; x00; x00].

(** The string the directory printer shows for a file type. *)
Definition ft_string (file_type : Z) : string :=
  match ft_to_str_at file_type with
  | Some s => s
  | None => EmptyString
  end.

(** The events of the directory printer on the entries [ents], the first
    being at cursor [o]. *)
Fixpoint print_dir_events (blk_off o : Z) (ents : list dirent) : list event :=
  match ents with
  | [] => []
  | e :: ents' =>
      Read (blk_off + o) EXT2_DIR_ENTRY_SIZE ::
      PutDirent (d_inode e) (ft_string (d_file_type e)) (map Some (d_name e)) ::
      print_dir_events blk_off (o + d_rec_len e) ents'
  end.

(** ** Sample volumes *)

Module Sample.

Definition str (s : string) : list byte := list_byte_of_string s.

(** [poke off bs img]: the image [img] with the bytes [bs] written at
    offset [off]. *)
Definition poke (off : Z) (bs : list byte) (img : list byte) : list byte :=
  firstn (Z.to_nat off) img ++ bs ++ skipn (Z.to_nat off + length bs) img.

Definition blank (n : Z) : list byte := repeat x00 (Z.to_nat n).

Definition superblock_at (off log_block_size inodes_per_group : Z)
    (img : list byte) : list byte :=
  poke (off + 24) (le_bytes 4 log_block_size)
  (poke (off + 40) (le_bytes 4 inodes_per_group)
  (poke (off + 56) (le_bytes 2 EXT2_SUPER_MAGIC)
  (poke (off + 88) (le_bytes 2 128) img))).

Definition group_desc_at (off inode_table : Z) (img : list byte) : list byte :=
  poke (off + 8) (le_bytes 4 inode_table) img.

Fixpoint poke_blocks (off : Z) (blks : list Z) (img : list byte) : list byte :=
  match blks with
  | [] => img
  | b :: blks' => poke off (le_bytes 4 b) (poke_blocks (off + 4) blks' img)
  end.

Definition inode_at (off mode size : Z) (blks : list Z) (img : list byte)
    : list byte :=
  poke off (le_bytes 2 mode)
  (poke (off + 4) (le_bytes 4 size)
  (poke_blocks (off + 40) blks img)).

Fixpoint dirents_at (off : Z) (ents : list dirent) (img : list byte)
    : list byte :=
  match ents with
  | [] => img
  | e :: ents' =>
      poke off (dirent_bytes e) (dirents_at (off + d_rec_len e) ents' img)
  end.

(** A volume with blocks of 2048 bytes: block 0 holds the superblock (at
    byte 1024), block 1 the group descriptors, block 2 the inode table,
    block 3 the root directory and block 4 the data of [/hello.txt]
    (inode 12, 14 bytes). *)
Definition root_entries : list dirent :=
  [ mk_dirent 2 12 2 (str ".");
    mk_dirent 2 12 2 (str "..");
    mk_dirent 12 2024 1 (str "hello.txt") ].

Definition hello : list byte := str "Hello, world!" ++ [x0a].

Definition image : list byte :=
  superblock_at 1024 1 16
  (group_desc_at 2048 2
  (inode_at (2 * 2048 + 1 * 128) 0x41ED 2048 [3]
  (inode_at (2 * 2048 + 11 * 128) 0x81A4 14 [4]
  (dirents_at (3 * 2048) root_entries
  (poke (4 * 2048) hello
  (blank (5 * 2048))))))).

Definition sb_of (img : list byte) : list byte :=
  match ext2_init (Some img) with
  | Ret (_, sb) _ => sb
  | _ => []
  end.

Definition sb : list byte := Eval vm_compute in sb_of image.

(** The same files on a volume with blocks of 1024 bytes: block 1 holds
    the superblock, block 2 the group descriptors, blocks 3 and 4 the inode
    table, block 5 the root directory and block 6 the data of
    [/hello.txt]. *)
Definition root_entries_1k : list dirent :=
  [ mk_dirent 2 12 2 (str ".");
    mk_dirent 2 12 2 (str "..");
    mk_dirent 12 1000 1 (str "hello.txt") ].

Definition image_1k : list byte :=
  superblock_at 1024 0 16
  (group_desc_at 2048 3
  (inode_at (3 * 1024 + 1 * 128) 0x41ED 1024 [5]
  (inode_at (3 * 1024 + 11 * 128) 0x81A4 14 [6]
  (dirents_at (5 * 1024) root_entries_1k
  (poke (6 * 1024) hello
  (blank (7 * 1024))))))).

Definition sb_1k : list byte := Eval vm_compute in sb_of image_1k.

(** A volume with blocks of 2048 bytes and a directory, inode 13, that has
    grown and shrunk: its twelve direct blocks 4..15 each hold one unused
    entry spanning the block; its single-indirect block 16 starts with a
    zero; its double-indirect block 17 leads through the index block 18 to
    the data block 19. *)
Definition empty_block : list dirent := [ mk_dirent 0 2048 0 [] ].

Fixpoint empty_blocks_at (off : Z) (n : nat) (img : list byte) : list byte :=
  match n with
  | O => img
  | S n' => dirents_at off empty_block (empty_blocks_at (off + 2048) n' img)
  end.

Definition image_sparse : list byte :=
  superblock_at 1024 1 16
  (group_desc_at 2048 2
  (inode_at (2 * 2048 + 1 * 128) 0x41ED 2048 [3]
  (inode_at (2 * 2048 + 12 * 128) 0x41ED (14 * 2048)
     [4; 5; 6; 7; 8; 9; 10; 11; 12; 13; 14; 15; 16; 17]
  (dirents_at (3 * 2048) root_entries
  (empty_blocks_at (4 * 2048) 12
  (poke_blocks (17 * 2048) [18]
  (poke_blocks (18 * 2048) [19]
  (dirents_at (19 * 2048) empty_block
  (blank (20 * 2048)))))))))).

(** A directory block whose first entry is unused (its inode is zero) but
    still carries the name of the file it once described; the file was
    created again and has the next entry. *)
Definition reused_entries : list dirent :=
  [ mk_dirent 0 12 1 (str "old");
    mk_dirent 13 2036 1 (str "old") ].

Definition image_reused : list byte :=
  superblock_at 1024 1 16
  (group_desc_at 2048 2
  (inode_at (2 * 2048 + 1 * 128) 0x41ED 2048 [3]
  (dirents_at (3 * 2048) reused_entries
  (blank (4 * 2048))))).

(** A directory block whose only entry carries the file type 9. *)
Definition odd_entries : list dirent := [ mk_dirent 2 2048 9 (str ".") ].

Definition image_odd : list byte :=
  superblock_at 1024 1 16
  (group_desc_at 2048 2
  (inode_at (2 * 2048 + 1 * 128) 0x41ED 2048 [3]
  (dirents_at (3 * 2048) odd_entries
  (blank (4 * 2048))))).

End Sample.

(** ** The rest of the program *)

(** *** Library routine: [strcmp] *)

(** [strcmp(s1, s2)] on two C strings: zero when they are equal, otherwise
    the difference of the first two bytes that differ (the end of a list
    counts as the terminating NUL). *)
Fixpoint strcmp (s1 s2 : list byte) : Z :=
  match s1, s2 with
  | [], [] => 0
  | [], c2 :: _ => byte_val x00 - byte_val c2
  | c1 :: _, [] => byte_val c1 - byte_val x00
  | c1 :: s1', c2 :: s2' =>
      if Byte.eqb c1 c2 then
        if Byte.eqb c1 x00 then 0 else strcmp s1' s2'
      else byte_val c1 - byte_val c2
  end.

(** *** Utility: [_get_req_type] *)

Definition REQUEST_TYPE_INODE : Z := 0.
Definition REQUEST_TYPE_DATA : Z := 1.
Definition REQUEST_TYPE_INVALID : Z := 2.

Definition _get_req_type (arg : list byte) : Z :=
  if strcmp arg (list_byte_of_string "inode") =? 0 then REQUEST_TYPE_INODE
  else if strcmp arg (list_byte_of_string "data") =? 0 then REQUEST_TYPE_DATA
  else REQUEST_TYPE_INVALID.

(** *** The macro [EXT2_PHY_TO_LOG_BLKS] *)

(** The value of the statement expression: [log_nb] after the [+=].  Both
    locals are [uint64_t]; a block size below 512 makes the factor zero and
    the division undefined ([None]). *)
Definition EXT2_PHY_TO_LOG_BLKS (sb : list byte) (phy_nb : Z) : option Z :=
  let log_to_phy_fact := u64 (EXT2_BLOCK_SIZE sb / 512) in
  if log_to_phy_fact =? 0 then None
  else
    let log_nb := u64 (phy_nb / log_to_phy_fact) in
    Some (u64 (log_nb + (if phy_nb mod log_to_phy_fact =? 0 then 0 else 1))).

(** *** The inode printer and the entry points *)

(** More members of [struct ext2_inode]. *)
Definition i_uid (ino_st : buffer) : option Z := member ino_st 2 2.
Definition i_atime (ino_st : buffer) : option Z := member ino_st 8 4.
Definition i_ctime (ino_st : buffer) : option Z := member ino_st 12 4.
Definition i_mtime (ino_st : buffer) : option Z := member ino_st 16 4.
Definition i_gid (ino_st : buffer) : option Z := member ino_st 24 2.
Definition i_links_count (ino_st : buffer) : option Z := member ino_st 26 2.
Definition i_blocks (ino_st : buffer) : option Z := member ino_st 28 4.
Definition i_flags (ino_st : buffer) : option Z := member ino_st 32 4.
Definition i_generation (ino_st : buffer) : option Z := member ino_st 100 4.
Definition i_file_acl (ino_st : buffer) : option Z := member ino_st 104 4.

(** A call of [printf]: the format, spelled as in the source, and the
    values of the arguments after it. *)
Inductive printf_call : Type :=
| Printf (format : string) (args : list Z).

(** The line [_ext2_print_ino_st] prints for slot [i] of [i_block]. *)
Definition block_line (i blk : Z) : list printf_call :=
  if i <? EXT2_NDIR_BLOCKS then
    [Printf "Direct data block (%u): %u\n" [i; blk]]
  else if i =? EXT2_IND_BLOCK then
    [Printf "Single indirect data block: %u\n" [blk]]
  else if i =? EXT2_DIND_BLOCK then
    [Printf "Double indirect data block: %u\n" [blk]]
  else if i =? EXT2_TIND_BLOCK then
    [Printf "Triple indirect data block: %u\n" [blk]]
  else [].

(** The loop of [_ext2_print_ino_st] over [i_block]: the calls it makes. *)
Fixpoint print_ino_st_loop (ino_st : buffer) (n : nat) (i : Z)
    : outcome (list printf_call) :=
  match n with
  | O => ret []
  | S n' =>
      blk <- defined (i_block ino_st i) ;;
      if blk =? 0 then ret []
      else
        rest <- print_ino_st_loop ino_st n' (i + 1) ;;
        ret (block_line i blk ++ rest)
  end.

Section Requests.

Variable dev : list byte.
Variable _sb : list byte.

(** [_ext2_print_ino_st(ino)]: the result is the sequence of [printf]
    calls the function makes. *)
Definition _ext2_print_ino_st (ino : Z) : outcome (list printf_call) :=
  ino_st <- _ext2_ino_to_ino_st dev _sb ino (uninit sizeof_ext2_inode) ;;
  mode <- defined (i_mode ino_st) ;;
  flags <- defined (i_flags ino_st) ;;
  generation <- defined (i_generation ino_st) ;;
  uid <- defined (i_uid ino_st) ;;
  gid <- defined (i_gid ino_st) ;;
  size <- defined (i_size ino_st) ;;
  file_acl <- defined (i_file_acl ino_st) ;;
  links_count <- defined (i_links_count ino_st) ;;
  blocks <- defined (i_blocks ino_st) ;;
  ctime <- defined (i_ctime ino_st) ;;
  atime <- defined (i_atime ino_st) ;;
  mtime <- defined (i_mtime ino_st) ;;
  lines <- print_ino_st_loop ino_st (Z.to_nat EXT2_N_BLOCKS) 0 ;;
  ret ([ Printf "Inode: %u " [ino];
         Printf "Type: 0x%x " [Z.land mode 0xF000];
         Printf "Mode: 0%o " [Z.land mode 0x0FFF];
         Printf "Flags: 0x%x\n" [flags];
         Printf "Generation: %u\n" [generation];
         Printf "User: %u " [uid];
         Printf "Group: %u " [gid];
         Printf "Size: %u\n" [size];
         Printf "File ACL: %u\n" [file_acl];
         Printf "Links: %u " [links_count];
         Printf "Blockcount: %u\n" [blocks];
         Printf "ctime: 0x%x\n" [ctime];
         Printf "atime: 0x%x\n" [atime];
         Printf "mtime: 0x%x\n" [mtime];
         Printf "BLOCKS:\n" [] ] ++ lines).

(** [ext2_print_ino(ino, req)]: the [printf] calls of the inode printer;
    the data printers' output is in the trace. *)
Definition ext2_print_ino (fuel : nat) (ino req : Z)
    : outcome (list printf_call) :=
  if req =? REQUEST_TYPE_INODE then _ext2_print_ino_st ino
  else if req =? REQUEST_TYPE_DATA then
    _ext2_print_ino_data dev _sb fuel ino ;;; ret []
  else Exit "Invalid request".

End Requests.

(** [ext2_deinit()]: closing the device file changes nothing the program
    looks at afterwards. *)
Definition ext2_deinit : outcome unit := ret tt.

(** [main(argc, argv)] with [argc = length argv]; [device_file] is what
    [ext2_init] finds at [DEVICE_FILE_PATH].  A return is
    [exit(EXIT_SUCCESS)]. *)
Definition main (device_file : option (list byte)) (fuel : nat)
    (argv : list (list byte)) : outcome (list printf_call) :=
  if negb (Nat.eqb (length argv) 3) then Exit "Invalid number of arguments"
  else
    globals <- ext2_init device_file ;;
    ino <- ext2_path_to_ino (fst globals) (snd globals) fuel (nth 1 argv []) ;;
    let req := _get_req_type (nth 2 argv []) in
    out <- ext2_print_ino (fst globals) (snd globals) fuel ino req ;;
    ext2_deinit ;;;
    ret out.

(** ** More notions used to state properties *)

(** The string a list of bytes holds: its bytes before the first NUL. *)
Fixpoint until_nul (s : list byte) : list byte :=
  match s with
  | [] => []
  | c :: s' => if Byte.eqb c x00 then [] else c :: until_nul s'
  end.

(** A name that can be a path component: not empty, without ['/'] and
    without NUL. *)
Definition name_char (c : byte) : bool :=
  negb (Byte.eqb c x00) && negb (Byte.eqb c "/"%byte).

Definition valid_name (t : list byte) : bool :=
  nonempty t && forallb name_char t.

(** The path made of the components [toks], each after a slash. *)
Definition join_path (toks : list (list byte)) : list byte :=
  flat_map (fun t => slash ++ t) toks.

(** The directory lines of a trace. *)
Definition dirents_of (tr : list event) : list (Z * string * buffer) :=
  flat_map (fun e => match e with
                     | PutDirent i ft n => [(i, ft, n)]
                     | _ => []
                     end) tr.

(** The line the directory printer shows for an entry. *)
Definition dirent_line (e : dirent) : Z * string * buffer :=
  (d_inode e, ft_string (d_file_type e), map Some (d_name e)).

(** The lines [_ext2_print_ino_st] prints for the block numbers [blks],
    the first being in slot [i]. *)
Fixpoint block_lines (i : Z) (blks : list Z) : list printf_call :=
  match blks with
  | [] => []
  | b :: blks' => block_line i b ++ block_lines (i + 1) blks'
  end.

(** The first [n] slots of [i_block] from slot [i] on, up to the first
    that is zero. *)
Fixpoint leading_blocks (ino_st : buffer) (n : nat) (i : Z) : list Z :=
  match n with
  | O => []
  | S n' =>
      match i_block ino_st i with
      | Some b => if b =? 0 then [] else b :: leading_blocks ino_st n' (i + 1)
      | None => []
      end
  end.

(** Inode [ino] loads as a directory whose only data block is [blk]. *)
Definition one_block_dir (dev sb : list byte) (ino blk : Z) : Prop :=
  exists ino_st t mode,
    _ext2_ino_to_ino_st dev sb ino (uninit sizeof_ext2_inode) = Ret ino_st t /\
    i_mode ino_st = Some mode /\
    EXT2_IS_INODE_DIR mode = true /\
    i_block ino_st 0 = Some blk /\ blk <> 0 /\
    i_block ino_st 1 = Some 0.

(** The index of the first entry whose name agrees with the argument. *)
Fixpoint first_agreeing (nxt_arg : list byte) (ents : list dirent)
    : option dirent :=
  match ents with
  | [] => None
  | e :: ents' =>
      if name_agrees nxt_arg e then Some e else first_agreeing nxt_arg ents'
  end.

(** The block numbers an index block holds in its first [n] slots from
    slot [i] on, up to the first that is zero. *)
Fixpoint leading_addresses (dev : list byte) (blk_off : Z) (n : nat) (i : Z)
    : list Z :=
  match n with
  | O => []
  | S n' =>
      let a := le_val (dev_read dev (blk_off + 4 * i) 4) in
      if a =? 0 then [] else a :: leading_addresses dev blk_off n' (i + 1)
  end.

(** The data blocks under the index block [blk_addr] that has [below]
    levels of index blocks under it, in the order of the addresses. *)
Fixpoint tree_leaves (dev sb : list byte) (below : nat) (blk_addr : Z)
    : list Z :=
  let addrs :=
    leading_addresses dev (blk_addr * EXT2_BLOCK_SIZE sb)
      (Z.to_nat (EXT2_ADDR_PER_BLOCK sb)) 0 in
  match below with
  | O => addrs
  | S b => flat_map (tree_leaves dev sb b) addrs
  end.

(** The index block [blk_addr] and the index blocks under it are on the
    device. *)
Fixpoint index_tree_ok (dev sb : list byte) (below : nat) (blk_addr : Z)
    : Prop :=
  block_in_device dev sb blk_addr /\
  match below with
  | O => True
  | S b =>
      Forall (index_tree_ok dev sb b)
        (leading_addresses dev (blk_addr * EXT2_BLOCK_SIZE sb)
           (Z.to_nat (EXT2_ADDR_PER_BLOCK sb)) 0)
  end.

(** The data blocks under slot [i] of [i_block] when it holds [blk], and
    those of a file whose leading slots from [i] on hold [blks]. *)
Definition slot_blocks (dev sb : list byte) (i blk : Z) : list Z :=
  if i <? EXT2_NDIR_BLOCKS then [blk]
  else if i =? EXT2_IND_BLOCK then tree_leaves dev sb 0 blk
  else if i =? EXT2_DIND_BLOCK then tree_leaves dev sb 1 blk
  else if i =? EXT2_TIND_BLOCK then tree_leaves dev sb 2 blk
  else [].

Fixpoint file_blocks (dev sb : list byte) (i : Z) (blks : list Z) : list Z :=
  match blks with
  | [] => []
  | b :: blks' => slot_blocks dev sb i b ++ file_blocks dev sb (i + 1) blks'
  end.

(** The index blocks under these slots are on the device. *)
Definition slot_ok (dev sb : list byte) (i blk : Z) : Prop :=
  if i <? EXT2_NDIR_BLOCKS then True
  else if i =? EXT2_IND_BLOCK then index_tree_ok dev sb 0 blk
  else if i =? EXT2_DIND_BLOCK then index_tree_ok dev sb 1 blk
  else if i =? EXT2_TIND_BLOCK then index_tree_ok dev sb 2 blk
  else True.

Fixpoint slots_ok (dev sb : list byte) (i : Z) (blks : list Z) : Prop :=
  match blks with
  | [] => True
  | b :: blks' => slot_ok dev sb i b /\ slots_ok dev sb (i + 1) blks'
  end.

(** A read of an entry that starts inside the block at [blk_off]. *)
Definition read_in_block (blk_off bs : Z) (rd : Z * Z) : Prop :=
  blk_off <= fst rd < blk_off + bs /\ snd rd = EXT2_DIR_ENTRY_SIZE.

(** The blocks the printer visits under an address start with those the
    lookup visits, and are those when the lookup does not find the name. *)
Definition walks_agree (search : Z -> outcome Z) (print : Z -> outcome unit)
    : Prop :=
  forall a r t1 t2,
    search a = Ret r t1 -> print a = Ret tt t2 ->
    exists rest,
      leaves_of t2 = leaves_of t1 ++ rest /\
      ((r >? EXT2_BAD_INO) = false -> rest = []).

(** ** Damaged volumes *)

Module Damaged.

(** The root directory's block starts with an entry whose [rec_len] is
    zero. *)
Definition stuck_entry : dirent := mk_dirent 2 0 2 (Sample.str ".").

Definition image_stuck : list byte :=
  Sample.superblock_at 1024 1 16
  (Sample.group_desc_at 2048 2
  (Sample.inode_at (2 * 2048 + 1 * 128) 0x41ED 2048 [3]
  (Sample.dirents_at (3 * 2048) [stuck_entry]
  (Sample.blank (4 * 2048))))).

End Damaged.

(** * Theorems *)

(** ** The sample volume at work *)

Example resolve_hello :
  ext2_path_to_ino Sample.image Sample.sb 4 (Sample.str "/hello.txt")
  = Ret 12 [Read 2048 32; Read 4224 128; Leaf 3; Read 6144 264;
            Read 6156 264; Read 6168 264].
Proof. vm_compute. reflexivity. Qed.

Example resolve_missing :
  ext2_path_to_ino Sample.image Sample.sb 4 (Sample.str "/nonexistent")
  = Exit "File search failed".
Proof. vm_compute. reflexivity. Qed.

Example resolve_through_file :
  ext2_path_to_ino Sample.image Sample.sb 4 (Sample.str "/hello.txt/foo")
  = Exit "The path consists of non-directory files".
Proof. vm_compute. reflexivity. Qed.

Example list_root :
  _ext2_print_ino_data Sample.image Sample.sb 4 2
  = Ret tt [Read 2048 32; Read 4224 128; Leaf 3;
            Read 6144 264;
            PutDirent 2 "Directory" (map Some (Sample.str "."));
            Read 6156 264;
            PutDirent 2 "Directory" (map Some (Sample.str ".."));
            Read 6168 264;
            PutDirent 12 "Regular  " (map Some (Sample.str "hello.txt"))].
Proof. vm_compute. reflexivity. Qed.

Example print_hello :
  exists tr,
    _ext2_print_ino_data Sample.image Sample.sb 0 12 = Ret tt tr /\
    firstn 14 (chars_of tr) = map Some Sample.hello /\
    skipn 14 (chars_of tr) = repeat (Some x00) 2034.
Proof.
  pose (o := _ext2_print_ino_data Sample.image Sample.sb 0 12).
  exists (match o with Ret _ tr => tr | _ => [] end).
  repeat split; vm_compute; reflexivity.
Qed.

(** ** The outcome monad *)

Lemma bind_Ret_inv {A B : Type} (m : outcome A) (k : A -> outcome B) b tr :
  bind m k = Ret b tr ->
  exists a t1 t2, m = Ret a t1 /\ k a = Ret b t2 /\ tr = t1 ++ t2.
Proof.
  destruct m as [a t1 | | |]; simpl; try discriminate.
  destruct (k a) as [b' t2 | | |] eqn:Hk; try discriminate.
  intros H; inversion H; subst. now exists a, t1, t2.
Qed.

Lemma bind_Ret {A B : Type} (a : A) t1 (k : A -> outcome B) :
  bind (Ret a t1) k =
  match k a with
  | Ret b t2 => Ret b (t1 ++ t2)
  | Exit msg => Exit msg
  | Undef => Undef
  | Timeout => Timeout
  end.
Proof. reflexivity. Qed.

Lemma bind_ret {A B : Type} (a : A) (k : A -> outcome B) :
  bind (ret a) k = k a.
Proof. unfold ret; simpl. now destruct (k a). Qed.

Lemma defined_Ret_inv {A : Type} (o : option A) a tr :
  defined o = Ret a tr -> o = Some a /\ tr = [].
Proof. destruct o; simpl; unfold ret; intros H; now inversion H. Qed.

Lemma ret_Ret_inv {A : Type} (a b : A) tr :
  ret a = Ret b tr -> a = b /\ tr = [].
Proof. unfold ret; intros H; now inversion H. Qed.

(** Invert every hypothesis that says a sequence of steps returned. *)
Ltac inv_ret :=
  repeat match goal with
  | H : bind _ _ = Ret _ _ |- _ =>
      let a := fresh "a" in
      let t1 := fresh "t" in
      let t2 := fresh "t" in
      let H1 := fresh "Hm" in
      let H2 := fresh "Hk" in
      let H3 := fresh "Ht" in
      apply bind_Ret_inv in H; destruct H as (a & t1 & t2 & H1 & H2 & H3)
  | H : defined _ = Ret _ _ |- _ =>
      apply defined_Ret_inv in H; destruct H
  | H : ret _ = Ret _ _ |- _ =>
      apply ret_Ret_inv in H; destruct H
  | H : emit _ = Ret _ _ |- _ =>
      unfold emit in H; inversion H; clear H
  | H : Exit _ = Ret _ _ |- _ => discriminate H
  | H : Undef = Ret _ _ |- _ => discriminate H
  | H : Timeout = Ret _ _ |- _ => discriminate H
  end.

Lemma reads_of_app t1 t2 : reads_of (t1 ++ t2) = reads_of t1 ++ reads_of t2.
Proof. apply flat_map_app. Qed.

Lemma leaves_of_app t1 t2 : leaves_of (t1 ++ t2) = leaves_of t1 ++ leaves_of t2.
Proof. apply flat_map_app. Qed.

Lemma chars_of_app t1 t2 : chars_of (t1 ++ t2) = chars_of t1 ++ chars_of t2.
Proof. apply flat_map_app. Qed.

(** ** Path resolution never yields a reserved inode number *)

Lemma path_loop_at_least_root dev sb fuel toks :
  forall ino0 ino tr,
    EXT2_ROOT_INO <= ino0 ->
    path_loop dev sb fuel toks ino0 = Ret ino tr ->
    EXT2_ROOT_INO <= ino.
Proof.
  induction toks as [|tok toks IH]; simpl; intros ino0 ino tr Hge H.
  - inv_ret. now subst.
  - inv_ret. destruct (a <? EXT2_ROOT_INO) eqn:Hlt; [discriminate|].
    apply Z.ltb_ge in Hlt. eauto.
Qed.

(** C10.  Every inode number that [ext2_path_to_ino] returns is at least
    [EXT2_ROOT_INO] = 2: the reserved numbers 0 and 1 are never the result
    of a resolution.  A component's lookup result is kept only when it is
    not below 2; a result of 0 or 1 (not greater than [EXT2_BAD_INO])
    makes the resolution exit with "File search failed". *)
Theorem path_to_ino_at_least_root :
  forall dev sb fuel path ino tr,
    ext2_path_to_ino dev sb fuel path = Ret ino tr ->
    2 <= ino /\ ino <> 0 /\ ino <> 1 /\
    (forall ino0 tok toks r t,
        _ext2_nxt_ino dev sb fuel ino0 tok = Ret r t ->
        r <= EXT2_BAD_INO ->
        path_loop dev sb fuel (tok :: toks) ino0 = Exit "File search failed").
Proof.
  intros dev sb fuel path ino tr H.
  assert (Hge : EXT2_ROOT_INO <= ino).
  { unfold ext2_path_to_ino in H. inv_ret.
    eapply path_loop_at_least_root; [|eassumption]. reflexivity. }
  unfold EXT2_ROOT_INO in Hge.
  repeat split; try lia.
  intros ino0 tok toks r t Hr Hle. simpl. rewrite Hr. simpl.
  unfold EXT2_BAD_INO, EXT2_ROOT_INO in *.
  destruct (r <? 2) eqn:E; [reflexivity|]. apply Z.ltb_ge in E. lia.
Qed.

Lemma path_to_ino_at_least_root_witness :
  ext2_path_to_ino Sample.image Sample.sb 10 (Sample.str "/hello.txt")
  = Ret 12 [Read 2048 32; Read 4224 128; Leaf 3; Read 6144 264;
            Read 6156 264; Read 6168 264] /\
  2 <= 12.
Proof.
  assert (H : ext2_path_to_ino Sample.image Sample.sb 10
                (Sample.str "/hello.txt")
              = Ret 12 [Read 2048 32; Read 4224 128; Leaf 3; Read 6144 264;
                        Read 6156 264; Read 6168 264])
    by (vm_compute; reflexivity).
  split; [exact H|].
  exact (proj1 (path_to_ino_at_least_root _ _ _ _ _ _ H)).
Defined.

(** ** Bytes and little-endian values *)

Lemma byte_val_range b : 0 <= byte_val b < 256.
Proof. unfold byte_val. pose proof (Byte.to_N_bounded b). lia. Qed.

Lemma byte_val_of_Z z : byte_val (byte_of_Z z) = z mod 256.
Proof.
  unfold byte_val, byte_of_Z.
  assert (Hr : 0 <= z mod 256 < 256) by (apply Z.mod_pos_bound; lia).
  destruct (Byte.of_N (Z.to_N (z mod 256))) as [b|] eqn:E.
  - apply Byte.to_of_N in E. rewrite E. lia.
  - apply Byte.of_N_None_iff in E. lia.
Qed.

Lemma le_val_nonneg bs : 0 <= le_val bs.
Proof.
  induction bs as [|b bs IH]; cbn [le_val]; [lia|].
  pose proof (byte_val_range b). lia.
Qed.

Lemma le_val_bound bs : le_val bs < 256 ^ Z.of_nat (length bs).
Proof.
  induction bs as [|b bs IH]; [simpl; lia|].
  cbn [le_val length]. rewrite Nat2Z.inj_succ, Z.pow_succ_r by lia.
  pose proof (byte_val_range b). lia.
Qed.

Lemma length_le_bytes n z : length (le_bytes n z) = n.
Proof. revert z; induction n; simpl; intros; [reflexivity|now rewrite IHn]. Qed.

Lemma le_val_le_bytes n z : le_val (le_bytes n z) = z mod 256 ^ Z.of_nat n.
Proof.
  revert z; induction n as [|n IH]; intros z.
  - simpl. now rewrite Z.mod_1_r.
  - cbn [le_bytes le_val]. rewrite IH, byte_val_of_Z.
    rewrite Nat2Z.inj_succ, Z.pow_succ_r by lia.
    rewrite Z.rem_mul_r by lia. reflexivity.
Qed.

Lemma le_val_le_bytes_small n z :
  0 <= z < 256 ^ Z.of_nat n -> le_val (le_bytes n z) = z.
Proof. intros H. rewrite le_val_le_bytes. now apply Z.mod_small. Qed.

(** ** Buffers and reads *)

Lemma cells_map_Some l : cells (map Some l) = Some l.
Proof. induction l as [|b l IH]; simpl; [reflexivity|now rewrite IH]. Qed.

Lemma member_prefix buf got off len :
  (off + len <= length got)%nat ->
  member (map Some got ++ buf) off len
  = Some (le_val (firstn len (skipn off got))).
Proof.
  intros Hle. unfold member.
  rewrite skipn_app, firstn_app, length_skipn, !length_map.
  replace (len - (length got - off))%nat with 0%nat by lia.
  rewrite firstn_0, app_nil_r, skipn_map, firstn_map, length_map.
  rewrite length_firstn, length_skipn.
  replace (Nat.min len (length got - off)) with len by lia.
  rewrite Nat.eqb_refl, cells_map_Some. reflexivity.
Qed.

Lemma member_overwrite buf got off len :
  (off + len <= length got)%nat ->
  member (overwrite buf (map Some got)) off len
  = Some (le_val (firstn len (skipn off got))).
Proof. intros H. unfold overwrite. now apply member_prefix. Qed.

Lemma length_dev_read_le dev off size :
  (length (dev_read dev off size) <= Z.to_nat size)%nat.
Proof. unfold dev_read. rewrite length_firstn. lia. Qed.

Lemma length_dev_read dev off size :
  in_device dev off size -> length (dev_read dev off size) = Z.to_nat size.
Proof.
  unfold in_device, dev_read. intros H.
  rewrite length_firstn, length_skipn. lia.
Qed.



Lemma ext2_read_ok dev offset buff size :
  offset < 2 ^ 63 ->
  _ext2_read dev offset buff size
  = Ret (overwrite buff (map Some (dev_read dev offset size)))
        [Read offset size].
Proof.
  intros H. unfold _ext2_read.
  destruct (2 ^ 63 <=? offset) eqn:E; [apply Z.leb_le in E; lia|reflexivity].
Qed.

Lemma ext2_read_Ret_inv dev offset buff size r tr :
  _ext2_read dev offset buff size = Ret r tr ->
  offset < 2 ^ 63 /\
  r = overwrite buff (map Some (dev_read dev offset size)) /\
  tr = [Read offset size].
Proof.
  unfold _ext2_read. destruct (2 ^ 63 <=? offset) eqn:E; [discriminate|].
  apply Z.leb_gt in E. intros H; inversion H; auto.
Qed.

Lemma block_size_nonneg sb : 0 <= EXT2_BLOCK_SIZE sb.
Proof.
  unfold EXT2_BLOCK_SIZE. apply Z.shiftl_nonneg. lia.
Qed.


Lemma inodes_per_group_nonneg sb : 0 <= EXT2_INODES_PER_GROUP sb.
Proof. apply le_val_nonneg. Qed.

Lemma addr_per_block_nonneg sb : 0 <= EXT2_ADDR_PER_BLOCK sb.
Proof.
  unfold EXT2_ADDR_PER_BLOCK. apply Z.div_pos; [apply block_size_nonneg|lia].
Qed.

(** ** Opening the volume *)

(** C3, as the code has it.  [ext2_init] compares nothing with the magic
    number: on every device file that can be opened it returns, having read
    the superblock at byte 1024; byte [k] of [_sb] is byte [1024 + k] of the
    device, or zero where the device is too short.  The only failure is that
    of opening the device file. *)
Theorem ext2_init_does_not_validate :
  forall dev,
    ext2_init None = Exit "Failed to open the device file" /\
    (forall msg, ext2_init (Some dev) <> Exit msg) /\
    exists sb,
      ext2_init (Some dev)
      = Ret (dev, sb) [Read EXT2_SUPER_BLOCK_OFFSET EXT2_SUPER_BLOCK_SIZE] /\
      length sb = sizeof_ext2_super_block /\
      forall k, (k < sizeof_ext2_super_block)%nat ->
                nth k sb x00 = nth (1024 + k) dev x00.
Proof.
  intros dev. split; [reflexivity|]. split; [discriminate|].
  eexists. split; [reflexivity|].
  unfold overwrite, EXT2_SUPER_BLOCK_OFFSET, EXT2_SUPER_BLOCK_SIZE, dev_read.
  set (n := sizeof_ext2_super_block).
  rewrite Nat2Z.id. change (Z.to_nat 1024) with n.
  set (got := firstn n (skipn n dev)).
  assert (Hgot : length got = Nat.min n (length dev - n)).
  { unfold got. now rewrite length_firstn, length_skipn. }
  split.
  - rewrite length_app, length_skipn, repeat_length. lia.
  - intros k Hk.
    destruct (Nat.ltb k (length got)) eqn:E.
    + apply Nat.ltb_lt in E. rewrite app_nth1 by exact E.
      unfold got. rewrite nth_firstn.
      replace (Nat.ltb k n) with true by (symmetry; apply Nat.ltb_lt; lia).
      rewrite nth_skipn. reflexivity.
    + apply Nat.ltb_ge in E. rewrite app_nth2 by lia.
      rewrite nth_skipn, nth_repeat.
      symmetry. apply nth_overflow. change 1024%nat with n. lia.
Qed.

(** A device of zeros: its magic field is 0, and [ext2_init] returns. *)
Lemma ext2_init_accepts_bad_magic :
  smember (dev_read (Sample.blank 2048) 1024 1024) 56 2 <> EXT2_SUPER_MAGIC /\
  ext2_init (Some (Sample.blank 2048))
  = Ret (Sample.blank 2048, Sample.blank 1024) [Read 1024 1024] /\
  s_magic (Sample.blank 1024) = 0.
Proof. vm_compute. repeat split. discriminate. Qed.

(** ** The inode loader *)


(** The first read of the loader is that of the group descriptor, at
    [grp_desc_off]. *)
Lemma ino_to_ino_st_first_read dev sb ino p_ino_st st tr :
  _ext2_ino_to_ino_st dev sb ino p_ino_st = Ret st tr ->
  exists inode_table,
    tr = [Read (grp_desc_off sb ino) (EXT2_DESC_SIZE sb);
          Read (ino_off sb inode_table ino) (Z.of_nat sizeof_ext2_inode)].
Proof.
  unfold _ext2_ino_to_ino_st.
  destruct (EXT2_INODES_PER_GROUP sb =? 0); [discriminate|].
  intros H. inv_ret.
  apply ext2_read_Ret_inv in Hm as (_ & _ & ->).
  apply ext2_read_Ret_inv in Hk0 as (_ & _ & ->).
  subst. now exists a0.
Qed.

(** On the block sizes above 1024 the descriptor offset is the one of the
    on-disk format: the block after the superblock's. *)
Lemma grp_desc_off_large_blocks sb ino :
  1 <= ino < 2 ^ 32 ->
  0 < EXT2_INODES_PER_GROUP sb ->
  EXT2_BLOCK_SIZE sb = 2048 \/ EXT2_BLOCK_SIZE sb = 4096 ->
  grp_desc_off sb ino
  = EXT2_BLOCK_SIZE sb + ((ino - 1) / EXT2_INODES_PER_GROUP sb) * 32.
Proof.
  intros Hino Hipg Hbs. unfold grp_desc_off, grp_nb, u64, EXT2_DESC_SIZE.
  rewrite (Z.mod_small (ino - 1)) by lia.
  assert (0 <= (ino - 1) / EXT2_INODES_PER_GROUP sb <= ino - 1).
  { split; [apply Z.div_pos; lia|].
    apply Z.div_le_upper_bound; [lia|]. nia. }
  apply Z.mod_small. lia.
Qed.

(** C2, at a volume with blocks of 1024 bytes.  The group descriptors of
    [Sample.image_1k] start at byte 2048, the block after the superblock's;
    for inode 2 (group 0) the loader reads 32 bytes at byte 1024, the
    superblock itself, takes the inode table to be at block 0 and delivers
    128 bytes from byte 128.  Resolving [/hello.txt], which the volume
    holds, ends with the message for a path through a non-directory. *)
Theorem grp_desc_read_at_1024_on_1k_blocks :
  EXT2_BLOCK_SIZE Sample.sb_1k = 1024 /\
  grp_nb Sample.sb_1k 2 = 0 /\
  grp_desc_off Sample.sb_1k 2 = 1024 /\
  le_val (dev_read Sample.image_1k 2056 4) = 3 /\
  _ext2_ino_to_ino_st Sample.image_1k Sample.sb_1k 2 (uninit sizeof_ext2_inode)
  = Ret (map Some (dev_read Sample.image_1k 128 128))
        [Read 1024 32; Read 128 128] /\
  ext2_path_to_ino Sample.image_1k Sample.sb_1k 10 (Sample.str "/hello.txt")
  = Exit "The path consists of non-directory files".
Proof. vm_compute. repeat split. Qed.





(** ** Directory entries on the device *)

Lemma byte_val_inj a b : byte_val a = byte_val b -> a = b.
Proof.
  unfold byte_val. intros H. apply N2Z.inj in H.
  pose proof (Byte.of_to_N a) as Ha. pose proof (Byte.of_to_N b) as Hb.
  rewrite H in Ha. rewrite Ha in Hb. now inversion Hb.
Qed.

Lemma byte_eqb_refl b : Byte.eqb b b = true.
Proof. now apply Byte.byte_dec_lb. Qed.

Lemma byte_eqb_sym a b : Byte.eqb a b = Byte.eqb b a.
Proof.
  destruct (Byte.eqb a b) eqn:E1, (Byte.eqb b a) eqn:E2; try reflexivity.
  - apply Byte.byte_dec_bl in E1. subst.
    now rewrite byte_eqb_refl in E2.
  - apply Byte.byte_dec_bl in E2. subst.
    now rewrite byte_eqb_refl in E1.
Qed.

Lemma dirent_ok_inv e :
  dirent_ok e = true ->
  0 <= d_inode e < 2 ^ 32 /\ 0 <= d_rec_len e < 2 ^ 16 /\
  0 <= d_file_type e < 2 ^ 8 /\ Z.of_nat (length (d_name e)) < 2 ^ 8 /\
  forallb (fun c => negb (Byte.eqb c x00)) (d_name e) = true.
Proof.
  unfold dirent_ok. rewrite !andb_true_iff.
  rewrite !Z.leb_le, !Z.ltb_lt. tauto.
Qed.

Lemma length_dirent_bytes e :
  length (dirent_bytes e) = (8 + length (d_name e))%nat.
Proof.
  unfold dirent_bytes. rewrite !length_app, !length_le_bytes. lia.
Qed.

(** What [_ext2_read] leaves in [dir_ent] when the entry [e] is on the
    device at [off]. *)
Lemma read_entry dev off e buf :
  0 <= off < 2 ^ 63 ->
  dirent_ok e = true ->
  dev_read dev off (Z.of_nat (length (dirent_bytes e))) = dirent_bytes e ->
  exists dir_ent rest,
    _ext2_read dev off buf EXT2_DIR_ENTRY_SIZE
    = Ret dir_ent [Read off EXT2_DIR_ENTRY_SIZE] /\
    de_inode dir_ent = Some (d_inode e) /\
    de_rec_len dir_ent = Some (d_rec_len e) /\
    de_name_len dir_ent = Some (Z.of_nat (length (d_name e))) /\
    de_file_type dir_ent = Some (d_file_type e) /\
    de_name dir_ent = map Some (d_name e) ++ rest.
Proof.
  intros Hoff Hok Hdev.
  apply dirent_ok_inv in Hok as (Hi & Hr & Hf & Hn & _).
  set (got := dev_read dev off EXT2_DIR_ENTRY_SIZE).
  assert (Hgot : got = dirent_bytes e ++ skipn (length (dirent_bytes e)) got).
  { rewrite <- (firstn_skipn (length (dirent_bytes e)) got) at 1.
    f_equal. unfold got, dev_read in *. rewrite firstn_firstn.
    rewrite Nat2Z.id in Hdev.
    replace (Nat.min _ _) with (length (dirent_bytes e)); [exact Hdev|].
    rewrite length_dirent_bytes. unfold EXT2_DIR_ENTRY_SIZE.
    rewrite Nat2Z.id. unfold sizeof_ext2_dir_entry_2. lia. }
  exists (overwrite buf (map Some got)).
  exists (map Some (skipn (length (dirent_bytes e)) got)
          ++ skipn (length (map Some got)) buf).
  split; [apply ext2_read_ok; lia|].
  unfold overwrite. rewrite Hgot at 1 3 5 7 9.
  rewrite map_app, <- app_assoc.
  set (R := map Some (skipn _ got) ++ _).
  unfold de_inode, de_rec_len, de_name_len, de_file_type, de_name.
  rewrite !member_prefix by (rewrite length_dirent_bytes; lia).
  split; [|split; [|split; [|split]]].
  - unfold dirent_bytes. cbn [le_bytes app firstn skipn].
    change (le_val _) with (le_val (le_bytes 4 (d_inode e))).
    f_equal. apply le_val_le_bytes_small. simpl. lia.
  - unfold dirent_bytes. cbn [le_bytes app firstn skipn].
    change (le_val _) with (le_val (le_bytes 2 (d_rec_len e))).
    f_equal. apply le_val_le_bytes_small. simpl. lia.
  - unfold dirent_bytes. cbn [le_bytes app firstn skipn].
    change (le_val _)
      with (le_val (le_bytes 1 (Z.of_nat (length (d_name e))))).
    f_equal. apply le_val_le_bytes_small. simpl. lia.
  - unfold dirent_bytes. cbn [le_bytes app firstn skipn].
    change (le_val _) with (le_val (le_bytes 1 (d_file_type e))).
    f_equal. apply le_val_le_bytes_small. simpl. lia.
  - unfold dirent_bytes. cbn [le_bytes app map skipn]. reflexivity.
Qed.

(** The comparison of the argument against a name without NUL is zero
    exactly when the name's bytes are the first bytes of the argument. *)
Lemma memcmp_scan_name name :
  forallb (fun c => negb (Byte.eqb c x00)) name = true ->
  forall nxt_arg rest,
  exists z,
    memcmp_scan (c_str nxt_arg) (map Some name ++ rest) (length name)
    = Some z /\
    (z =? 0) = prefixb name nxt_arg.
Proof.
  induction name as [|a name IH]; intros Hnul nxt_arg rest.
  - exists 0. split; reflexivity.
  - cbn [forallb] in Hnul. apply andb_true_iff in Hnul as (Ha & Hnul).
    destruct nxt_arg as [|b nxt_arg].
    + cbn [c_str app map memcmp_scan length prefixb].
      rewrite byte_eqb_sym. apply negb_true_iff in Ha. rewrite Ha.
      eexists. split; [reflexivity|].
      apply Z.eqb_neq. intros Hz.
      assert (x00 = a) by (apply byte_val_inj; lia). subst a.
      now rewrite byte_eqb_refl in Ha.
    + cbn [c_str app map memcmp_scan length prefixb].
      rewrite (byte_eqb_sym a b).
      destruct (Byte.eqb b a) eqn:E.
      * destruct (IH Hnul nxt_arg rest) as (z & Hz & Hp).
        exists z. split; [exact Hz|]. now rewrite Hp.
      * eexists. split; [reflexivity|]. cbn [andb].
        apply Z.eqb_neq. intros Hz.
        assert (b = a) by (apply byte_val_inj; lia). subst a.
        now rewrite byte_eqb_refl in E.
Qed.

Lemma length_c_str s : length (c_str s) = (length s + 1)%nat.
Proof. unfold c_str. rewrite length_app. reflexivity. Qed.

(** [memcmp] of the argument against a name that fits in the argument's
    object is defined. *)
Lemma memcmp_name name :
  forallb (fun c => negb (Byte.eqb c x00)) name = true ->
  forall nxt_arg rest,
    (length name <= length nxt_arg + 1)%nat ->
    exists z,
      memcmp (c_str nxt_arg) (map Some name ++ rest) (length name) = Some z /\
      (z =? 0) = prefixb name nxt_arg.
Proof.
  intros Hnul nxt_arg rest Hfit. unfold memcmp.
  rewrite length_c_str, length_app, length_map.
  replace (length name <=? length nxt_arg + 1)%nat with true
    by (symmetry; apply Nat.leb_le; exact Hfit).
  replace (length name <=? length name + length rest)%nat with true
    by (symmetry; apply Nat.leb_le; lia).
  cbn [andb]. now apply memcmp_scan_name.
Qed.

(** A name longer than the argument's object makes [memcmp] read past the
    end of that object. *)
Lemma memcmp_overread nxt_arg s2 n :
  (length nxt_arg + 1 < n)%nat -> memcmp (c_str nxt_arg) s2 n = None.
Proof.
  intros H. unfold memcmp. rewrite length_c_str.
  replace (n <=? length nxt_arg + 1)%nat with false
    by (symmetry; apply Nat.leb_gt; exact H).
  reflexivity.
Qed.

Lemma prefixb_length p : forall s, prefixb p s = true -> (length p <= length s)%nat.
Proof.
  induction p as [|a p IH]; intros [|b s] H; cbn [prefixb length] in *;
    try lia; try discriminate.
  apply andb_true_iff in H as (_ & H). apply IH in H. lia.
Qed.

Lemma total_rec_len_nonneg ents :
  Forall (fun e => 0 < d_rec_len e) ents -> 0 <= total_rec_len ents.
Proof.
  induction 1 as [|e ents He _ IH]; cbn [total_rec_len fold_right]; [lia|].
  fold (total_rec_len ents). lia.
Qed.

(** ** The file-type table *)

Lemma ft_to_str_at_in_bounds file_type :
  0 <= file_type < EXT2_FT_MAX -> exists s, ft_to_str_at file_type = Some s.
Proof.
  intros H. unfold ft_to_str_at.
  destruct (file_type <? 0) eqn:E; [apply Z.ltb_lt in E; lia|].
  destruct (nth_error _ft_to_str (Z.to_nat file_type)) as [s|] eqn:En;
    [now exists s|].
  apply nth_error_None in En. unfold EXT2_FT_MAX in H. simpl in En. lia.
Qed.

Lemma ft_to_str_at_out_of_bounds file_type :
  EXT2_FT_MAX <= file_type -> ft_to_str_at file_type = None.
Proof.
  intros H. unfold ft_to_str_at, EXT2_FT_MAX in *.
  destruct (file_type <? 0); [reflexivity|].
  apply nth_error_None. simpl. lia.
Qed.

(** One iteration of the directory printer on the entry [e] at cursor
    [i]. *)
Lemma ft_lookup_step dev sb fuel blk_off i buf e :
  i < EXT2_BLOCK_SIZE sb ->
  0 <= blk_off + i < 2 ^ 63 ->
  dirent_ok e = true ->
  dev_read dev (blk_off + i) (Z.of_nat (length (dirent_bytes e)))
  = dirent_bytes e ->
  exists dir_ent,
    print_dir_loop dev sb (S fuel) blk_off i buf
    = match ft_to_str_at (d_file_type e) with
      | Some ft =>
          Ret tt [Read (blk_off + i) EXT2_DIR_ENTRY_SIZE;
                  PutDirent (d_inode e) ft (map Some (d_name e))] ;;;
          print_dir_loop dev sb fuel blk_off (u32 (i + d_rec_len e)) dir_ent
      | None => Undef
      end.
Proof.
  intros Hi Hoff Hok Hdev.
  destruct (read_entry dev (blk_off + i) e buf Hoff Hok Hdev)
    as (dir_ent & rest & Hrd & Hino & Hrl & Hnl & Hft & Hname).
  exists dir_ent.
  cbn [print_dir_loop].
  apply Z.ltb_lt in Hi. rewrite Hi.
  unfold u64 at 1. rewrite Z.mod_small by lia.
  rewrite Hrd, bind_Ret, Hino. cbn [defined]. rewrite bind_ret, Hft.
  cbn [defined]. rewrite bind_ret.
  destruct (ft_to_str_at (d_file_type e)) as [ft|]; cbn [defined];
    [|reflexivity].
  rewrite bind_ret, Hnl. cbn [defined]. rewrite bind_ret.
  rewrite Nat2Z.id, Hname, firstn_app, length_map, Nat.sub_diag.
  rewrite firstn_0, app_nil_r, <- (length_map Some (d_name e)), firstn_all.
  unfold emit. rewrite bind_Ret, Hrl. cbn [defined]. rewrite bind_ret.
  rewrite bind_Ret.
  destruct (print_dir_loop dev sb fuel blk_off _ dir_ent); reflexivity.
Qed.

(** C9.  For the entry [e] that the directory printer processes at cursor
    [i], the index into [_ft_to_str] is within the eight slots of the
    table under the precondition [file_type < EXT2_FT_MAX], and then the
    printer prints the line and goes on; for an entry whose [file_type] is
    8 or more the index is outside the table and the call has no defined
    behaviour. *)
Theorem ft_lookup_needs_known_type :
  forall dev sb fuel blk_off i dir_ent0 e,
    i < EXT2_BLOCK_SIZE sb ->
    0 <= blk_off + i < 2 ^ 63 ->
    dirent_ok e = true ->
    entries_at dev (blk_off + i) [e] ->
    length _ft_to_str = Z.to_nat EXT2_FT_MAX /\
    (d_file_type e < EXT2_FT_MAX ->
     exists ft dir_ent,
       ft_to_str_at (d_file_type e) = Some ft /\
       print_dir_loop dev sb (S fuel) blk_off i dir_ent0
       = (Ret tt [Read (blk_off + i) EXT2_DIR_ENTRY_SIZE;
                  PutDirent (d_inode e) ft (map Some (d_name e))] ;;;
          print_dir_loop dev sb fuel blk_off (u32 (i + d_rec_len e)) dir_ent)) /\
    (EXT2_FT_MAX <= d_file_type e ->
     ft_to_str_at (d_file_type e) = None /\
     print_dir_loop dev sb (S fuel) blk_off i dir_ent0 = Undef).
Proof.
  intros dev sb fuel blk_off i buf e Hi Hoff Hok [Hdev _].
  split; [reflexivity|].
  destruct (ft_lookup_step dev sb fuel blk_off i buf e Hi Hoff Hok Hdev)
    as (dir_ent & Hstep).
  pose proof (dirent_ok_inv e Hok) as (_ & _ & Hf & _ & _).
  split.
  - intros Hlt.
    destruct (ft_to_str_at_in_bounds (d_file_type e)) as (ft & Eft); [lia|].
    exists ft, dir_ent. split; [exact Eft|].
    rewrite Hstep, Eft. reflexivity.
  - intros Hge. pose proof (ft_to_str_at_out_of_bounds _ Hge) as Eft.
    split; [exact Eft|]. rewrite Hstep, Eft. reflexivity.
Qed.

Lemma ft_lookup_needs_known_type_witness :
  d_file_type (mk_dirent 2 12 2 (Sample.str ".")) < EXT2_FT_MAX /\
  exists ft dir_ent,
    ft_to_str_at 2 = Some ft /\
    print_dir_loop Sample.image Sample.sb 3 6144 0
      (uninit sizeof_ext2_dir_entry_2)
    = (Ret tt [Read (6144 + 0) EXT2_DIR_ENTRY_SIZE;
               PutDirent 2 ft (map Some (Sample.str "."))] ;;;
       print_dir_loop Sample.image Sample.sb 2 6144 (u32 (0 + 12)) dir_ent).
Proof.
  split; [reflexivity|].
  refine (proj1 (proj2 (ft_lookup_needs_known_type Sample.image Sample.sb 2
                   6144 0 (uninit sizeof_ext2_dir_entry_2)
                   (mk_dirent 2 12 2 (Sample.str ".")) _ _ _ _)) _).
  - vm_compute. reflexivity.
  - lia.
  - reflexivity.
  - split; [vm_compute; reflexivity|exact I].
  - reflexivity.
Defined.

(** ** The two entry scans *)

Section Scans.

Variables dev sb : list byte.
Variable blk_off : Z.
Hypothesis blk_off_nonneg : 0 <= blk_off.
Hypothesis block_in_range : blk_off + EXT2_BLOCK_SIZE sb <= 2 ^ 63.
Hypothesis block_size_u32 : EXT2_BLOCK_SIZE sb < 2 ^ 32.

(** The lookup scan over a block that satisfies the invariant: it returns,
    and its reads are at the offsets [search_offsets] gives. *)
Lemma dir_search_loop_spec nxt_arg :
  forall ents fuel o buf,
    (length ents < fuel)%nat ->
    0 <= o ->
    forallb dirent_ok ents = true ->
    entries_at dev (blk_off + o) ents ->
    Forall (fun e => 0 < d_rec_len e) ents ->
    o + total_rec_len ents = EXT2_BLOCK_SIZE sb ->
    names_fit nxt_arg ents = true ->
    dir_search_loop dev sb fuel blk_off nxt_arg o buf
    = Ret (search_result nxt_arg ents)
          (map (fun c => Read (blk_off + c) EXT2_DIR_ENTRY_SIZE)
               (search_offsets nxt_arg o ents)).
Proof.
  induction ents as [|e ents IH];
    intros fuel o buf Hfuel Ho Hok Hat Hpos Hsum Hfit;
    (destruct fuel as [|fuel]; [simpl in Hfuel; lia|]).
  - cbn [total_rec_len fold_right] in Hsum.
    cbn [dir_search_loop]. replace (o <? EXT2_BLOCK_SIZE sb) with false
      by (symmetry; apply Z.ltb_ge; lia).
    reflexivity.
  - cbn [forallb] in Hok. apply andb_true_iff in Hok as (Hoke & Hok).
    cbn [entries_at] in Hat. destruct Hat as (Hdev & Hat).
    inversion Hpos as [|? ? Hpe Hpos']; subst.
    cbn [total_rec_len fold_right] in Hsum. fold (total_rec_len ents) in Hsum.
    pose proof (total_rec_len_nonneg ents Hpos') as Hnn.
    cbn [dir_search_loop].
    replace (o <? EXT2_BLOCK_SIZE sb) with true
      by (symmetry; apply Z.ltb_lt; lia).
    unfold u64. rewrite Z.mod_small by lia.
    destruct (read_entry dev (blk_off + o) e buf) as
      (dir_ent & rest & Hrd & Hino & Hrl & Hnl & Hft & Hname);
      [lia|exact Hoke|exact Hdev|].
    rewrite Hrd, bind_Ret, Hnl. cbn [defined]. rewrite bind_ret.
    rewrite Nat2Z.id, Hname.
    pose proof (dirent_ok_inv e Hoke) as (_ & _ & _ & _ & Hnul).
    unfold names_fit in Hfit. cbn [scanned forallb] in Hfit.
    apply andb_true_iff in Hfit as (Hfe & Hfit).
    apply Nat.leb_le in Hfe.
    destruct (memcmp_name (d_name e) Hnul nxt_arg rest Hfe) as (z & Hz & Hp).
    rewrite Hz. cbn [defined]. rewrite bind_ret.
    cbn [search_result search_offsets]. unfold name_agrees in *.
    rewrite Hp. destruct (prefixb (d_name e) nxt_arg).
    + rewrite Hino. reflexivity.
    + rewrite Hrl. cbn [defined]. rewrite bind_ret.
      unfold u32. rewrite Z.mod_small by lia.
      rewrite (IH fuel (o + d_rec_len e) dir_ent); try assumption; try lia.
      * reflexivity.
      * simpl in Hfuel. lia.
      * now rewrite Z.add_assoc.
Qed.

(** The lookup scan over such a block when an entry it compares has a
    name longer than the object that holds the argument: the comparison
    reads past the end of that object. *)
Lemma dir_search_loop_overread nxt_arg :
  forall ents fuel o buf,
    (length ents < fuel)%nat ->
    0 <= o ->
    forallb dirent_ok ents = true ->
    entries_at dev (blk_off + o) ents ->
    Forall (fun e => 0 < d_rec_len e) ents ->
    o + total_rec_len ents = EXT2_BLOCK_SIZE sb ->
    names_fit nxt_arg ents = false ->
    dir_search_loop dev sb fuel blk_off nxt_arg o buf = Undef.
Proof.
  induction ents as [|e ents IH];
    intros fuel o buf Hfuel Ho Hok Hat Hpos Hsum Hfit;
    (destruct fuel as [|fuel]; [simpl in Hfuel; lia|]).
  - discriminate.
  - cbn [forallb] in Hok. apply andb_true_iff in Hok as (Hoke & Hok).
    cbn [entries_at] in Hat. destruct Hat as (Hdev & Hat).
    inversion Hpos as [|? ? Hpe Hpos']; subst.
    cbn [total_rec_len fold_right] in Hsum. fold (total_rec_len ents) in Hsum.
    pose proof (total_rec_len_nonneg ents Hpos') as Hnn.
    cbn [dir_search_loop].
    replace (o <? EXT2_BLOCK_SIZE sb) with true
      by (symmetry; apply Z.ltb_lt; lia).
    unfold u64. rewrite Z.mod_small by lia.
    destruct (read_entry dev (blk_off + o) e buf) as
      (dir_ent & rest & Hrd & Hino & Hrl & Hnl & Hft & Hname);
      [lia|exact Hoke|exact Hdev|].
    rewrite Hrd, bind_Ret, Hnl. cbn [defined]. rewrite bind_ret.
    rewrite Nat2Z.id, Hname.
    pose proof (dirent_ok_inv e Hoke) as (_ & _ & _ & _ & Hnul).
    unfold names_fit in Hfit. cbn [scanned forallb] in Hfit.
    destruct (name_fits nxt_arg e) eqn:Hfe.
    + apply Nat.leb_le in Hfe.
      destruct (memcmp_name (d_name e) Hnul nxt_arg rest Hfe)
        as (z & Hz & Hp).
      rewrite Hz. cbn [defined]. rewrite bind_ret.
      unfold name_agrees in Hfit. rewrite Hp.
      destruct (prefixb (d_name e) nxt_arg); [discriminate|].
      cbn [andb] in Hfit.
      rewrite Hrl. cbn [defined]. rewrite bind_ret.
      unfold u32. rewrite Z.mod_small by lia.
      rewrite (IH fuel (o + d_rec_len e) dir_ent); try assumption; try lia.
      * reflexivity.
      * simpl in Hfuel. lia.
      * now rewrite Z.add_assoc.
    + apply Nat.leb_gt in Hfe.
      rewrite memcmp_overread by lia. reflexivity.
Qed.

(** The printer's scan over such a block whose file types are known. *)
Lemma print_dir_loop_spec :
  forall ents fuel o buf,
    (length ents < fuel)%nat ->
    0 <= o ->
    forallb dirent_ok ents = true ->
    known_types ents = true ->
    entries_at dev (blk_off + o) ents ->
    Forall (fun e => 0 < d_rec_len e) ents ->
    o + total_rec_len ents = EXT2_BLOCK_SIZE sb ->
    print_dir_loop dev sb fuel blk_off o buf
    = Ret tt (print_dir_events blk_off o ents).
Proof.
  induction ents as [|e ents IH];
    intros fuel o buf Hfuel Ho Hok Hkn Hat Hpos Hsum;
    (destruct fuel as [|fuel]; [simpl in Hfuel; lia|]).
  - cbn [total_rec_len fold_right] in Hsum.
    cbn [print_dir_loop]. replace (o <? EXT2_BLOCK_SIZE sb) with false
      by (symmetry; apply Z.ltb_ge; lia).
    reflexivity.
  - cbn [forallb] in Hok. apply andb_true_iff in Hok as (Hoke & Hok).
    unfold known_types in Hkn. cbn [forallb] in Hkn.
    apply andb_true_iff in Hkn as (Hke & Hkn). apply Z.ltb_lt in Hke.
    cbn [entries_at] in Hat. pose proof Hat as (Hdev & Hat').
    inversion Hpos as [|? ? Hpe Hpos']; subst.
    cbn [total_rec_len fold_right] in Hsum. fold (total_rec_len ents) in Hsum.
    pose proof (total_rec_len_nonneg ents Hpos') as Hnn.
    destruct (ft_lookup_step dev sb fuel blk_off o buf e) as
      (dir_ent & Hstep); [lia|lia|exact Hoke|exact Hdev|].
    rewrite Hstep.
    destruct (ft_to_str_at_in_bounds (d_file_type e)) as (ft & Eft).
    { pose proof (dirent_ok_inv e Hoke). lia. }
    rewrite Eft. unfold u32. rewrite Z.mod_small by lia.
    rewrite (IH fuel (o + d_rec_len e) dir_ent); try assumption; try lia.
    + cbn [print_dir_events]. unfold ft_string. rewrite Eft. reflexivity.
    + simpl in Hfuel. lia.
    + now rewrite Z.add_assoc.
Qed.

(** The printer's scan over such a block that has an entry whose file
    type is outside the table. *)
Lemma print_dir_loop_unknown :
  forall ents fuel o buf,
    (length ents < fuel)%nat ->
    0 <= o ->
    forallb dirent_ok ents = true ->
    known_types ents = false ->
    entries_at dev (blk_off + o) ents ->
    Forall (fun e => 0 < d_rec_len e) ents ->
    o + total_rec_len ents = EXT2_BLOCK_SIZE sb ->
    print_dir_loop dev sb fuel blk_off o buf = Undef.
Proof.
  induction ents as [|e ents IH];
    intros fuel o buf Hfuel Ho Hok Hkn Hat Hpos Hsum;
    (destruct fuel as [|fuel]; [simpl in Hfuel; lia|]).
  - discriminate.
  - cbn [forallb] in Hok. apply andb_true_iff in Hok as (Hoke & Hok).
    unfold known_types in Hkn. cbn [forallb] in Hkn.
    cbn [entries_at] in Hat. pose proof Hat as (Hdev & Hat').
    inversion Hpos as [|? ? Hpe Hpos']; subst.
    cbn [total_rec_len fold_right] in Hsum. fold (total_rec_len ents) in Hsum.
    pose proof (total_rec_len_nonneg ents Hpos') as Hnn.
    destruct (ft_lookup_step dev sb fuel blk_off o buf e) as
      (dir_ent & Hstep); [lia|lia|exact Hoke|exact Hdev|].
    rewrite Hstep.
    destruct (d_file_type e <? EXT2_FT_MAX) eqn:Hke.
    + apply Z.ltb_lt in Hke. cbn [andb] in Hkn.
      destruct (ft_to_str_at_in_bounds (d_file_type e)) as (ft & Eft).
      { pose proof (dirent_ok_inv e Hoke). lia. }
      rewrite Eft. unfold u32. rewrite Z.mod_small by lia.
      rewrite (IH fuel (o + d_rec_len e) dir_ent); try assumption; try lia.
      * reflexivity.
      * simpl in Hfuel. lia.
      * now rewrite Z.add_assoc.
    + apply Z.ltb_ge in Hke.
      now rewrite (ft_to_str_at_out_of_bounds _ Hke).
Qed.

End Scans.

Lemma reads_of_map_Read (f : Z -> Z) size os :
  reads_of (map (fun c => Read (f c) size) os) = map (fun c => (f c, size)) os.
Proof. induction os as [|o os IH]; simpl; [reflexivity|now rewrite <- IH]. Qed.

Lemma reads_of_print_dir_events blk_off ents :
  forall o,
    reads_of (print_dir_events blk_off o ents)
    = entry_reads blk_off (entry_offsets o ents).
Proof.
  induction ents as [|e ents IH]; intros o; [reflexivity|].
  cbn [print_dir_events entry_offsets]. unfold entry_reads in *.
  cbn [reads_of flat_map app map]. f_equal. apply IH.
Qed.

Lemma search_offsets_prefix nxt_arg ents :
  forall o, exists k,
    search_offsets nxt_arg o ents = firstn k (entry_offsets o ents).
Proof.
  induction ents as [|e ents IH]; intros o.
  - now exists 0%nat.
  - cbn [search_offsets entry_offsets].
    destruct (name_agrees nxt_arg e).
    + exists 1%nat. reflexivity.
    + destruct (IH (o + d_rec_len e)) as (k & Hk).
      exists (S k). cbn [firstn]. now rewrite Hk.
Qed.

Lemma search_offsets_no_hit nxt_arg ents :
  existsb (name_agrees nxt_arg) ents = false ->
  forall o, search_offsets nxt_arg o ents = entry_offsets o ents.
Proof.
  induction ents as [|e ents IH]; intros H o; [reflexivity|].
  cbn [existsb] in H. apply orb_false_iff in H as (He & H).
  cbn [search_offsets entry_offsets]. rewrite He. f_equal. now apply IH.
Qed.

Lemma entry_offsets_range ents :
  Forall (fun e => 0 < d_rec_len e) ents ->
  forall o x, In x (entry_offsets o ents) -> o <= x < o + total_rec_len ents.
Proof.
  induction 1 as [|e ents He Hpos IH]; intros o x Hin; [destruct Hin|].
  cbn [total_rec_len fold_right]. fold (total_rec_len ents).
  pose proof (total_rec_len_nonneg ents Hpos).
  cbn [entry_offsets] in Hin. destruct Hin as [<-|Hin]; [lia|].
  apply IH in Hin. lia.
Qed.

Lemma valid_block_size_bounds sb :
  valid_block_size sb -> 1024 <= EXT2_BLOCK_SIZE sb <= 4096.
Proof. unfold valid_block_size. lia. Qed.

(** C6, as the code has it.  On a directory data block whose entries have
    positive [rec_len]s that sum to the block size, neither entry scan runs
    on for ever: with [length ents + 1] evaluations of the loop condition
    allowed, each either returns or has no defined behaviour.  The printer
    returns when every file type is in the table; it then reads an entry at
    exactly the offsets of the entries, all below the block size, and
    leaves the loop when the cursor is the block size.  With a file type
    outside the table its behaviour is undefined.  The lookup returns when
    every name it compares fits in the object that holds the argument
    ([name_len <= strlen + 1]); it then reads at the offsets of the entries
    in order and stops at the first entry whose name agrees with the
    argument, where it returns; when no name agrees it reads at all of them
    and leaves the loop at the block size as well.  When a name it
    compares is longer, [memcmp] reads past the end of the argument and the
    behaviour is undefined. *)
Theorem dir_scans_follow_entries :
  forall dev sb blk_addr ents nxt_arg fuel,
    valid_block_size sb ->
    0 <= blk_addr < 2 ^ 32 ->
    dir_block dev sb blk_addr ents ->
    (length ents < fuel)%nat ->
    let blk_off := blk_addr * EXT2_BLOCK_SIZE sb in
    (known_types ents = true ->
     exists tr,
       _ext2_dir_print_dir dev sb fuel blk_addr = Ret tt tr /\
       reads_of tr = entry_reads blk_off (entry_offsets 0 ents)) /\
    (known_types ents = false ->
     _ext2_dir_print_dir dev sb fuel blk_addr = Undef) /\
    (names_fit nxt_arg ents = true ->
     exists tr,
       _ext2_dir_search dev sb fuel blk_addr nxt_arg
       = Ret (search_result nxt_arg ents) tr /\
       reads_of tr = entry_reads blk_off (search_offsets nxt_arg 0 ents)) /\
    (names_fit nxt_arg ents = false ->
     _ext2_dir_search dev sb fuel blk_addr nxt_arg = Undef) /\
    (exists k, search_offsets nxt_arg 0 ents = firstn k (entry_offsets 0 ents)) /\
    (existsb (name_agrees nxt_arg) ents = false ->
     search_offsets nxt_arg 0 ents = entry_offsets 0 ents) /\
    (forall o, In o (entry_offsets 0 ents) -> 0 <= o < EXT2_BLOCK_SIZE sb) /\
    total_rec_len ents = EXT2_BLOCK_SIZE sb.
Proof.
  intros dev sb blk_addr ents nxt_arg fuel Hbs Hblk (Hok & Hat & Hpos & Hsum)
    Hfuel blk_off.
  apply valid_block_size_bounds in Hbs.
  assert (Hoff : u64 (blk_addr * EXT2_BLOCK_SIZE sb) = blk_off).
  { unfold u64, blk_off. apply Z.mod_small. nia. }
  assert (H0 : 0 <= blk_off) by (unfold blk_off; nia).
  assert (H1 : blk_off + EXT2_BLOCK_SIZE sb <= 2 ^ 63) by (unfold blk_off; nia).
  assert (H2 : EXT2_BLOCK_SIZE sb < 2 ^ 32) by lia.
  assert (Hat0 : entries_at dev (blk_off + 0) ents) by now rewrite Z.add_0_r.
  split; [|split; [|split; [|split; [|split; [|split; [|split]]]]]].
  - intros Hkn. exists (print_dir_events blk_off 0 ents). split.
    + unfold _ext2_dir_print_dir. rewrite Hoff.
      apply print_dir_loop_spec; try assumption; try lia.
    + apply reads_of_print_dir_events.
  - intros Hkn. unfold _ext2_dir_print_dir. rewrite Hoff.
    apply (print_dir_loop_unknown dev sb blk_off H0 H1 H2 ents);
      try assumption; try lia.
  - intros Hfit.
    exists (Leaf blk_addr
            :: map (fun c => Read (blk_off + c) EXT2_DIR_ENTRY_SIZE)
                 (search_offsets nxt_arg 0 ents)).
    split.
    + unfold _ext2_dir_search. rewrite Hoff.
      rewrite (dir_search_loop_spec dev sb blk_off H0 H1 H2 nxt_arg ents fuel 0);
        try assumption; try lia.
      unfold emit. rewrite bind_Ret. reflexivity.
    + cbn [app reads_of flat_map]. apply reads_of_map_Read.
  - intros Hfit. unfold _ext2_dir_search. rewrite Hoff.
    rewrite (dir_search_loop_overread dev sb blk_off H0 H1 H2 nxt_arg ents
               fuel 0); try assumption; try lia.
    reflexivity.
  - apply search_offsets_prefix.
  - intros H. now apply search_offsets_no_hit.
  - intros o H. apply (entry_offsets_range ents Hpos) in H. lia.
  - exact Hsum.
Qed.

Lemma sample_root_dir_block :
  dir_block Sample.image Sample.sb 3 Sample.root_entries.
Proof.
  split; [reflexivity|]. split; [vm_compute; repeat split|].
  split; [repeat constructor|reflexivity].
Qed.

Lemma dir_scans_follow_entries_witness :
  dir_block Sample.image Sample.sb 3 Sample.root_entries /\
  (exists tr,
     _ext2_dir_print_dir Sample.image Sample.sb 4 3 = Ret tt tr /\
     reads_of tr = [(6144, 264); (6156, 264); (6168, 264)]) /\
  (exists tr,
     _ext2_dir_search Sample.image Sample.sb 4 3 (Sample.str "hello.txt")
     = Ret 12 tr /\
     reads_of tr = [(6144, 264); (6156, 264); (6168, 264)]).
Proof.
  assert (Hb : dir_block Sample.image Sample.sb 3 Sample.root_entries).
  { split; [reflexivity|]. split; [vm_compute; repeat split|].
    split; [repeat constructor|reflexivity]. }
  assert (Hv : valid_block_size Sample.sb) by (right; left; reflexivity).
  assert (Hr : 0 <= 3 < 2 ^ 32) by lia.
  assert (Hf : (length Sample.root_entries < 4)%nat) by (simpl; lia).
  pose proof (dir_scans_follow_entries Sample.image Sample.sb 3
                Sample.root_entries (Sample.str "hello.txt") 4 Hv Hr Hb Hf)
    as (Hp & _ & Hs & _).
  split; [exact Hb|]. split; [exact (Hp eq_refl)|exact (Hs eq_refl)].
Defined.

(** On the root directory of the sample volume the lookup of ["."] returns
    at the first entry: its cursor takes offset 0 only, not the offsets 0,
    12 and 24 of the three entries, and never reaches the block size.  The
    lookup of ["missing"] compares 9 bytes at the entry "hello.txt" while
    the argument's object has 8: it has no defined behaviour.  On a block
    that satisfies the invariant and has an entry of file type 9, the
    printer's scan has no defined behaviour. *)
Lemma lookup_scan_returns_at_hit :
  dir_block Sample.image Sample.sb 3 Sample.root_entries /\
  entry_offsets 0 Sample.root_entries = [0; 12; 24] /\
  _ext2_dir_search Sample.image Sample.sb 10 3 (Sample.str ".")
  = Ret 2 [Leaf 3; Read (6144 + 0) 264] /\
  _ext2_dir_search Sample.image Sample.sb 10 3 (Sample.str "missing")
  = Undef /\
  Sample.sb_of Sample.image_odd = Sample.sb /\
  dir_block Sample.image_odd Sample.sb 3 Sample.odd_entries /\
  _ext2_dir_print_dir Sample.image_odd Sample.sb 10 3 = Undef.
Proof.
  split; [exact sample_root_dir_block|].
  split; [reflexivity|]. split; [vm_compute; reflexivity|].
  split; [vm_compute; reflexivity|].
  split; [vm_compute; reflexivity|].
  split; [|vm_compute; reflexivity].
  split; [reflexivity|]. split; [vm_compute; repeat split|].
  split; [repeat constructor|reflexivity].
Qed.

(** C1, at two directory blocks.  On the root directory of the sample
    volume (entries ".", ".." and "hello.txt") the scan for
    "hello.txt.bak" returns inode 12 at the entry "hello.txt", whose
    [name_len] is 9 and not 13: only the entry's [name_len] bytes are
    compared.  So [/hello.txt.bak], which does not exist, resolves to the
    inode of [/hello.txt], and [/.hidden] to the root directory.  On a
    block whose first entry is unused (inode 0) and still named "old",
    followed by the entry of the file "old" (inode 13), the scan returns 0
    at the unused entry instead of skipping it, and [/old] is not found. *)
Theorem dir_search_compares_name_len_bytes_only :
  dir_block Sample.image Sample.sb 3 Sample.root_entries /\
  _ext2_dir_search Sample.image Sample.sb 10 3 (Sample.str "hello.txt.bak")
  = Ret 12 [Leaf 3; Read 6144 264; Read 6156 264; Read 6168 264] /\
  ext2_path_to_ino Sample.image Sample.sb 10 (Sample.str "/hello.txt.bak")
  = Ret 12 [Read 2048 32; Read 4224 128; Leaf 3; Read 6144 264;
            Read 6156 264; Read 6168 264] /\
  ext2_path_to_ino Sample.image Sample.sb 10 (Sample.str "/.hidden")
  = Ret 2 [Read 2048 32; Read 4224 128; Leaf 3; Read 6144 264] /\
  Sample.sb_of Sample.image_reused = Sample.sb /\
  dir_block Sample.image_reused Sample.sb 3 Sample.reused_entries /\
  _ext2_dir_search Sample.image_reused Sample.sb 10 3 (Sample.str "old")
  = Ret 0 [Leaf 3; Read 6144 264] /\
  ext2_path_to_ino Sample.image_reused Sample.sb 10 (Sample.str "/old")
  = Exit "File search failed".
Proof.
  split; [exact sample_root_dir_block|].
  do 4 (split; [vm_compute; reflexivity|]).
  split; [|split; vm_compute; reflexivity].
  split; [reflexivity|]. split; [vm_compute; repeat split|].
  split; [repeat constructor|reflexivity].
Qed.

(** ** Tokens and path components *)

Lemma in_set_slash c : in_set slash c = Byte.eqb c "/"%byte.
Proof. unfold in_set, slash. cbn [existsb]. apply orb_false_r. Qed.

Lemma split_path_not_nil s : split_path s <> [].
Proof.
  destruct s as [|c s]; cbn [split_path]; [discriminate|].
  destruct (Byte.eqb c x00); [discriminate|].
  destruct (Byte.eqb c "/"%byte); [discriminate|].
  destruct (split_path s); discriminate.
Qed.

(** The first component runs up to the first ['/'] or NUL. *)
Lemma split_path_strcspn s :
  split_path s
  = firstn (strcspn s slash) s ::
    match skipn (strcspn s slash) s with
    | [] => []
    | e :: r => if Byte.eqb e x00 then [] else split_path r
    end.
Proof.
  induction s as [|c s IH]; [reflexivity|].
  cbn [split_path strcspn]. rewrite in_set_slash.
  destruct (Byte.eqb c x00) eqn:E0; cbn [orb].
  - cbn [firstn skipn]. now rewrite E0.
  - destruct (Byte.eqb c "/"%byte) eqn:E1.
    + cbn [firstn skipn]. now rewrite E0.
    + rewrite IH at 1. reflexivity.
Qed.

Lemma strtok_r_skips_slash c s :
  Byte.eqb c x00 = false -> Byte.eqb c "/"%byte = true ->
  strtok_r (c :: s) slash = strtok_r s slash.
Proof.
  intros E0 E1. unfold strtok_r. cbn [strspn].
  rewrite in_set_slash, E0, E1. reflexivity.
Qed.

(** One call of [strtok_r] takes the first non-empty component. *)
Lemma strtok_r_components s :
  match strtok_r s slash with
  | None => components s = []
  | Some (tok, s') =>
      components s = tok :: components s' /\ (length s' < length s)%nat
  end.
Proof.
  induction s as [|c s IH]; [reflexivity|].
  destruct (Byte.eqb c x00) eqn:E0.
  - unfold strtok_r, components. cbn [strspn split_path].
    rewrite E0. cbn [negb andb skipn]. now rewrite E0.
  - destruct (Byte.eqb c "/"%byte) eqn:E1.
    + rewrite (strtok_r_skips_slash c s E0 E1).
      assert (Hc : components (c :: s) = components s).
      { unfold components. cbn [split_path]. now rewrite E0, E1. }
      rewrite Hc.
      destruct (strtok_r s slash) as [[tok s']|]; [|exact IH].
      destruct IH as [IH1 IH2]. split; [exact IH1|simpl; lia].
    + clear IH. unfold strtok_r. cbn [strspn]. rewrite in_set_slash, E0, E1.
      cbn [negb andb skipn]. rewrite E0.
      cbn [strcspn]. rewrite in_set_slash, E0, E1. cbn [orb firstn skipn].
      unfold components at 1 2. cbn [split_path]. rewrite E0, E1.
      rewrite (split_path_strcspn s). cbn [cons_hd filter nonempty].
      pose proof (length_skipn (strcspn s slash) s) as Hlen.
      destruct (skipn (strcspn s slash) s) as [|e r].
      * split; [reflexivity|simpl; lia].
      * cbn [length] in Hlen.
        destruct (Byte.eqb e x00) eqn:Ee.
        -- split; [|simpl; lia].
           unfold components. cbn [split_path]. now rewrite Ee.
        -- split; [reflexivity|simpl; lia].
Qed.

(** [get_toks_loop] with enough iterations stores the components after
    those it holds already, unless they do not fit in the array. *)
Lemma get_toks_loop_spec n :
  forall arg toks,
    (length arg < n)%nat ->
    Z.of_nat (length toks) <= MAX_PATH_TOKS ->
    get_toks_loop n arg slash toks
    = if Z.of_nat (length (toks ++ components arg)) <=? MAX_PATH_TOKS
      then Ret (toks ++ components arg) []
      else Undef.
Proof.
  induction n as [|n IH]; intros arg toks Hn Htoks; [lia|].
  cbn [get_toks_loop].
  pose proof (strtok_r_components arg) as Hs.
  destruct (strtok_r arg slash) as [[tok arg']|].
  - destruct Hs as [Hc Hlen]. rewrite Hc.
    destruct (MAX_PATH_TOKS <=? Z.of_nat (length toks)) eqn:E.
    + apply Z.leb_le in E.
      replace (_ <=? MAX_PATH_TOKS) with false; [reflexivity|].
      symmetry. apply Z.leb_gt. rewrite length_app. simpl. lia.
    + apply Z.leb_gt in E. rewrite IH.
      * now rewrite <- app_assoc.
      * lia.
      * rewrite length_app. simpl. lia.
  - rewrite Hs, app_nil_r.
    replace (_ <=? MAX_PATH_TOKS) with true; [reflexivity|].
    symmetry. now apply Z.leb_le.
Qed.

(** [_get_toks] is total: it never runs out of iterations. *)
Lemma get_toks_total path :
  _get_toks path slash
  = if Z.of_nat (length (components path)) <=? MAX_PATH_TOKS
    then Ret (components path) []
    else Undef.
Proof.
  unfold _get_toks. rewrite get_toks_loop_spec; [reflexivity|lia|].
  unfold MAX_PATH_TOKS. simpl. lia.
Qed.

Lemma same_split_components x1 x2 :
  same_split x1 x2 -> components x1 = components x2.
Proof.
  unfold same_split, components. intros [Hh Ht].
  pose proof (split_path_not_nil x1). pose proof (split_path_not_nil x2).
  destruct (split_path x1) as [|h1 t1]; [contradiction|].
  destruct (split_path x2) as [|h2 t2]; [contradiction|].
  cbn [hd tl] in *. cbn [filter]. now rewrite Hh, Ht.
Qed.

Lemma same_split_cons c x1 x2 :
  same_split x1 x2 -> same_split (c :: x1) (c :: x2).
Proof.
  unfold same_split. intros [Hh Ht]. cbn [split_path].
  destruct (Byte.eqb c x00); [split; reflexivity|].
  pose proof (split_path_not_nil x1). pose proof (split_path_not_nil x2).
  destruct (split_path x1) as [|h1 t1]; [contradiction|].
  destruct (split_path x2) as [|h2 t2]; [contradiction|].
  cbn [hd tl] in *.
  destruct (Byte.eqb c "/"%byte); cbn [cons_hd hd tl filter].
  - split; [reflexivity|]. now rewrite Hh, Ht.
  - split; [now rewrite Hh|exact Ht].
Qed.

Lemma same_split_app p x1 x2 :
  same_split x1 x2 -> same_split (p ++ x1) (p ++ x2).
Proof.
  intros H. induction p as [|c p IH]; [exact H|].
  cbn [app]. now apply same_split_cons.
Qed.

Lemma components_leading_slash p : components (slash ++ p) = components p.
Proof. reflexivity. Qed.

Lemma components_trailing_slash p : components (p ++ slash) = components p.
Proof.
  apply same_split_components.
  rewrite <- (app_nil_r p) at 2. apply same_split_app.
  split; reflexivity.
Qed.

Lemma components_repeated_slash p q :
  components (p ++ slash ++ slash ++ q) = components (p ++ slash ++ q).
Proof.
  apply same_split_components, same_split_app.
  unfold same_split, slash. cbn [app split_path].
  change (Byte.eqb "/"%byte x00) with false.
  change (Byte.eqb "/"%byte "/"%byte) with true.
  cbn [hd tl filter nonempty]. split; reflexivity.
Qed.

(** C8.  The tokens of a path are the non-empty components of its split on
    ['/'] (at most [MAX_PATH_TOKS] of them fit in the array), so the
    resolution of a path depends on these components only: two paths with
    the same non-empty components have the same resolution, and a leading,
    a trailing or a repeated slash does not change the components.  A path
    without a non-empty component, such as ["/"] or [""], resolves to the
    root inode number 2 without a single read of the device. *)
Theorem resolve_ignores_extra_slashes :
  forall dev sb fuel p q,
    components p = components q ->
    ext2_path_to_ino dev sb fuel p = ext2_path_to_ino dev sb fuel q /\
    (_get_toks p slash = Ret (components p) [] \/
     (MAX_PATH_TOKS < Z.of_nat (length (components p)) /\
      _get_toks p slash = Undef)) /\
    components (slash ++ p) = components p /\
    components (p ++ slash) = components p /\
    (forall r, components (p ++ slash ++ slash ++ r)
               = components (p ++ slash ++ r)) /\
    (components p = [] ->
     ext2_path_to_ino dev sb fuel p = Ret EXT2_ROOT_INO []) /\
    ext2_path_to_ino dev sb fuel (Sample.str "/") = Ret 2 [] /\
    ext2_path_to_ino dev sb fuel (Sample.str "") = Ret 2 [].
Proof.
  intros dev sb fuel p q Hpq.
  split; [|split; [|split; [|split; [|split; [|split; [|split]]]]]].
  - unfold ext2_path_to_ino. now rewrite !get_toks_total, Hpq.
  - rewrite get_toks_total.
    destruct (_ <=? MAX_PATH_TOKS) eqn:E; [now left|right].
    apply Z.leb_gt in E. now split.
  - apply components_leading_slash.
  - apply components_trailing_slash.
  - intros r. apply components_repeated_slash.
  - intros Hnil. unfold ext2_path_to_ino.
    rewrite get_toks_total, Hnil. reflexivity.
  - reflexivity.
  - reflexivity.
Qed.

Lemma resolve_ignores_extra_slashes_witness :
  components (Sample.str "//hello.txt/") = components (Sample.str "/hello.txt") /\
  ext2_path_to_ino Sample.image Sample.sb 10 (Sample.str "//hello.txt/")
  = ext2_path_to_ino Sample.image Sample.sb 10 (Sample.str "/hello.txt").
Proof.
  split; [reflexivity|].
  exact (proj1 (resolve_ignores_extra_slashes Sample.image Sample.sb 10
                  (Sample.str "//hello.txt/") (Sample.str "/hello.txt")
                  eq_refl)).
Defined.

(** ** Traces of the block enumerator *)

Lemma bind_ext {A B : Type} (m : outcome A) (k1 k2 : A -> outcome B) :
  (forall a, k1 a = k2 a) -> bind m k1 = bind m k2.
Proof. intros H. destruct m; simpl; [now rewrite H|reflexivity..]. Qed.

Lemma bind_not_Timeout {A B : Type} (m : outcome A) (k : A -> outcome B) :
  m <> Timeout -> (forall a, k a <> Timeout) -> bind m k <> Timeout.
Proof.
  intros Hm Hk. destruct m as [a t| | |]; simpl; try discriminate.
  - specialize (Hk a). destruct (k a); try discriminate. contradiction.
  - contradiction.
Qed.

Lemma defined_not_Timeout {A : Type} (o : option A) : defined o <> Timeout.
Proof. destruct o; discriminate. Qed.

Lemma ext2_read_not_Timeout dev offset buff size :
  _ext2_read dev offset buff size <> Timeout.
Proof. unfold _ext2_read. destruct (2 ^ 63 <=? offset); discriminate. Qed.

(** A property of traces that the enumeration of an inode's blocks
    preserves: it holds of the reads, is kept by concatenation, and holds
    of what the routine for direct blocks does. *)
Section PrintInvariant.

Variables dev sb : list byte.
Variable fuel : nat.
Variable file_type : Z.
Variable P : list event -> Prop.
Hypothesis P_nil : P [].
Hypothesis P_read : forall o s, P [Read o s].
Hypothesis P_app : forall t1 t2, P t1 -> P t2 -> P (t1 ++ t2).
Hypothesis P_leaf :
  forall a tr, _ext2_dir_print dev sb fuel a file_type = Ret tt tr -> P tr.

Lemma indir_print_loop_inv print blk_off :
  (forall a tr, print a = Ret tt tr -> P tr) ->
  forall n i buf tr,
    indir_print_loop dev print blk_off n i buf = Ret tt tr -> P tr.
Proof.
  intros Hprint. induction n as [|n IH]; intros i buf tr H;
    cbn [indir_print_loop] in H.
  - inv_ret. now subst.
  - inv_ret. apply ext2_read_Ret_inv in Hm as (_ & _ & ->). subst.
    apply P_app; [apply P_read|]. cbn [app].
    destruct (a0 =? 0).
    + inv_ret. now subst.
    + inv_ret. subst. destruct a1. apply P_app; eauto.
Qed.

Lemma indir_print_below_inv :
  forall below blk_addr tr,
    indir_print_below dev sb below fuel blk_addr file_type = Ret tt tr -> P tr.
Proof.
  induction below as [|below IH]; intros blk_addr tr H;
    cbn [indir_print_below] in H;
    eapply indir_print_loop_inv; try exact H; eauto.
Qed.

Lemma print_ino_data_loop_inv ino_st :
  forall n i tr,
    print_ino_data_loop dev sb fuel ino_st file_type n i = Ret tt tr -> P tr.
Proof.
  induction n as [|n IH]; intros i tr H; cbn [print_ino_data_loop] in H.
  - inv_ret. now subst.
  - inv_ret. subst. cbn [app]. destruct (a =? 0).
    + inv_ret. now subst.
    + inv_ret. subst. apply P_app; [|eauto].
      unfold _ext2_indir_print in Hm.
      match goal with u : unit |- _ => destruct u end.
      destruct (i <? EXT2_NDIR_BLOCKS); [now eauto|].
      destruct (i =? EXT2_IND_BLOCK); [eapply indir_print_below_inv; eauto|].
      destruct (i =? EXT2_DIND_BLOCK); [eapply indir_print_below_inv; eauto|].
      destruct (i =? EXT2_TIND_BLOCK); [eapply indir_print_below_inv; eauto|].
      inv_ret. now subst.
Qed.

End PrintInvariant.

(** The loops of the two routines for direct blocks log no [Leaf]. *)
Lemma print_reg_file_loop_chars dev :
  forall n blk_off i data tr,
    print_reg_file_loop dev n blk_off i data = Ret tt tr ->
    length (chars_of tr) = n /\ leaves_of tr = [].
Proof.
  induction n as [|n IH]; intros blk_off i data tr H;
    cbn [print_reg_file_loop] in H.
  - inv_ret. subst. now split.
  - inv_ret. apply ext2_read_Ret_inv in Hm as (_ & _ & ->). subst.
    match goal with
    | Hl : print_reg_file_loop _ _ _ _ _ = Ret _ _ |- _ =>
        destruct (IH _ _ _ _ Hl) as [Hc Hl']
    end.
    rewrite !chars_of_app, !leaves_of_app, Hl'. cbn. rewrite Hc. now split.
Qed.

Lemma print_dir_loop_leaves dev sb :
  forall fuel blk_off i dir_ent tr,
    print_dir_loop dev sb fuel blk_off i dir_ent = Ret tt tr ->
    leaves_of tr = [] /\ chars_of tr = [].
Proof.
  induction fuel as [|fuel IH]; intros blk_off i dir_ent tr H;
    cbn [print_dir_loop] in H; [discriminate|].
  destruct (i <? EXT2_BLOCK_SIZE sb).
  - inv_ret. apply ext2_read_Ret_inv in Hm as (_ & _ & ->). subst.
    match goal with
    | Hl : print_dir_loop _ _ _ _ _ _ = Ret _ _ |- _ =>
        destruct (IH _ _ _ _ Hl) as [Hl' Hc]
    end.
    rewrite !leaves_of_app, !chars_of_app, Hl', Hc. now split.
  - inv_ret. subst. now split.
Qed.

Lemma dir_search_loop_leaves dev sb nxt_arg blk_off :
  forall fuel i dir_ent r tr,
    dir_search_loop dev sb fuel blk_off nxt_arg i dir_ent = Ret r tr ->
    leaves_of tr = [].
Proof.
  induction fuel as [|fuel IH]; intros i dir_ent r tr H;
    cbn [dir_search_loop] in H; [discriminate|].
  destruct (i <? EXT2_BLOCK_SIZE sb).
  - inv_ret. apply ext2_read_Ret_inv in Hm as (_ & _ & ->). subst.
    cbn [app leaves_of flat_map]. destruct (a1 =? 0).
    + inv_ret. now subst.
    + inv_ret. subst. cbn [app]. eauto.
  - inv_ret. now subst.
Qed.

(** Each call of a routine for direct blocks is one leaf. *)
Lemma dir_print_leaves dev sb fuel a file_type tr :
  _ext2_dir_print dev sb fuel a file_type = Ret tt tr -> leaves_of tr = [a].
Proof.
  unfold _ext2_dir_print. intros H. inv_ret. subst.
  cbn [app leaves_of flat_map]. f_equal.
  destruct (file_type =? EXT2_FT_REG_FILE).
  - unfold _ext2_dir_print_reg_file in Hk.
    now apply print_reg_file_loop_chars in Hk.
  - destruct (file_type =? EXT2_FT_DIR).
    + unfold _ext2_dir_print_dir in Hk.
      now apply print_dir_loop_leaves in Hk.
    + inv_ret. now subst.
Qed.

Lemma dir_search_leaves dev sb fuel a nxt_arg r tr :
  _ext2_dir_search dev sb fuel a nxt_arg = Ret r tr -> leaves_of tr = [a].
Proof.
  unfold _ext2_dir_search. intros H. inv_ret. subst.
  cbn [app leaves_of flat_map]. f_equal.
  eapply dir_search_loop_leaves; eauto.
Qed.

(** ** The regular-file printer *)

Lemma dev_read_S dev o n :
  in_device dev o (Z.of_nat (S n)) ->
  exists b,
    dev_read dev o 1 = [b] /\
    dev_read dev o (Z.of_nat (S n)) = b :: dev_read dev (o + 1) (Z.of_nat n).
Proof.
  intros (Ho & _ & Hlen & _). unfold dev_read.
  rewrite !Nat2Z.id. change (Z.to_nat 1) with 1%nat.
  replace (Z.to_nat (o + 1)) with (1 + Z.to_nat o)%nat by lia.
  rewrite <- skipn_skipn.
  pose proof (length_skipn (Z.to_nat o) dev) as Hl.
  destruct (skipn (Z.to_nat o) dev) as [|b X]; [simpl in Hl; lia|].
  exists b. split; reflexivity.
Qed.

(** On a block that is on the device the loop returns, having printed the
    block's bytes in order. *)
Lemma print_reg_file_loop_bytes dev :
  forall n blk_off i data,
    in_device dev (blk_off + i) (Z.of_nat n) ->
    exists tr,
      print_reg_file_loop dev n blk_off i data = Ret tt tr /\
      chars_of tr = map Some (dev_read dev (blk_off + i) (Z.of_nat n)).
Proof.
  induction n as [|n IH]; intros blk_off i data Hin.
  - exists []. split; [reflexivity|].
    unfold dev_read. now rewrite firstn_0.
  - destruct (dev_read_S dev _ n Hin) as (b & Hb1 & HbS).
    pose proof Hin as (Ho & _ & Hlen & Hmax).
    destruct (IH blk_off (i + 1) (overwrite data [Some b])) as (tr & Htr & Hc).
    { unfold in_device in *. lia. }
    exists ([Read (blk_off + i) 1] ++ [PutChar (Some b)] ++ tr).
    cbn [print_reg_file_loop]. unfold u64. rewrite Z.mod_small by lia.
    rewrite ext2_read_ok by lia. rewrite Hb1. cbn [map].
    rewrite bind_Ret. unfold emit. rewrite bind_Ret.
    change (nth 0 (overwrite data [Some b]) None) with (Some b).
    rewrite Htr. split; [reflexivity|].
    rewrite HbS. cbn [map]. rewrite !chars_of_app. cbn. rewrite Hc.
    now rewrite Z.add_assoc.
Qed.

Lemma print_reg_file_loop_not_Timeout dev :
  forall n blk_off i data,
    print_reg_file_loop dev n blk_off i data <> Timeout.
Proof.
  induction n as [|n IH]; intros blk_off i data;
    cbn [print_reg_file_loop]; [discriminate|].
  apply bind_not_Timeout; [apply ext2_read_not_Timeout|]. intros d.
  apply bind_not_Timeout; [discriminate|]. intros _. apply IH.
Qed.

Lemma dir_print_reg_not_Timeout dev sb fuel a :
  _ext2_dir_print dev sb fuel a EXT2_FT_REG_FILE <> Timeout.
Proof.
  unfold _ext2_dir_print.
  apply bind_not_Timeout; [discriminate|]. intros _.
  change (EXT2_FT_REG_FILE =? EXT2_FT_REG_FILE) with true. cbv iota.
  apply print_reg_file_loop_not_Timeout.
Qed.

Lemma indir_print_loop_not_Timeout dev print blk_off :
  (forall a, print a <> Timeout) ->
  forall n i buf, indir_print_loop dev print blk_off n i buf <> Timeout.
Proof.
  intros Hp. induction n as [|n IH]; intros i buf;
    cbn [indir_print_loop]; [discriminate|].
  apply bind_not_Timeout; [apply ext2_read_not_Timeout|]. intros d.
  apply bind_not_Timeout; [apply defined_not_Timeout|]. intros a.
  destruct (a =? 0); [discriminate|].
  apply bind_not_Timeout; [apply Hp|]. intros _. apply IH.
Qed.

Lemma indir_print_below_reg_not_Timeout dev sb fuel :
  forall below blk_addr,
    indir_print_below dev sb below fuel blk_addr EXT2_FT_REG_FILE <> Timeout.
Proof.
  induction below as [|below IH]; intros blk_addr; cbn [indir_print_below];
    apply indir_print_loop_not_Timeout; intros a;
    [apply dir_print_reg_not_Timeout|apply IH].
Qed.

Lemma print_ino_data_loop_reg_not_Timeout dev sb fuel ino_st :
  forall n i,
    print_ino_data_loop dev sb fuel ino_st EXT2_FT_REG_FILE n i <> Timeout.
Proof.
  induction n as [|n IH]; intros i; cbn [print_ino_data_loop];
    [discriminate|].
  apply bind_not_Timeout; [apply defined_not_Timeout|]. intros a.
  destruct (a =? 0); [discriminate|].
  apply bind_not_Timeout; [|intros _; apply IH].
  unfold _ext2_indir_print.
  destruct (i <? EXT2_NDIR_BLOCKS); [apply dir_print_reg_not_Timeout|].
  destruct (i =? EXT2_IND_BLOCK); [apply indir_print_below_reg_not_Timeout|].
  destruct (i =? EXT2_DIND_BLOCK); [apply indir_print_below_reg_not_Timeout|].
  destruct (i =? EXT2_TIND_BLOCK); [apply indir_print_below_reg_not_Timeout|].
  discriminate.
Qed.

(** For a regular file the printer runs the enumeration with the file type
    [EXT2_FT_REG_FILE]. *)
Lemma print_ino_data_regular dev sb fuel ino :
  is_regular dev sb ino ->
  exists ino_st t,
    _ext2_ino_to_ino_st dev sb ino (uninit sizeof_ext2_inode) = Ret ino_st t /\
    _ext2_print_ino_data dev sb fuel ino
    = (Ret tt t ;;;
       print_ino_data_loop dev sb fuel ino_st EXT2_FT_REG_FILE
         (Z.to_nat EXT2_N_BLOCKS) 0).
Proof.
  intros (ino_st & t & mode & Hld & Hmode & Hreg).
  exists ino_st, t. split; [exact Hld|].
  unfold _ext2_print_ino_data. rewrite Hld, !bind_Ret, Hmode.
  cbn [defined]. rewrite bind_ret, Hreg, bind_ret. reflexivity.
Qed.

Lemma dir_print_reg_chars dev sb fuel a tr :
  _ext2_dir_print dev sb fuel a EXT2_FT_REG_FILE = Ret tt tr ->
  length (chars_of tr) = Z.to_nat (EXT2_BLOCK_SIZE sb) /\
  (block_in_device dev sb a ->
   chars_of tr = map Some (block_bytes dev sb a)).
Proof.
  unfold _ext2_dir_print. intros H.
  change (EXT2_FT_REG_FILE =? EXT2_FT_REG_FILE) with true in H.
  cbv iota in H. unfold _ext2_dir_print_reg_file in H.
  apply bind_Ret_inv in H as (u & t1 & t2 & Hm & Hk & ->).
  unfold emit in Hm. inversion Hm; subst. clear Hm.
  rewrite chars_of_app. change (chars_of [Leaf a]) with (@nil mbyte).
  cbn [app]. split.
  - now apply print_reg_file_loop_chars in Hk.
  - intros Hin. unfold block_in_device in Hin.
    pose proof Hin as (Ho & Hs & _ & Hmax).
    pose proof (block_size_nonneg sb).
    unfold u64 in Hk. rewrite Z.mod_small in Hk by lia.
    destruct (print_reg_file_loop_bytes dev (Z.to_nat (EXT2_BLOCK_SIZE sb))
                (a * EXT2_BLOCK_SIZE sb) 0 (uninit 1)) as (tr' & Htr' & Hc).
    { rewrite Z.add_0_r, Z2Nat.id by lia. exact Hin. }
    rewrite Hk in Htr'. inversion Htr'; subst tr'.
    rewrite Hc, Z.add_0_r, Z2Nat.id by lia. reflexivity.
Qed.

(** The enumeration looks at an inode through [i_block] only. *)
Lemma print_ino_data_loop_uses_i_block dev sb fuel file_type ino_st ino_st' :
  (forall j, i_block ino_st j = i_block ino_st' j) ->
  forall n i,
    print_ino_data_loop dev sb fuel ino_st file_type n i
    = print_ino_data_loop dev sb fuel ino_st' file_type n i.
Proof.
  intros Hblk. induction n as [|n IH]; intros i; [reflexivity|].
  cbn [print_ino_data_loop]. rewrite (Hblk i).
  apply bind_ext. intros a. destruct (a =? 0); [reflexivity|].
  apply bind_ext. intros _. apply IH.
Qed.

(** C7.  For every regular file, the data printer emits for each
    enumerated data block exactly [block_size] bytes, in enumeration order:
    the length of its output is [block_size] times the number of
    enumerated blocks, and the output is the concatenation of the blocks'
    bytes (for blocks that are on the device).  The inode's [i_size] is
    never looked at, so the slack of the last block is printed too: two
    inode records with the same [i_block] give the same enumeration.  The
    printing needs no iteration budget: it never ends in [Timeout]. *)
Theorem reg_file_printer_emits_whole_blocks :
  forall dev sb fuel ino tr,
    is_regular dev sb ino ->
    _ext2_print_ino_data dev sb fuel ino = Ret tt tr ->
    length (chars_of tr)
    = (Z.to_nat (EXT2_BLOCK_SIZE sb) * length (leaves_of tr))%nat /\
    (Forall (block_in_device dev sb) (leaves_of tr) ->
     chars_of tr = map Some (flat_map (block_bytes dev sb) (leaves_of tr))) /\
    (forall fuel', _ext2_print_ino_data dev sb fuel' ino <> Timeout) /\
    (forall ino_st ino_st',
        (forall j, i_block ino_st j = i_block ino_st' j) ->
        print_ino_data_loop dev sb fuel ino_st EXT2_FT_REG_FILE
          (Z.to_nat EXT2_N_BLOCKS) 0
        = print_ino_data_loop dev sb fuel ino_st' EXT2_FT_REG_FILE
            (Z.to_nat EXT2_N_BLOCKS) 0).
Proof.
  intros dev sb fuel ino tr Hreg H.
  destruct (print_ino_data_regular dev sb fuel ino Hreg)
    as (ino_st & t & Hld & Heq).
  rewrite Heq in H.
  apply bind_Ret_inv in H as (u & t1 & t2 & Hm & Hk & ->).
  inversion Hm; subst. clear Hm.
  apply ino_to_ino_st_first_read in Hld as (tbl & ->).
  split; [|split; [|split]];
    [| | |intros st st' Hblk; now apply print_ino_data_loop_uses_i_block].
  - rewrite chars_of_app, leaves_of_app. cbn [chars_of leaves_of flat_map app].
    fold (chars_of t2). fold (leaves_of t2).
    revert Hk.
    apply (print_ino_data_loop_inv dev sb fuel EXT2_FT_REG_FILE
             (fun tr => length (chars_of tr)
                        = (Z.to_nat (EXT2_BLOCK_SIZE sb)
                           * length (leaves_of tr))%nat)).
    + cbn. lia.
    + intros. cbn. lia.
    + intros t1' t2' H1 H2.
      rewrite chars_of_app, leaves_of_app, !length_app, H1, H2. lia.
    + intros a tr' Ha. rewrite (dir_print_leaves _ _ _ _ _ _ Ha).
      apply dir_print_reg_chars in Ha as [Ha _]. rewrite Ha. simpl. lia.
  - rewrite chars_of_app, leaves_of_app. cbn [chars_of leaves_of flat_map app].
    fold (chars_of t2). fold (leaves_of t2).
    revert Hk.
    apply (print_ino_data_loop_inv dev sb fuel EXT2_FT_REG_FILE
             (fun tr => Forall (block_in_device dev sb) (leaves_of tr) ->
                        chars_of tr
                        = map Some (flat_map (block_bytes dev sb)
                                      (leaves_of tr)))).
    + reflexivity.
    + reflexivity.
    + intros t1' t2' H1 H2 HF.
      rewrite leaves_of_app in HF. apply Forall_app in HF as [HF1 HF2].
      rewrite chars_of_app, leaves_of_app, flat_map_app, map_app.
      now rewrite H1, H2.
    + intros a tr' Ha HF. rewrite (dir_print_leaves _ _ _ _ _ _ Ha) in *.
      inversion HF; subst.
      apply dir_print_reg_chars in Ha as [_ Ha]. rewrite Ha by assumption.
      cbn [flat_map]. now rewrite app_nil_r.
  - intros fuel'.
    destruct (print_ino_data_regular dev sb fuel' ino Hreg)
      as (ino_st' & t' & Hld' & Heq').
    rewrite Heq'. apply bind_not_Timeout; [discriminate|]. intros _.
    apply print_ino_data_loop_reg_not_Timeout.
Qed.

Lemma reg_file_printer_emits_whole_blocks_witness :
  is_regular Sample.image Sample.sb 12 /\
  smember (dev_read Sample.image (5504 + 4) 4) 0 4 = 14 /\
  exists tr,
    _ext2_print_ino_data Sample.image Sample.sb 0 12 = Ret tt tr /\
    leaves_of tr = [4] /\
    length (chars_of tr) = (Z.to_nat 2048 * 1)%nat.
Proof.
  assert (Hreg : is_regular Sample.image Sample.sb 12).
  { exists (map Some (dev_read Sample.image 5504 128)).
    exists [Read 2048 32; Read 5504 128]. exists 0x81A4.
    repeat split; vm_compute; reflexivity. }
  split; [exact Hreg|]. split; [vm_compute; reflexivity|].
  pose (o := _ext2_print_ino_data Sample.image Sample.sb 0 12).
  pose (tr := match o with Ret _ tr => tr | _ => [] end).
  assert (E : _ext2_print_ino_data Sample.image Sample.sb 0 12 = Ret tt tr)
    by (vm_compute; reflexivity).
  assert (L : leaves_of tr = [4]) by (vm_compute; reflexivity).
  exists tr. split; [exact E|]. split; [exact L|].
  pose proof (proj1 (reg_file_printer_emits_whole_blocks Sample.image
                       Sample.sb 0 12 tr Hreg E)) as H.
  rewrite L in H. exact H.
Defined.

(** ** The number of leaves of an enumeration *)

Lemma indir_print_level dev sb fuel blk_addr file_type :
  _ext2_indir_print dev sb fuel blk_addr file_type 1
  = indir_print_below dev sb 0 fuel blk_addr file_type /\
  _ext2_indir_print dev sb fuel blk_addr file_type 2
  = indir_print_below dev sb 1 fuel blk_addr file_type /\
  _ext2_indir_print dev sb fuel blk_addr file_type 3
  = indir_print_below dev sb 2 fuel blk_addr file_type.
Proof. repeat split. Qed.

Lemma indir_search_level dev sb fuel blk_addr nxt_arg :
  _ext2_indir_search dev sb fuel blk_addr nxt_arg 1
  = indir_search_below dev sb 0 fuel blk_addr nxt_arg /\
  _ext2_indir_search dev sb fuel blk_addr nxt_arg 2
  = indir_search_below dev sb 1 fuel blk_addr nxt_arg /\
  _ext2_indir_search dev sb fuel blk_addr nxt_arg 3
  = indir_search_below dev sb 2 fuel blk_addr nxt_arg.
Proof. repeat split. Qed.

Lemma indir_print_loop_count dev print blk_off B :
  (forall a tr, print a = Ret tt tr -> (length (leaves_of tr) <= B)%nat) ->
  forall n i buf tr,
    indir_print_loop dev print blk_off n i buf = Ret tt tr ->
    (length (leaves_of tr) <= n * B)%nat.
Proof.
  intros Hp. induction n as [|n IH]; intros i buf tr H;
    cbn [indir_print_loop] in H.
  - inv_ret. subst. simpl. lia.
  - apply bind_Ret_inv in H as (buf' & t1 & t2 & Hrd & H & ->).
    apply ext2_read_Ret_inv in Hrd as (_ & _ & ->).
    apply bind_Ret_inv in H as (a & t3 & t4 & Ha & H & ->).
    apply defined_Ret_inv in Ha as (_ & ->).
    cbn [app leaves_of flat_map]. fold (leaves_of t4).
    destruct (a =? 0).
    + apply ret_Ret_inv in H as (_ & ->). simpl. lia.
    + apply bind_Ret_inv in H as ([] & t5 & t6 & Hpa & H & ->).
      rewrite leaves_of_app, length_app.
      apply Hp in Hpa. apply IH in H. lia.
Qed.

Lemma indir_print_below_count dev sb fuel file_type :
  forall below blk_addr tr,
    indir_print_below dev sb below fuel blk_addr file_type = Ret tt tr ->
    (length (leaves_of tr)
     <= Z.to_nat (EXT2_ADDR_PER_BLOCK sb) ^ S below)%nat.
Proof.
  induction below as [|below IH]; intros blk_addr tr H;
    cbn [indir_print_below] in H;
    eapply indir_print_loop_count in H.
  - rewrite Nat.pow_1_r. rewrite Nat.mul_1_r in H. exact H.
  - intros a tr' Ha. rewrite (dir_print_leaves _ _ _ _ _ _ Ha). simpl. lia.
  - rewrite Nat.pow_succ_r'. exact H.
  - intros a tr' Ha. apply IH in Ha. exact Ha.
Qed.

Lemma print_ino_data_loop_count dev sb fuel ino_st file_type :
  forall n i tr,
    print_ino_data_loop dev sb fuel ino_st file_type n i = Ret tt tr ->
    (length (leaves_of tr)
     <= slots_leaves (Z.to_nat (EXT2_ADDR_PER_BLOCK sb)) n i)%nat.
Proof.
  induction n as [|n IH]; intros i tr H; cbn [print_ino_data_loop] in H.
  - inv_ret. subst. simpl. lia.
  - apply bind_Ret_inv in H as (a & t1 & t2 & Ha & H & ->).
    apply defined_Ret_inv in Ha as (_ & ->). cbn [app].
    destruct (a =? 0).
    + apply ret_Ret_inv in H as (_ & ->). simpl. lia.
    + apply bind_Ret_inv in H as ([] & t3 & t4 & Hs & H & ->).
      rewrite leaves_of_app, length_app. apply IH in H.
      cbn [slots_leaves].
      destruct (indir_print_level dev sb fuel a file_type) as (E1 & E2 & E3).
      rewrite E1, E2, E3 in Hs.
      assert (Hb : (length (leaves_of t3)
                    <= slot_leaves (Z.to_nat (EXT2_ADDR_PER_BLOCK sb)) i)%nat).
      { unfold slot_leaves.
        destruct (i <? EXT2_NDIR_BLOCKS).
        { rewrite (dir_print_leaves _ _ _ _ _ _ Hs). simpl. lia. }
        destruct (i =? EXT2_IND_BLOCK).
        { apply indir_print_below_count in Hs.
          now rewrite Nat.pow_1_r in Hs. }
        destruct (i =? EXT2_DIND_BLOCK).
        { now apply indir_print_below_count in Hs. }
        destruct (i =? EXT2_TIND_BLOCK).
        { now apply indir_print_below_count in Hs. }
        apply ret_Ret_inv in Hs as (_ & ->). simpl. lia. }
      lia.
Qed.

Lemma indir_search_loop_count dev search blk_off B :
  (forall a r tr, search a = Ret r tr -> (length (leaves_of tr) <= B)%nat) ->
  forall n i buf r tr,
    indir_search_loop dev search blk_off n i buf = Ret r tr ->
    (length (leaves_of tr) <= n * B)%nat.
Proof.
  intros Hp. induction n as [|n IH]; intros i buf r tr H;
    cbn [indir_search_loop] in H.
  - inv_ret. subst. simpl. lia.
  - apply bind_Ret_inv in H as (buf' & t1 & t2 & Hrd & H & ->).
    apply ext2_read_Ret_inv in Hrd as (_ & _ & ->).
    apply bind_Ret_inv in H as (a & t3 & t4 & Ha & H & ->).
    apply defined_Ret_inv in Ha as (_ & ->).
    cbn [app leaves_of flat_map]. fold (leaves_of t4).
    destruct (a =? 0).
    + apply ret_Ret_inv in H as (_ & ->). simpl. lia.
    + apply bind_Ret_inv in H as (nxt & t5 & t6 & Hpa & H & ->).
      rewrite leaves_of_app, length_app. apply Hp in Hpa.
      destruct (nxt >? EXT2_BAD_INO).
      * apply ret_Ret_inv in H as (_ & ->). simpl. lia.
      * apply IH in H. lia.
Qed.

Lemma indir_search_below_count dev sb fuel nxt_arg :
  forall below blk_addr r tr,
    indir_search_below dev sb below fuel blk_addr nxt_arg = Ret r tr ->
    (length (leaves_of tr)
     <= Z.to_nat (EXT2_ADDR_PER_BLOCK sb) ^ S below)%nat.
Proof.
  induction below as [|below IH]; intros blk_addr r tr H;
    cbn [indir_search_below] in H;
    eapply indir_search_loop_count in H.
  - rewrite Nat.pow_1_r. rewrite Nat.mul_1_r in H. exact H.
  - intros a r' tr' Ha. rewrite (dir_search_leaves _ _ _ _ _ _ _ Ha).
    simpl. lia.
  - rewrite Nat.pow_succ_r'. exact H.
  - intros a r' tr' Ha. apply IH in Ha. exact Ha.
Qed.

Lemma nxt_ino_loop_count dev sb fuel ino_st nxt_arg :
  forall n i r tr,
    nxt_ino_loop dev sb fuel ino_st nxt_arg n i = Ret r tr ->
    (length (leaves_of tr)
     <= slots_leaves (Z.to_nat (EXT2_ADDR_PER_BLOCK sb)) n i)%nat.
Proof.
  induction n as [|n IH]; intros i r tr H; cbn [nxt_ino_loop] in H.
  - inv_ret. subst. simpl. lia.
  - apply bind_Ret_inv in H as (a & t1 & t2 & Ha & H & ->).
    apply defined_Ret_inv in Ha as (_ & ->). cbn [app].
    destruct (a =? 0).
    + apply ret_Ret_inv in H as (_ & ->). simpl. lia.
    + apply bind_Ret_inv in H as (nxt & t3 & t4 & Hs & H & ->).
      rewrite leaves_of_app, length_app.
      cbn [slots_leaves].
      destruct (indir_search_level dev sb fuel a nxt_arg) as (E1 & E2 & E3).
      rewrite E1, E2, E3 in Hs.
      assert (Hb : (length (leaves_of t3)
                    <= slot_leaves (Z.to_nat (EXT2_ADDR_PER_BLOCK sb)) i)%nat).
      { unfold slot_leaves.
        destruct (i <? EXT2_NDIR_BLOCKS).
        { rewrite (dir_search_leaves _ _ _ _ _ _ _ Hs). simpl. lia. }
        destruct (i =? EXT2_IND_BLOCK).
        { apply indir_search_below_count in Hs.
          now rewrite Nat.pow_1_r in Hs. }
        destruct (i =? EXT2_DIND_BLOCK).
        { now apply indir_search_below_count in Hs. }
        destruct (i =? EXT2_TIND_BLOCK).
        { now apply indir_search_below_count in Hs. }
        discriminate. }
      destruct (nxt >? EXT2_BAD_INO).
      * apply ret_Ret_inv in H as (_ & ->). simpl. lia.
      * apply IH in H. lia.
Qed.

Lemma slots_leaves_all sb :
  Z.of_nat (slots_leaves (Z.to_nat (EXT2_ADDR_PER_BLOCK sb))
              (Z.to_nat EXT2_N_BLOCKS) 0)
  = leaf_bound sb.
Proof.
  unfold leaf_bound. pose proof (addr_per_block_nonneg sb) as HN.
  set (A := EXT2_ADDR_PER_BLOCK sb) in *.
  change (slots_leaves (Z.to_nat A) (Z.to_nat EXT2_N_BLOCKS) 0)
    with (12 + (Z.to_nat A + (Z.to_nat A ^ 2 + (Z.to_nat A ^ 3 + 0))))%nat.
  rewrite !Nat2Z.inj_add, !Nat2Z.inj_pow, Z2Nat.id by lia.
  simpl Z.of_nat. lia.
Qed.

(** ** A zero address ends the loop that reads it *)

Lemma read_zero_address dev blk_off j buf :
  zero_address dev blk_off j ->
  _ext2_read dev (u64 (blk_off + u32 (4 * j))) buf 4
  = Ret (overwrite buf (map Some [x00; x00; x00; x00]))
        [Read (u64 (blk_off + u32 (4 * j))) 4] /\
  member (overwrite buf (map Some [x00; x00; x00; x00])) 0 4 = Some 0.
Proof.
  intros [Hlt Hz]. split.
  - rewrite ext2_read_ok by exact Hlt. now rewrite Hz.
  - rewrite member_overwrite by (simpl; lia). reflexivity.
Qed.

(** The loop over the [n] addresses of an index block behaves as the loop
    over its first [k + 1] addresses when address [k] is zero: nothing
    after a zero address of the block is looked at. *)
Lemma indir_print_loop_stops_at_zero dev print blk_off :
  forall k n i buf,
    (k < n)%nat ->
    zero_address dev blk_off (i + Z.of_nat k) ->
    indir_print_loop dev print blk_off n i buf
    = indir_print_loop dev print blk_off (S k) i buf.
Proof.
  induction k as [|k IH]; intros n i buf Hk Hz;
    (destruct n as [|n]; [lia|]).
  - rewrite Z.add_0_r in Hz.
    destruct (read_zero_address dev blk_off i buf Hz) as [Hrd Hm].
    cbn [indir_print_loop]. rewrite Hrd, !bind_Ret, Hm.
    cbn [defined]. rewrite !bind_ret. reflexivity.
  - cbn [indir_print_loop].
    apply bind_ext. intros buf'. apply bind_ext. intros a.
    destruct (a =? 0); [reflexivity|].
    apply bind_ext. intros _. apply IH; [lia|].
    replace (i + 1 + Z.of_nat k) with (i + Z.of_nat (S k)) by lia.
    exact Hz.
Qed.

Lemma indir_search_loop_stops_at_zero dev search blk_off :
  forall k n i buf,
    (k < n)%nat ->
    zero_address dev blk_off (i + Z.of_nat k) ->
    indir_search_loop dev search blk_off n i buf
    = indir_search_loop dev search blk_off (S k) i buf.
Proof.
  induction k as [|k IH]; intros n i buf Hk Hz;
    (destruct n as [|n]; [lia|]).
  - rewrite Z.add_0_r in Hz.
    destruct (read_zero_address dev blk_off i buf Hz) as [Hrd Hm].
    cbn [indir_search_loop]. rewrite Hrd, !bind_Ret, Hm.
    cbn [defined]. rewrite !bind_ret. reflexivity.
  - cbn [indir_search_loop].
    apply bind_ext. intros buf'. apply bind_ext. intros a.
    destruct (a =? 0); [reflexivity|].
    apply bind_ext. intros nxt.
    destruct (nxt >? EXT2_BAD_INO); [reflexivity|].
    apply IH; [lia|].
    replace (i + 1 + Z.of_nat k) with (i + Z.of_nat (S k)) by lia.
    exact Hz.
Qed.

(** The same for the slots of [i_block]. *)
Lemma print_ino_data_loop_stops_at_zero dev sb fuel ino_st file_type :
  forall k n i,
    (k < n)%nat ->
    i_block ino_st (i + Z.of_nat k) = Some 0 ->
    print_ino_data_loop dev sb fuel ino_st file_type n i
    = print_ino_data_loop dev sb fuel ino_st file_type (S k) i.
Proof.
  induction k as [|k IH]; intros n i Hk Hz; (destruct n as [|n]; [lia|]).
  - rewrite Z.add_0_r in Hz. cbn [print_ino_data_loop]. rewrite Hz.
    cbn [defined]. rewrite !bind_ret. reflexivity.
  - cbn [print_ino_data_loop].
    apply bind_ext. intros a. destruct (a =? 0); [reflexivity|].
    apply bind_ext. intros _. apply IH; [lia|].
    replace (i + 1 + Z.of_nat k) with (i + Z.of_nat (S k)) by lia.
    exact Hz.
Qed.

Lemma nxt_ino_loop_stops_at_zero dev sb fuel ino_st nxt_arg :
  forall k n i,
    (k < n)%nat ->
    i_block ino_st (i + Z.of_nat k) = Some 0 ->
    nxt_ino_loop dev sb fuel ino_st nxt_arg n i
    = nxt_ino_loop dev sb fuel ino_st nxt_arg (S k) i.
Proof.
  induction k as [|k IH]; intros n i Hk Hz; (destruct n as [|n]; [lia|]).
  - rewrite Z.add_0_r in Hz. cbn [nxt_ino_loop]. rewrite Hz.
    cbn [defined]. rewrite !bind_ret. reflexivity.
  - cbn [nxt_ino_loop].
    apply bind_ext. intros a. destruct (a =? 0); [reflexivity|].
    apply bind_ext. intros nxt.
    destruct (nxt >? EXT2_BAD_INO); [reflexivity|].
    apply IH; [lia|].
    replace (i + 1 + Z.of_nat k) with (i + Z.of_nat (S k)) by lia.
    exact Hz.
Qed.

(** ** The enclosing loop goes on after a zero *)

Lemma ino_to_ino_st_trace dev sb ino p_ino_st st tr :
  _ext2_ino_to_ino_st dev sb ino p_ino_st = Ret st tr ->
  leaves_of tr = [] /\ chars_of tr = [] /\ dirents_of tr = [] /\
  length (reads_of tr) = 2%nat.
Proof.
  intros H. apply ino_to_ino_st_first_read in H as (tbl & ->).
  repeat split.
Qed.

Lemma index_read dev blk_off i buf :
  0 <= blk_off -> 0 <= i -> 4 * i + 4 <= 2 ^ 32 ->
  blk_off + 4 * i + 4 <= Z.of_nat (length dev) ->
  blk_off + 4 * i + 4 <= 2 ^ 63 ->
  exists buf',
    _ext2_read dev (u64 (blk_off + u32 (4 * i))) buf 4
    = Ret buf' [Read (blk_off + 4 * i) 4] /\
    member buf' 0 4 = Some (le_val (dev_read dev (blk_off + 4 * i) 4)).
Proof.
  intros H0 Hi H32 Hlen H63.
  unfold u32. rewrite (Z.mod_small (4 * i)) by lia.
  unfold u64. rewrite Z.mod_small by lia.
  eexists. split; [apply ext2_read_ok; lia|].
  assert (Hl : length (dev_read dev (blk_off + 4 * i) 4) = 4%nat).
  { rewrite length_dev_read; [reflexivity|]. unfold in_device. lia. }
  rewrite member_overwrite by (rewrite Hl; lia).
  cbn [skipn]. rewrite firstn_all2 by (rewrite Hl; lia). reflexivity.
Qed.

Lemma flat_map_singleton (l : list Z) : flat_map (fun a => [a]) l = l.
Proof. induction l as [|a l IH]; [reflexivity|]. cbn [flat_map app]. now f_equal. Qed.

Lemma indir_print_loop_tree dev print (f : Z -> list Z) blk_off :
  0 <= blk_off ->
  forall n i buf tr,
    0 <= i ->
    4 * (i + Z.of_nat n) <= 2 ^ 32 ->
    blk_off + 4 * (i + Z.of_nat n) <= Z.of_nat (length dev) ->
    blk_off + 4 * (i + Z.of_nat n) <= 2 ^ 63 ->
    (forall a t, In a (leading_addresses dev blk_off n i) ->
                 print a = Ret tt t -> leaves_of t = f a) ->
    indir_print_loop dev print blk_off n i buf = Ret tt tr ->
    leaves_of tr = flat_map f (leading_addresses dev blk_off n i).
Proof.
  intros H0. induction n as [|n IH]; intros i buf tr Hi H32 Hlen H63 Hp H;
    cbn [indir_print_loop leading_addresses] in *.
  - apply ret_Ret_inv in H as (_ & ->). reflexivity.
  - destruct (index_read dev blk_off i buf) as (buf' & Hrd & Hm); try lia.
    rewrite Hrd, bind_Ret, Hm in H. cbn [defined] in H.
    rewrite bind_ret in H.
    set (a := le_val (dev_read dev (blk_off + 4 * i) 4)) in *.
    destruct (a =? 0).
    + unfold ret in H. inversion H; subst. reflexivity.
    + destruct (print a) as [[] t1| | |] eqn:Hpa;
        rewrite ?bind_Ret in H; cbn in H; try discriminate.
      destruct (indir_print_loop dev print blk_off n (i + 1) buf')
        as [[] t2| | |] eqn:Hl; try discriminate.
      inversion H; subst.
      cbn [app leaves_of flat_map]. fold (leaves_of (t1 ++ t2)).
      rewrite leaves_of_app. f_equal.
      * apply Hp; [now left|exact Hpa].
      * apply (IH (i + 1) buf'); try lia; [|exact Hl].
        intros a' t Hin. apply Hp. now right.
Qed.

Lemma indir_print_below_tree dev sb fuel file_type :
  valid_block_size sb ->
  forall below blk_addr tr,
    index_tree_ok dev sb below blk_addr ->
    indir_print_below dev sb below fuel blk_addr file_type = Ret tt tr ->
    leaves_of tr = tree_leaves dev sb below blk_addr.
Proof.
  intros Hbs. apply valid_block_size_bounds in Hbs.
  assert (HN : 4 * EXT2_ADDR_PER_BLOCK sb <= EXT2_BLOCK_SIZE sb).
  { unfold EXT2_ADDR_PER_BLOCK. apply Z.mul_div_le. lia. }
  assert (HN0 : 0 <= EXT2_ADDR_PER_BLOCK sb).
  { unfold EXT2_ADDR_PER_BLOCK. apply Z.div_pos; lia. }
  induction below as [|below IH]; intros blk_addr tr Hok H;
    cbn [indir_print_below index_tree_ok tree_leaves] in *;
    destruct Hok as ((Hb0 & _ & Hb1 & Hb2) & Hsub);
    unfold u64 in H;
    rewrite (Z.mod_small (blk_addr * EXT2_BLOCK_SIZE sb) (2 ^ 64)) in H
      by lia.
  - rewrite <- flat_map_singleton.
    eapply indir_print_loop_tree; try exact H; try lia.
    intros a t _ Ha. now apply dir_print_leaves in Ha.
  - eapply indir_print_loop_tree; try exact H; try lia.
    intros a t Hin Ha. apply IH; [|exact Ha].
    rewrite Forall_forall in Hsub. now apply Hsub.
Qed.

Lemma indir_search_loop_tree dev search (f : Z -> list Z) blk_off :
  0 <= blk_off ->
  forall n i buf r tr,
    0 <= i ->
    4 * (i + Z.of_nat n) <= 2 ^ 32 ->
    blk_off + 4 * (i + Z.of_nat n) <= Z.of_nat (length dev) ->
    blk_off + 4 * (i + Z.of_nat n) <= 2 ^ 63 ->
    (forall a r' t, In a (leading_addresses dev blk_off n i) ->
                    search a = Ret r' t -> (r' >? EXT2_BAD_INO) = false ->
                    leaves_of t = f a) ->
    indir_search_loop dev search blk_off n i buf = Ret r tr ->
    (r >? EXT2_BAD_INO) = false ->
    leaves_of tr = flat_map f (leading_addresses dev blk_off n i).
Proof.
  intros H0. induction n as [|n IH];
    intros i buf r tr Hi H32 Hlen H63 Hp H Hr;
    cbn [indir_search_loop leading_addresses] in *.
  - apply ret_Ret_inv in H as (_ & ->). reflexivity.
  - destruct (index_read dev blk_off i buf) as (buf' & Hrd & Hm); try lia.
    rewrite Hrd, bind_Ret, Hm in H. cbn [defined] in H.
    rewrite bind_ret in H.
    set (a := le_val (dev_read dev (blk_off + 4 * i) 4)) in *.
    destruct (a =? 0).
    + unfold ret in H. inversion H; subst. reflexivity.
    + destruct (search a) as [nxt t1| | |] eqn:Hsa;
        rewrite ?bind_Ret in H; cbn in H; try discriminate.
      destruct (nxt >? EXT2_BAD_INO) eqn:E.
      * unfold ret in H. cbn in H. inversion H; subst.
        rewrite E in Hr. discriminate.
      * destruct (indir_search_loop dev search blk_off n (i + 1) buf')
          as [r2 t2| | |] eqn:Hl; try discriminate.
        inversion H; subst.
        cbn [app leaves_of flat_map]. fold (leaves_of (t1 ++ t2)).
        rewrite leaves_of_app. f_equal.
        -- apply (Hp a nxt); [now left|exact Hsa|exact E].
        -- apply (IH (i + 1) buf' r t2); try lia; try assumption.
           intros a' r' t Hin. apply Hp. now right.
Qed.

Lemma indir_search_below_tree dev sb fuel nxt_arg :
  valid_block_size sb ->
  forall below blk_addr r tr,
    index_tree_ok dev sb below blk_addr ->
    indir_search_below dev sb below fuel blk_addr nxt_arg = Ret r tr ->
    (r >? EXT2_BAD_INO) = false ->
    leaves_of tr = tree_leaves dev sb below blk_addr.
Proof.
  intros Hbs. apply valid_block_size_bounds in Hbs.
  assert (HN : 4 * EXT2_ADDR_PER_BLOCK sb <= EXT2_BLOCK_SIZE sb).
  { unfold EXT2_ADDR_PER_BLOCK. apply Z.mul_div_le. lia. }
  assert (HN0 : 0 <= EXT2_ADDR_PER_BLOCK sb).
  { unfold EXT2_ADDR_PER_BLOCK. apply Z.div_pos; lia. }
  induction below as [|below IH]; intros blk_addr r tr Hok H Hr;
    cbn [indir_search_below index_tree_ok tree_leaves] in *;
    destruct Hok as ((Hb0 & _ & Hb1 & Hb2) & Hsub);
    unfold u64 in H;
    rewrite (Z.mod_small (blk_addr * EXT2_BLOCK_SIZE sb) (2 ^ 64)) in H
      by lia.
  - rewrite <- flat_map_singleton.
    eapply indir_search_loop_tree; try exact H; try exact Hr; try lia.
    intros a r' t _ Ha _. now apply dir_search_leaves in Ha.
  - eapply indir_search_loop_tree; try exact H; try exact Hr; try lia.
    intros a r' t Hin Ha Hr'. apply (IH a r'); [|exact Ha|exact Hr'].
    rewrite Forall_forall in Hsub. now apply Hsub.
Qed.

Lemma print_ino_data_loop_blocks dev sb fuel ino_st file_type :
  valid_block_size sb ->
  forall n i tr,
    slots_ok dev sb i (leading_blocks ino_st n i) ->
    print_ino_data_loop dev sb fuel ino_st file_type n i = Ret tt tr ->
    leaves_of tr = file_blocks dev sb i (leading_blocks ino_st n i).
Proof.
  intros Hbs. induction n as [|n IH]; intros i tr Hok H;
    cbn [print_ino_data_loop leading_blocks] in *.
  - apply ret_Ret_inv in H as (_ & ->). reflexivity.
  - destruct (i_block ino_st i) as [a|]; cbn [defined] in H; [|discriminate].
    rewrite bind_ret in H. destruct (a =? 0).
    + apply ret_Ret_inv in H as (_ & ->). reflexivity.
    + cbn [slots_ok file_blocks] in *. destruct Hok as (Hslot & Hok).
      apply bind_Ret_inv in H as ([] & t1 & t2 & Hc & H & ->).
      rewrite leaves_of_app. f_equal; [|now apply IH].
      unfold slot_ok in Hslot. unfold slot_blocks.
      unfold _ext2_indir_print in Hc.
      destruct (i <? EXT2_NDIR_BLOCKS);
        [now apply dir_print_leaves in Hc|].
      destruct (i =? EXT2_IND_BLOCK);
        [now apply (indir_print_below_tree dev sb fuel file_type Hbs 0%nat)|].
      destruct (i =? EXT2_DIND_BLOCK);
        [now apply (indir_print_below_tree dev sb fuel file_type Hbs 1%nat)|].
      destruct (i =? EXT2_TIND_BLOCK);
        [now apply (indir_print_below_tree dev sb fuel file_type Hbs 2%nat)|].
      now apply ret_Ret_inv in Hc as (_ & ->).
Qed.

Lemma nxt_ino_loop_blocks dev sb fuel ino_st nxt_arg :
  valid_block_size sb ->
  forall n i r tr,
    slots_ok dev sb i (leading_blocks ino_st n i) ->
    nxt_ino_loop dev sb fuel ino_st nxt_arg n i = Ret r tr ->
    (r >? EXT2_BAD_INO) = false ->
    leaves_of tr = file_blocks dev sb i (leading_blocks ino_st n i).
Proof.
  intros Hbs. induction n as [|n IH]; intros i r tr Hok H Hr;
    cbn [nxt_ino_loop leading_blocks] in *.
  - apply ret_Ret_inv in H as (_ & ->). reflexivity.
  - destruct (i_block ino_st i) as [a|]; cbn [defined] in H; [|discriminate].
    rewrite bind_ret in H. destruct (a =? 0).
    + apply ret_Ret_inv in H as (_ & ->). reflexivity.
    + cbn [slots_ok file_blocks] in *. destruct Hok as (Hslot & Hok).
      apply bind_Ret_inv in H as (nxt & t1 & t2 & Hc & H & ->).
      destruct (nxt >? EXT2_BAD_INO) eqn:E.
      { apply ret_Ret_inv in H as (<- & _). rewrite E in Hr. discriminate. }
      rewrite leaves_of_app. f_equal; [|now apply (IH (i + 1) r)].
      unfold slot_ok in Hslot. unfold slot_blocks.
      unfold _ext2_indir_search in Hc.
      destruct (i <? EXT2_NDIR_BLOCKS);
        [now apply dir_search_leaves in Hc|].
      destruct (i =? EXT2_IND_BLOCK);
        [now apply (indir_search_below_tree dev sb fuel nxt_arg Hbs 0%nat
                      a nxt)|].
      destruct (i =? EXT2_DIND_BLOCK);
        [now apply (indir_search_below_tree dev sb fuel nxt_arg Hbs 1%nat
                      a nxt)|].
      destruct (i =? EXT2_TIND_BLOCK);
        [now apply (indir_search_below_tree dev sb fuel nxt_arg Hbs 2%nat
                      a nxt)|].
      discriminate.
Qed.

(** C4, as the code has it.  An enumeration of an inode's data blocks, by
    the printer or by the directory lookup, visits at most
    [12 + N + N^2 + N^3] leaf data blocks, [N = addresses_per_block].  A
    zero block number ends the loop that reads it: when address [k] of an
    index block is zero, the loop over that block is the loop over its
    first [k + 1] addresses, and when slot [k] of [i_block] is zero the
    loop over the slots is the loop over the first [k + 1] slots; no later
    address of the same block and nothing below it is visited.  The loop
    of the enclosing block is not ended by it and goes on with its next
    entry: with the index blocks on the device, the leaves visited under
    an index block of level 2 or 3 are those under each of its addresses
    before its own first zero, one address after the other, and the leaves
    visited for an inode are those under each slot of [i_block] before the
    first zero slot, wherever the blocks below were cut short.  For the
    lookup this holds as long as the name has not been found. *)
Theorem enumeration_bounded_and_cut_per_block :
  forall dev sb fuel ino,
    (forall tr,
        _ext2_print_ino_data dev sb fuel ino = Ret tt tr ->
        Z.of_nat (length (leaves_of tr)) <= leaf_bound sb) /\
    (forall nxt_arg r tr,
        _ext2_nxt_ino dev sb fuel ino nxt_arg = Ret r tr ->
        Z.of_nat (length (leaves_of tr)) <= leaf_bound sb) /\
    (forall print search blk_off k buf,
        (k < Z.to_nat (EXT2_ADDR_PER_BLOCK sb))%nat ->
        zero_address dev blk_off (Z.of_nat k) ->
        indir_print_loop dev print blk_off
          (Z.to_nat (EXT2_ADDR_PER_BLOCK sb)) 0 buf
        = indir_print_loop dev print blk_off (S k) 0 buf /\
        indir_search_loop dev search blk_off
          (Z.to_nat (EXT2_ADDR_PER_BLOCK sb)) 0 buf
        = indir_search_loop dev search blk_off (S k) 0 buf) /\
    (forall ino_st file_type nxt_arg k,
        (k < Z.to_nat EXT2_N_BLOCKS)%nat ->
        i_block ino_st (Z.of_nat k) = Some 0 ->
        print_ino_data_loop dev sb fuel ino_st file_type
          (Z.to_nat EXT2_N_BLOCKS) 0
        = print_ino_data_loop dev sb fuel ino_st file_type (S k) 0 /\
        nxt_ino_loop dev sb fuel ino_st nxt_arg (Z.to_nat EXT2_N_BLOCKS) 0
        = nxt_ino_loop dev sb fuel ino_st nxt_arg (S k) 0) /\
    (forall blk_addr indir_level file_type nxt_arg,
        valid_block_size sb ->
        2 <= indir_level <= 3 ->
        index_tree_ok dev sb (Z.to_nat (indir_level - 1)) blk_addr ->
        let addrs :=
          leading_addresses dev (blk_addr * EXT2_BLOCK_SIZE sb)
            (Z.to_nat (EXT2_ADDR_PER_BLOCK sb)) 0 in
        let under := tree_leaves dev sb (Z.to_nat (indir_level - 2)) in
        (forall tr,
            _ext2_indir_print dev sb fuel blk_addr file_type indir_level
            = Ret tt tr ->
            leaves_of tr = flat_map under addrs) /\
        (forall r tr,
            _ext2_indir_search dev sb fuel blk_addr nxt_arg indir_level
            = Ret r tr ->
            r = EXT2_BAD_INO ->
            leaves_of tr = flat_map under addrs)) /\
    (forall ino_st t nxt_arg,
        valid_block_size sb ->
        _ext2_ino_to_ino_st dev sb ino (uninit sizeof_ext2_inode)
        = Ret ino_st t ->
        let slots := leading_blocks ino_st (Z.to_nat EXT2_N_BLOCKS) 0 in
        slots_ok dev sb 0 slots ->
        (forall tr,
            _ext2_print_ino_data dev sb fuel ino = Ret tt tr ->
            leaves_of tr = file_blocks dev sb 0 slots) /\
        (forall r tr,
            _ext2_nxt_ino dev sb fuel ino nxt_arg = Ret r tr ->
            r = EXT2_BAD_INO ->
            leaves_of tr = file_blocks dev sb 0 slots)).
Proof.
  intros dev sb fuel ino. split; [|split; [|split; [|split; [|split]]]].
  - intros tr H. unfold _ext2_print_ino_data in H.
    apply bind_Ret_inv in H as (ino_st & t1 & t2 & Hld & H & ->).
    apply ino_to_ino_st_first_read in Hld as (tbl & ->).
    apply bind_Ret_inv in H as (mode & t3 & t4 & Hmode & H & ->).
    apply defined_Ret_inv in Hmode as (_ & ->).
    apply bind_Ret_inv in H as (ft & t5 & t6 & Hft & H & ->).
    assert (t5 = []) as ->.
    { destruct (EXT2_IS_INODE_REG_FILE mode);
        [now apply ret_Ret_inv in Hft|].
      destruct (EXT2_IS_INODE_DIR mode);
        [now apply ret_Ret_inv in Hft|discriminate]. }
    apply print_ino_data_loop_count in H.
    rewrite <- slots_leaves_all. cbn [app leaves_of flat_map].
    fold (leaves_of t6). lia.
  - intros nxt_arg r tr H. unfold _ext2_nxt_ino in H.
    apply bind_Ret_inv in H as (ino_st & t1 & t2 & Hld & H & ->).
    apply ino_to_ino_st_first_read in Hld as (tbl & ->).
    apply bind_Ret_inv in H as (mode & t3 & t4 & Hmode & H & ->).
    apply defined_Ret_inv in Hmode as (_ & ->).
    destruct (negb (EXT2_IS_INODE_DIR mode)); [discriminate|].
    apply nxt_ino_loop_count in H.
    rewrite <- slots_leaves_all. cbn [app leaves_of flat_map].
    fold (leaves_of t4). lia.
  - intros print search blk_off k buf Hk Hz. split.
    + now apply indir_print_loop_stops_at_zero.
    + now apply indir_search_loop_stops_at_zero.
  - intros ino_st file_type nxt_arg k Hk Hz. split.
    + now apply print_ino_data_loop_stops_at_zero.
    + now apply nxt_ino_loop_stops_at_zero.
  - intros blk_addr lvl file_type nxt_arg Hbs Hlvl Hok addrs under.
    assert (Hb : Z.to_nat (u8 (lvl - 1)) = S (Z.to_nat (lvl - 2))).
    { unfold u8. rewrite Z.mod_small by lia. lia. }
    assert (Hb' : Z.to_nat (lvl - 1) = S (Z.to_nat (lvl - 2))) by lia.
    rewrite Hb' in Hok.
    unfold _ext2_indir_print, _ext2_indir_search. rewrite Hb. split.
    + intros tr H.
      now apply (indir_print_below_tree dev sb fuel file_type Hbs _ _ _ Hok).
    + intros r tr H ->.
      now apply (indir_search_below_tree dev sb fuel nxt_arg Hbs _ _ _ _ Hok H).
  - intros ino_st t nxt_arg Hbs Hld slots Hok. split.
    + intros tr H. unfold _ext2_print_ino_data in H. rewrite Hld in H.
      apply bind_Ret_inv in H as (st & t1 & t2 & E & H & ->).
      inversion E; subst st t1. clear E.
      apply bind_Ret_inv in H as (mode & t3 & t4 & Hm & H & ->).
      apply defined_Ret_inv in Hm as (_ & ->).
      apply bind_Ret_inv in H as (ft & t5 & t6 & Hft & H & ->).
      assert (Ht5 : t5 = []).
      { destruct (EXT2_IS_INODE_REG_FILE mode);
          [now apply ret_Ret_inv in Hft|].
        destruct (EXT2_IS_INODE_DIR mode);
          [now apply ret_Ret_inv in Hft|discriminate]. }
      subst t5. cbn [app].
      apply ino_to_ino_st_trace in Hld as (Hl & _).
      rewrite leaves_of_app, Hl. cbn [app].
      eapply print_ino_data_loop_blocks; eauto.
    + intros r tr H ->. unfold _ext2_nxt_ino in H. rewrite Hld in H.
      apply bind_Ret_inv in H as (st & t1 & t2 & E & H & ->).
      inversion E; subst st t1. clear E.
      apply bind_Ret_inv in H as (mode & t3 & t4 & Hm & H & ->).
      apply defined_Ret_inv in Hm as (_ & ->).
      destruct (negb (EXT2_IS_INODE_DIR mode)); [discriminate|].
      apply ino_to_ino_st_trace in Hld as (Hl & _).
      rewrite leaves_of_app, Hl. cbn [app].
      eapply nxt_ino_loop_blocks; eauto.
Qed.

(** The trace of the directory printer on inode 13 of the sparse sample
    volume. *)
Lemma sparse_print_trace :
  exists tr,
    _ext2_print_ino_data Sample.image_sparse Sample.sb 2 13 = Ret tt tr /\
    leaves_of tr = [4; 5; 6; 7; 8; 9; 10; 11; 12; 13; 14; 15; 19] /\
    reads_of tr
    = [(2048, 32); (5632, 128); (8192, 264); (10240, 264); (12288, 264);
       (14336, 264); (16384, 264); (18432, 264); (20480, 264); (22528, 264);
       (24576, 264); (26624, 264); (28672, 264); (30720, 264); (32768, 4);
       (34816, 4); (36864, 4); (38912, 264); (36868, 4); (34820, 4)] /\
    exists t1 t2, tr = t1 ++ Read 32768 4 :: t2 /\ In (Leaf 19) t2.
Proof.
  pose (o := _ext2_print_ino_data Sample.image_sparse Sample.sb 2 13).
  pose (tr := match o with Ret _ tr => tr | _ => [] end).
  exists tr. split; [vm_compute; reflexivity|].
  split; [vm_compute; reflexivity|]. split; [vm_compute; reflexivity|].
  exists (firstn 38 tr), (skipn 39 tr).
  split; [vm_compute; reflexivity|]. vm_compute. tauto.
Qed.

(** On the sparse sample volume, the first address of the single-indirect
    block 16 of inode 13 is zero, and data block 19, reached through the
    double-indirect slot, is visited after that zero has been read: the
    enumeration does not terminate at the first zero it meets. *)
Lemma enumeration_goes_on_after_zero :
  Sample.sb_of Sample.image_sparse = Sample.sb /\
  zero_address Sample.image_sparse (16 * 2048) 0 /\
  exists tr t1 t2,
    _ext2_print_ino_data Sample.image_sparse Sample.sb 2 13 = Ret tt tr /\
    leaves_of tr = [4; 5; 6; 7; 8; 9; 10; 11; 12; 13; 14; 15; 19] /\
    tr = t1 ++ Read (16 * 2048) 4 :: t2 /\ In (Leaf 19) t2.
Proof.
  split; [vm_compute; reflexivity|].
  split; [split; vm_compute; reflexivity|].
  destruct sparse_print_trace as (tr & E & L & _ & t1 & t2 & Ht & Hin).
  exists tr, t1, t2. repeat split; assumption.
Qed.

Lemma enumeration_bounded_and_cut_per_block_witness :
  (exists ino_st t tr,
     _ext2_ino_to_ino_st Sample.image_sparse Sample.sb 13
       (uninit sizeof_ext2_inode) = Ret ino_st t /\
     _ext2_print_ino_data Sample.image_sparse Sample.sb 2 13 = Ret tt tr /\
     Z.of_nat (length (leaves_of tr)) <= leaf_bound Sample.sb /\
     leaves_of tr
     = file_blocks Sample.image_sparse Sample.sb 0
         (leading_blocks ino_st (Z.to_nat EXT2_N_BLOCKS) 0) /\
     leaves_of tr = [4; 5; 6; 7; 8; 9; 10; 11; 12; 13; 14; 15; 19]) /\
  (exists tr,
     _ext2_indir_print Sample.image_sparse Sample.sb 2 17 EXT2_FT_DIR 2
     = Ret tt tr /\
     leaves_of tr
     = flat_map (tree_leaves Sample.image_sparse Sample.sb (Z.to_nat (2 - 2)))
         (leading_addresses Sample.image_sparse
            (17 * EXT2_BLOCK_SIZE Sample.sb)
            (Z.to_nat (EXT2_ADDR_PER_BLOCK Sample.sb)) 0) /\
     leaves_of tr = [19]) /\
  zero_address Sample.image_sparse (16 * 2048) (Z.of_nat 0) /\
  (forall print buf,
      indir_print_loop Sample.image_sparse print (16 * 2048)
        (Z.to_nat (EXT2_ADDR_PER_BLOCK Sample.sb)) 0 buf
      = indir_print_loop Sample.image_sparse print (16 * 2048) 1 0 buf).
Proof.
  pose proof (enumeration_bounded_and_cut_per_block Sample.image_sparse
                Sample.sb 2 13) as (Hb & _ & Hz & _ & Ht & Hi).
  assert (Z0 : zero_address Sample.image_sparse (16 * 2048) (Z.of_nat 0))
    by (split; vm_compute; reflexivity).
  assert (Hv : valid_block_size Sample.sb) by (right; left; reflexivity).
  assert (E17 : leading_addresses Sample.image_sparse
                  (17 * EXT2_BLOCK_SIZE Sample.sb)
                  (Z.to_nat (EXT2_ADDR_PER_BLOCK Sample.sb)) 0 = [18])
    by (vm_compute; reflexivity).
  assert (H17 : index_tree_ok Sample.image_sparse Sample.sb
                  (Z.to_nat (2 - 1)) 17).
  { split; [vm_compute; repeat split; discriminate|].
    rewrite E17. constructor; [|constructor].
    split; [vm_compute; repeat split; discriminate|exact I]. }
  split; [|split; [|split; [exact Z0|]]].
  - pose (o := _ext2_ino_to_ino_st Sample.image_sparse Sample.sb 13
                 (uninit sizeof_ext2_inode)).
    pose (ino_st := match o with Ret st _ => st | _ => [] end).
    pose (t := match o with Ret _ t => t | _ => [] end).
    pose (o2 := _ext2_print_ino_data Sample.image_sparse Sample.sb 2 13).
    pose (tr := match o2 with Ret _ tr => tr | _ => [] end).
    assert (Hld : _ext2_ino_to_ino_st Sample.image_sparse Sample.sb 13
                    (uninit sizeof_ext2_inode) = Ret ino_st t)
      by (vm_compute; reflexivity).
    assert (E : _ext2_print_ino_data Sample.image_sparse Sample.sb 2 13
                = Ret tt tr) by (vm_compute; reflexivity).
    assert (El : leading_blocks ino_st (Z.to_nat EXT2_N_BLOCKS) 0
                 = [4; 5; 6; 7; 8; 9; 10; 11; 12; 13; 14; 15; 16; 17])
      by (vm_compute; reflexivity).
    assert (Hok : slots_ok Sample.image_sparse Sample.sb 0
                    (leading_blocks ino_st (Z.to_nat EXT2_N_BLOCKS) 0)).
    { rewrite El. cbn [slots_ok]. unfold slot_ok.
      repeat (split; [exact I|]). cbn [Z.add Pos.add Pos.succ Z.ltb Z.eqb
        Z.compare Pos.compare Pos.compare_cont EXT2_NDIR_BLOCKS EXT2_IND_BLOCK
        EXT2_DIND_BLOCK EXT2_TIND_BLOCK Pos.eqb].
      split; [|split; [|exact I]].
      - split; [vm_compute; repeat split; discriminate|exact I].
      - exact H17. }
    exists ino_st, t, tr. split; [exact Hld|]. split; [exact E|].
    split; [exact (Hb tr E)|]. split; [|vm_compute; reflexivity].
    exact (proj1 (Hi ino_st t [] Hv Hld Hok) tr E).
  - pose (o := _ext2_indir_print Sample.image_sparse Sample.sb 2 17
                 EXT2_FT_DIR 2).
    pose (tr := match o with Ret _ tr => tr | _ => [] end).
    assert (E : _ext2_indir_print Sample.image_sparse Sample.sb 2 17
                  EXT2_FT_DIR 2 = Ret tt tr) by (vm_compute; reflexivity).
    exists tr. split; [exact E|]. split; [|vm_compute; reflexivity].
    refine (proj1 (Ht 17 2 EXT2_FT_DIR [] Hv _ H17) tr E). lia.
  - intros print buf.
    refine (proj1 (Hz print (fun _ => Undef) (16 * 2048) 0%nat buf _ Z0)).
    apply Nat.ltb_lt. vm_compute. reflexivity.
Defined.

(** * Further properties of the program *)

(** ** The request keyword *)

Lemma byte_eqb_eq a b : Byte.eqb a b = true <-> a = b.
Proof.
  split; [apply Byte.byte_dec_bl|intros ->; apply byte_eqb_refl].
Qed.

Lemma byte_val_zero_iff c : byte_val c = 0 <-> c = x00.
Proof.
  split; [|intros ->; reflexivity].
  intros H. apply byte_val_inj. rewrite H. reflexivity.
Qed.

(** [strcmp] is zero exactly on equal strings. *)
Lemma strcmp_zero_iff s1 :
  forall s2, strcmp s1 s2 = 0 <-> until_nul s1 = until_nul s2.
Proof.
  induction s1 as [|c1 s1 IH]; intros [|c2 s2]; cbn [strcmp until_nul].
  - tauto.
  - change (byte_val x00) with 0.
    destruct (Byte.eqb c2 x00) eqn:E.
    + apply byte_eqb_eq in E. subst. split; reflexivity.
    + split; [|discriminate]. intros H.
      assert (byte_val c2 = 0) as Hz by lia.
      apply byte_val_zero_iff in Hz. subst. discriminate.
  - change (byte_val x00) with 0.
    destruct (Byte.eqb c1 x00) eqn:E.
    + apply byte_eqb_eq in E. subst. split; reflexivity.
    + split; [|discriminate]. intros H.
      assert (byte_val c1 = 0) as Hz by lia.
      apply byte_val_zero_iff in Hz. subst. discriminate.
  - destruct (Byte.eqb c1 c2) eqn:E12.
    + apply byte_eqb_eq in E12. subst c2.
      destruct (Byte.eqb c1 x00); [tauto|].
      rewrite IH. split; [now intros ->|]. intros H. now inversion H.
    + assert (c1 <> c2) as Hne by (intros ->; now rewrite byte_eqb_refl in E12).
      split.
      * intros H. exfalso. apply Hne, byte_val_inj. lia.
      * intros H. exfalso.
        destruct (Byte.eqb c1 x00) eqn:E1, (Byte.eqb c2 x00) eqn:E2;
          try discriminate.
        -- apply byte_eqb_eq in E1, E2. congruence.
        -- inversion H. contradiction.
Qed.

(** X1.  [_get_req_type] recognises its two keywords exactly: the result
    is [REQUEST_TYPE_INODE] if and only if the argument is the string
    "inode", [REQUEST_TYPE_DATA] if and only if it is "data", and
    [REQUEST_TYPE_INVALID] for every other string; a longer or shorter
    string, or one in another case, is invalid. *)
Theorem get_req_type_exact :
  forall arg,
    (_get_req_type arg = REQUEST_TYPE_INODE
     <-> until_nul arg = list_byte_of_string "inode") /\
    (_get_req_type arg = REQUEST_TYPE_DATA
     <-> until_nul arg = list_byte_of_string "data") /\
    (_get_req_type arg = REQUEST_TYPE_INVALID
     <-> until_nul arg <> list_byte_of_string "inode" /\
         until_nul arg <> list_byte_of_string "data").
Proof.
  intros arg. unfold _get_req_type.
  pose proof (strcmp_zero_iff arg (list_byte_of_string "inode")) as Hi.
  pose proof (strcmp_zero_iff arg (list_byte_of_string "data")) as Hd.
  change (until_nul (list_byte_of_string "inode"))
    with (list_byte_of_string "inode") in Hi.
  change (until_nul (list_byte_of_string "data"))
    with (list_byte_of_string "data") in Hd.
  unfold REQUEST_TYPE_INODE, REQUEST_TYPE_DATA, REQUEST_TYPE_INVALID.
  destruct (strcmp arg (list_byte_of_string "inode") =? 0) eqn:Ei.
  - apply Z.eqb_eq in Ei. apply Hi in Ei.
    repeat split; intros; try discriminate; try tauto;
      try (match goal with
           | H1 : until_nul arg = _, H2 : until_nul arg = _ |- _ =>
               rewrite H1 in H2; vm_compute in H2; discriminate
           end).
  - apply Z.eqb_neq in Ei.
    assert (until_nul arg <> list_byte_of_string "inode") by tauto.
    destruct (strcmp arg (list_byte_of_string "data") =? 0) eqn:Ed.
    + apply Z.eqb_eq in Ed. apply Hd in Ed.
      repeat split; intros; try discriminate; try tauto;
      try (match goal with
           | H1 : until_nul arg = _, H2 : until_nul arg = _ |- _ =>
               rewrite H1 in H2; vm_compute in H2; discriminate
           end).
    + apply Z.eqb_neq in Ed.
      assert (until_nul arg <> list_byte_of_string "data") by tauto.
      repeat split; intros; try discriminate; try tauto;
      try (match goal with
           | H1 : until_nul arg = _, H2 : until_nul arg = _ |- _ =>
               rewrite H1 in H2; vm_compute in H2; discriminate
           end).
Qed.

(** ** Sectors and blocks *)

(** X2.  On a volume with a valid block size, [EXT2_PHY_TO_LOG_BLKS]
    converts a count of 512-byte sectors into the least count of blocks
    that holds them: it rounds up, and zero sectors are zero blocks. *)
Theorem phy_to_log_blks_rounds_up :
  forall sb phy_nb,
    valid_block_size sb ->
    0 <= phy_nb < 2 ^ 64 ->
    exists log_nb,
      EXT2_PHY_TO_LOG_BLKS sb phy_nb = Some log_nb /\
      phy_nb * 512 <= log_nb * EXT2_BLOCK_SIZE sb /\
      (log_nb - 1) * EXT2_BLOCK_SIZE sb < phy_nb * 512 /\
      (phy_nb = 0 -> log_nb = 0).
Proof.
  intros sb phy Hbs Hphy. unfold EXT2_PHY_TO_LOG_BLKS, u64.
  assert (Hf : exists f, EXT2_BLOCK_SIZE sb = 512 * f /\ 2 <= f <= 8).
  { destruct Hbs as [H|[H|H]]; rewrite H;
      [exists 2|exists 4|exists 8]; lia. }
  destruct Hf as (f & Hf & Hr). rewrite Hf.
  replace (512 * f / 512) with f by (rewrite Z.mul_comm, Z.div_mul; lia).
  rewrite (Z.mod_small f) by lia.
  destruct (f =? 0) eqn:E0; [apply Z.eqb_eq in E0; lia|].
  pose proof (Z.div_mod phy f ltac:(lia)) as Hdm.
  pose proof (Z.mod_pos_bound phy f ltac:(lia)) as Hm.
  assert (0 <= phy / f <= phy).
  { split; [apply Z.div_pos; lia|].
    apply Z.div_le_upper_bound; [lia|]. nia. }
  rewrite (Z.mod_small (phy / f)) by lia.
  eexists. split; [reflexivity|].
  destruct (phy mod f =? 0) eqn:Em.
  - apply Z.eqb_eq in Em. rewrite Z.mod_small by lia.
    repeat split; try nia.
    all: try (intros ->; rewrite Z.div_0_l; lia).
  - apply Z.eqb_neq in Em. rewrite Z.mod_small by lia.
    repeat split; try nia.
    all: try (intros ->; rewrite Z.mod_0_l in Em; lia).
Qed.

Lemma phy_to_log_blks_rounds_up_witness :
  valid_block_size Sample.sb /\
  exists log_nb,
    EXT2_PHY_TO_LOG_BLKS Sample.sb 9 = Some log_nb /\
    9 * 512 <= log_nb * EXT2_BLOCK_SIZE Sample.sb /\
    (log_nb - 1) * EXT2_BLOCK_SIZE Sample.sb < 9 * 512 /\
    (9 = 0 -> log_nb = 0).
Proof.
  assert (Hv : valid_block_size Sample.sb) by (right; left; reflexivity).
  split; [exact Hv|].
  apply (phy_to_log_blks_rounds_up Sample.sb 9 Hv). lia.
Defined.

(** ** Where the loader finds an inode *)

Lemma smember_bound bs off len :
  0 <= smember bs off len < 256 ^ Z.of_nat len.
Proof.
  unfold smember. split; [apply le_val_nonneg|].
  eapply Z.lt_le_trans; [apply le_val_bound|].
  apply Z.pow_le_mono_r; [lia|]. rewrite length_firstn. lia.
Qed.

(** X4.  The loader's addressing separates inode numbers: group and index
    give the inode number back, and within one group the records of two
    inode numbers lie [inode_size] bytes apart per number, so with an
    [inode_size] of at least [sizeof(struct ext2_inode)] the 128 bytes
    read for different inodes of a group never overlap. *)
Theorem inode_records_are_disjoint :
  forall sb inode_table ino ino',
    valid_block_size sb ->
    0 < EXT2_INODES_PER_GROUP sb ->
    Z.of_nat sizeof_ext2_inode <= EXT2_INODE_SIZE sb ->
    0 <= inode_table < 2 ^ 32 ->
    1 <= ino -> ino < ino' -> ino' < 2 ^ 32 ->
    grp_nb sb ino = grp_nb sb ino' ->
    grp_nb sb ino * EXT2_INODES_PER_GROUP sb + ino_idx sb ino + 1 = ino /\
    grp_desc_off sb ino = grp_desc_off sb ino' /\
    ino_off sb inode_table ino'
    = ino_off sb inode_table ino + (ino' - ino) * EXT2_INODE_SIZE sb /\
    ino_off sb inode_table ino + Z.of_nat sizeof_ext2_inode
    <= ino_off sb inode_table ino'.
Proof.
  intros sb tbl ino ino' Hbs Hipg Hsz Htbl H1 Hlt Hmax Hgrp.
  apply valid_block_size_bounds in Hbs.
  unfold grp_desc_off. rewrite <- Hgrp.
  unfold grp_nb, ino_idx, ino_off, ino_idx, u64 in *.
  rewrite (Z.mod_small (ino - 1)) in * by lia.
  rewrite (Z.mod_small (ino' - 1)) in * by lia.
  set (g := EXT2_INODES_PER_GROUP sb) in *.
  set (s := EXT2_INODE_SIZE sb) in *.
  assert (Hs : s < 2 ^ 16) by apply (smember_bound sb 88 2).
  assert (Hg : g < 2 ^ 32) by apply (smember_bound sb 40 4).
  pose proof (Z.div_mod (ino - 1) g ltac:(lia)) as Hd.
  pose proof (Z.div_mod (ino' - 1) g ltac:(lia)) as Hd'.
  pose proof (Z.mod_pos_bound (ino - 1) g Hipg) as Hm.
  pose proof (Z.mod_pos_bound (ino' - 1) g Hipg) as Hm'.
  rewrite <- Hgrp in Hd'.
  assert (Hidx : (ino' - 1) mod g = (ino - 1) mod g + (ino' - ino)) by lia.
  unfold sizeof_ext2_inode in *.
  assert (0 <= tbl * EXT2_BLOCK_SIZE sb < 2 ^ 44) by nia.
  assert (0 <= (ino - 1) mod g * s < 2 ^ 48) by nia.
  assert (0 <= (ino' - 1) mod g * s < 2 ^ 48) by nia.
  rewrite (Z.mod_small (tbl * EXT2_BLOCK_SIZE sb)) by lia.
  rewrite (Z.mod_small (tbl * EXT2_BLOCK_SIZE sb + (ino - 1) mod g * s))
    by lia.
  rewrite (Z.mod_small (tbl * EXT2_BLOCK_SIZE sb + (ino' - 1) mod g * s))
    by lia.
  rewrite Hidx. repeat split; try lia; nia.
Qed.

Lemma inode_records_are_disjoint_witness :
  grp_nb Sample.sb 2 = grp_nb Sample.sb 12 /\
  ino_off Sample.sb 2 12 = ino_off Sample.sb 2 2 + (12 - 2) * 128.
Proof.
  assert (Hg : grp_nb Sample.sb 2 = grp_nb Sample.sb 12) by reflexivity.
  split; [exact Hg|].
  refine (proj1 (proj2 (proj2 (inode_records_are_disjoint Sample.sb 2 2 12
                                 _ _ _ _ _ _ _ Hg)))).
  - right; left; reflexivity.
  - reflexivity.
  - vm_compute. discriminate.
  - lia.
  - lia.
  - lia.
  - lia.
Defined.

(** ** Tokens *)

Lemma split_path_name_chars p :
  Forall (fun t => forallb name_char t = true) (split_path p).
Proof.
  induction p as [|c p IH]; cbn [split_path]; [repeat constructor|].
  destruct (Byte.eqb c x00) eqn:E0; [repeat constructor|].
  destruct (Byte.eqb c "/"%byte) eqn:E1; [now constructor|].
  pose proof (split_path_not_nil p) as Hn.
  destruct (split_path p) as [|t ts]; [contradiction|].
  inversion IH; subst. cbn [cons_hd]. constructor; [|assumption].
  cbn [forallb]. unfold name_char at 1. rewrite E0, E1. assumption.
Qed.

Lemma components_valid p :
  Forall (fun t => valid_name t = true) (components p).
Proof.
  unfold components. pose proof (split_path_name_chars p) as H.
  induction H as [|t ts Ht _ IH]; cbn [filter]; [constructor|].
  destruct t as [|c t]; cbn [nonempty]; [exact IH|].
  constructor; [|exact IH]. unfold valid_name. now rewrite Ht.
Qed.

(** X5.  Every token [_get_toks] hands to the resolver is a usable name:
    it is not empty and holds neither a ['/'] nor a NUL; the tokenising
    itself reads nothing from the device, and at most [MAX_PATH_TOKS]
    tokens are returned. *)
Theorem get_toks_yields_names :
  forall path toks tr,
    _get_toks path slash = Ret toks tr ->
    tr = [] /\
    Z.of_nat (length toks) <= MAX_PATH_TOKS /\
    Forall (fun t => valid_name t = true) toks.
Proof.
  intros path toks tr H. rewrite get_toks_total in H.
  destruct (Z.of_nat (length (components path)) <=? MAX_PATH_TOKS) eqn:E;
    [|discriminate].
  inversion H; subst. apply Z.leb_le in E.
  repeat split; [exact E|apply components_valid].
Qed.

Lemma get_toks_yields_names_witness :
  _get_toks (Sample.str "//usr///lib/") slash
  = Ret [Sample.str "usr"; Sample.str "lib"] [] /\
  Forall (fun t => valid_name t = true) [Sample.str "usr"; Sample.str "lib"].
Proof.
  assert (H : _get_toks (Sample.str "//usr///lib/") slash
              = Ret [Sample.str "usr"; Sample.str "lib"] [])
    by (vm_compute; reflexivity).
  split; [exact H|].
  exact (proj2 (proj2 (get_toks_yields_names _ _ _ H))).
Defined.

Lemma split_path_name_app t :
  forallb name_char t = true ->
  forall x,
    split_path (t ++ x)
    = (t ++ hd [] (split_path x)) :: tl (split_path x).
Proof.
  induction t as [|c t IH]; intros Ht x.
  - cbn [app]. pose proof (split_path_not_nil x).
    destruct (split_path x); [contradiction|reflexivity].
  - cbn [forallb] in Ht. apply andb_true_iff in Ht as (Hc & Ht).
    unfold name_char in Hc. apply andb_true_iff in Hc as (H0 & H1).
    apply negb_true_iff in H0, H1.
    cbn [app split_path]. rewrite H0, H1, (IH Ht). reflexivity.
Qed.

Lemma split_path_join_hd toks : hd [] (split_path (join_path toks)) = [].
Proof. destruct toks; reflexivity. Qed.

Lemma components_join toks :
  Forall (fun t => valid_name t = true) toks ->
  components (join_path toks) = toks.
Proof.
  induction 1 as [|t toks Ht _ IH]; [reflexivity|].
  unfold valid_name in Ht. apply andb_true_iff in Ht as (Hne & Hch).
  cbn [join_path flat_map]. fold (join_path toks).
  rewrite <- app_assoc, components_leading_slash.
  unfold components in *.
  rewrite (split_path_name_app t Hch), split_path_join_hd, app_nil_r.
  cbn [filter]. rewrite Hne. f_equal.
  pose proof (split_path_not_nil (join_path toks)) as Hn.
  pose proof (split_path_join_hd toks) as Hh.
  destruct (split_path (join_path toks)) as [|h ts]; [contradiction|].
  cbn [hd] in Hh. subst h. exact IH.
Qed.

(** X6.  Tokenising undoes joining: for names that are not empty and hold
    no ['/'] and no NUL, at most [MAX_PATH_TOKS] of them, the path that
    puts a slash before each name is split back by [_get_toks] into
    exactly these names, in order. *)
Theorem get_toks_of_join :
  forall toks,
    Forall (fun t => valid_name t = true) toks ->
    Z.of_nat (length toks) <= MAX_PATH_TOKS ->
    _get_toks (join_path toks) slash = Ret toks [].
Proof.
  intros toks Hv Hlen. rewrite get_toks_total, (components_join toks Hv).
  apply Z.leb_le in Hlen. now rewrite Hlen.
Qed.

Lemma get_toks_of_join_witness :
  join_path [Sample.str "usr"; Sample.str "lib"] = Sample.str "/usr/lib" /\
  _get_toks (Sample.str "/usr/lib") slash
  = Ret [Sample.str "usr"; Sample.str "lib"] [].
Proof.
  split; [reflexivity|].
  apply (get_toks_of_join [Sample.str "usr"; Sample.str "lib"]).
  - repeat constructor.
  - vm_compute. discriminate.
Defined.

(** ** Resolution, component after component *)

Lemma bind_assoc {A B C : Type} (m : outcome A) (f : A -> outcome B)
    (g : B -> outcome C) :
  bind (bind m f) g = bind m (fun a => bind (f a) g).
Proof.
  destruct m as [a t| | |]; simpl; try reflexivity.
  destruct (f a) as [b t'| | |]; simpl; try reflexivity.
  destruct (g b) as [c t''| | |]; simpl; try reflexivity.
  now rewrite app_assoc.
Qed.

Lemma path_loop_app dev sb fuel toks1 :
  forall toks2 ino,
    path_loop dev sb fuel (toks1 ++ toks2) ino
    = (i <- path_loop dev sb fuel toks1 ino ;; path_loop dev sb fuel toks2 i).
Proof.
  induction toks1 as [|tok toks1 IH]; intros toks2 ino.
  - cbn [app path_loop]. now rewrite bind_ret.
  - cbn [app path_loop]. rewrite bind_assoc. apply bind_ext. intros a.
    destruct (a <? EXT2_ROOT_INO); [reflexivity|apply IH].
Qed.

Lemma split_path_app_slash p :
  forallb (fun c => negb (Byte.eqb c x00)) p = true ->
  forall q, split_path (p ++ slash ++ q) = split_path p ++ split_path q.
Proof.
  induction p as [|c p IH]; intros Hp q; [reflexivity|].
  cbn [forallb] in Hp. apply andb_true_iff in Hp as (Hc & Hp).
  apply negb_true_iff in Hc.
  cbn [app split_path]. rewrite Hc.
  change (p ++ "/"%byte :: q) with (p ++ slash ++ q). rewrite (IH Hp).
  destruct (Byte.eqb c "/"%byte); [reflexivity|].
  pose proof (split_path_not_nil p).
  destruct (split_path p); [contradiction|reflexivity].
Qed.

Lemma components_app_slash p q :
  forallb (fun c => negb (Byte.eqb c x00)) p = true ->
  components (p ++ slash ++ q) = components p ++ components q.
Proof.
  intros Hp. unfold components.
  now rewrite (split_path_app_slash p Hp), filter_app.
Qed.

(** X7.  Resolution goes component by component: resolving [p/q] is
    resolving [p] and then looking up the components of [q] one after the
    other from the inode [p] resolved to; a failure in [p] is the failure
    of the whole ([p] without NUL, and the components of both fitting in
    the token array). *)
Theorem resolve_in_two_steps :
  forall dev sb fuel p q,
    forallb (fun c => negb (Byte.eqb c x00)) p = true ->
    Z.of_nat (length (components p) + length (components q)) <= MAX_PATH_TOKS ->
    ext2_path_to_ino dev sb fuel (p ++ slash ++ q)
    = (ino <- ext2_path_to_ino dev sb fuel p ;;
       path_loop dev sb fuel (components q) ino).
Proof.
  intros dev sb fuel p q Hp Hlen. unfold ext2_path_to_ino.
  rewrite !get_toks_total, (components_app_slash p q Hp), length_app.
  replace (_ <=? MAX_PATH_TOKS) with true
    by (symmetry; apply Z.leb_le; exact Hlen).
  replace (Z.of_nat (length (components p)) <=? MAX_PATH_TOKS) with true
    by (symmetry; apply Z.leb_le; lia).
  rewrite !bind_Ret. cbn [app].
  rewrite path_loop_app.
  destruct (path_loop dev sb fuel (components p) EXT2_ROOT_INO)
    as [i t| | |]; try reflexivity.
  cbn [bind]. destruct (path_loop dev sb fuel (components q) i); reflexivity.
Qed.

Lemma resolve_in_two_steps_witness :
  ext2_path_to_ino Sample.image Sample.sb 4
    (Sample.str "/." ++ slash ++ Sample.str "hello.txt")
  = (ino <- ext2_path_to_ino Sample.image Sample.sb 4 (Sample.str "/.") ;;
     path_loop Sample.image Sample.sb 4
       (components (Sample.str "hello.txt")) ino).
Proof.
  apply (resolve_in_two_steps Sample.image Sample.sb 4 (Sample.str "/.")
           (Sample.str "hello.txt")).
  - reflexivity.
  - vm_compute. discriminate.
Defined.

(** ** What a lookup can return *)

Lemma cells_length buf : forall bs, cells buf = Some bs -> length bs = length buf.
Proof.
  induction buf as [|[b|] buf IH]; intros bs H; cbn [cells] in H.
  - now inversion H.
  - destruct (cells buf) as [bs'|]; [|discriminate].
    inversion H; subst. cbn [length]. now rewrite (IH bs' eq_refl).
  - discriminate.
Qed.

Lemma member_bound buf off len z :
  member buf off len = Some z -> 0 <= z < 256 ^ Z.of_nat len.
Proof.
  unfold member. destruct (Nat.eqb _ len) eqn:E; [|discriminate].
  apply Nat.eqb_eq in E.
  destruct (cells (firstn len (skipn off buf))) as [bs|] eqn:Ec;
    [|discriminate].
  cbn [option_map]. intros H; inversion H; subst.
  apply cells_length in Ec. rewrite E in Ec.
  split; [apply le_val_nonneg|]. rewrite <- Ec. apply le_val_bound.
Qed.

Lemma dir_search_loop_range dev sb nxt_arg blk_off :
  forall fuel i dir_ent r tr,
    dir_search_loop dev sb fuel blk_off nxt_arg i dir_ent = Ret r tr ->
    0 <= r < 2 ^ 32.
Proof.
  induction fuel as [|fuel IH]; intros i dir_ent r tr H;
    cbn [dir_search_loop] in H; [discriminate|].
  destruct (i <? EXT2_BLOCK_SIZE sb).
  - apply bind_Ret_inv in H as (d & t1 & t2 & _ & H & _).
    apply bind_Ret_inv in H as (nl & t3 & t4 & _ & H & _).
    apply bind_Ret_inv in H as (c & t5 & t6 & _ & H & _).
    destruct (c =? 0).
    + apply defined_Ret_inv in H as (H & _).
      apply member_bound in H. exact H.
    + apply bind_Ret_inv in H as (rl & t7 & t8 & _ & H & _). eauto.
  - apply ret_Ret_inv in H as (<- & _). unfold EXT2_BAD_INO. lia.
Qed.

Lemma indir_search_loop_range dev search blk_off :
  (forall a r tr, search a = Ret r tr -> 0 <= r < 2 ^ 32) ->
  forall n i buf r tr,
    indir_search_loop dev search blk_off n i buf = Ret r tr ->
    r = EXT2_BAD_INO \/ EXT2_BAD_INO < r < 2 ^ 32.
Proof.
  intros Hs. induction n as [|n IH]; intros i buf r tr H;
    cbn [indir_search_loop] in H.
  - apply ret_Ret_inv in H as (<- & _). now left.
  - apply bind_Ret_inv in H as (d & t1 & t2 & _ & H & _).
    apply bind_Ret_inv in H as (a & t3 & t4 & _ & H & _).
    destruct (a =? 0).
    + apply ret_Ret_inv in H as (<- & _). now left.
    + apply bind_Ret_inv in H as (nxt & t5 & t6 & Hc & H & _).
      destruct (nxt >? EXT2_BAD_INO) eqn:E.
      * apply ret_Ret_inv in H as (<- & _). apply Hs in Hc.
        right. apply Z.gtb_lt in E. lia.
      * eauto.
Qed.

Lemma indir_search_below_range dev sb fuel nxt_arg :
  forall below blk_addr r tr,
    indir_search_below dev sb below fuel blk_addr nxt_arg = Ret r tr ->
    r = EXT2_BAD_INO \/ EXT2_BAD_INO < r < 2 ^ 32.
Proof.
  induction below as [|below IH]; intros blk_addr r tr H;
    cbn [indir_search_below] in H;
    eapply indir_search_loop_range; try exact H.
  - intros a r' tr' Ha. unfold _ext2_dir_search in Ha.
    apply bind_Ret_inv in Ha as (u & t1 & t2 & _ & Ha & _).
    eapply dir_search_loop_range; eauto.
  - intros a r' tr' Ha. apply IH in Ha. unfold EXT2_BAD_INO in *. lia.
Qed.

Lemma nxt_ino_loop_range dev sb fuel ino_st nxt_arg :
  forall n i r tr,
    nxt_ino_loop dev sb fuel ino_st nxt_arg n i = Ret r tr ->
    r = EXT2_BAD_INO \/ EXT2_BAD_INO < r < 2 ^ 32.
Proof.
  induction n as [|n IH]; intros i r tr H; cbn [nxt_ino_loop] in H.
  - apply ret_Ret_inv in H as (<- & _). now left.
  - apply bind_Ret_inv in H as (a & t1 & t2 & _ & H & _).
    destruct (a =? 0).
    + apply ret_Ret_inv in H as (<- & _). now left.
    + apply bind_Ret_inv in H as (nxt & t3 & t4 & Hc & H & _).
      destruct (nxt >? EXT2_BAD_INO) eqn:E; [|eauto].
      apply ret_Ret_inv in H as (<- & _). apply Z.gtb_lt in E.
      right. split; [lia|].
      unfold _ext2_indir_search in Hc.
      destruct (i <? EXT2_NDIR_BLOCKS).
      { unfold _ext2_dir_search in Hc.
        apply bind_Ret_inv in Hc as (u & t5 & t6 & _ & Hc & _).
        apply dir_search_loop_range in Hc. lia. }
      destruct (i =? EXT2_IND_BLOCK).
      { apply indir_search_below_range in Hc. lia. }
      destruct (i =? EXT2_DIND_BLOCK).
      { apply indir_search_below_range in Hc. lia. }
      destruct (i =? EXT2_TIND_BLOCK).
      { apply indir_search_below_range in Hc. lia. }
      discriminate.
Qed.

Lemma nxt_ino_range dev sb fuel ino nxt_arg r tr :
  _ext2_nxt_ino dev sb fuel ino nxt_arg = Ret r tr ->
  r = EXT2_BAD_INO \/ EXT2_BAD_INO < r < 2 ^ 32.
Proof.
  unfold _ext2_nxt_ino. intros H.
  apply bind_Ret_inv in H as (st & t1 & t2 & _ & H & _).
  apply bind_Ret_inv in H as (mode & t3 & t4 & _ & H & _).
  destruct (negb (EXT2_IS_INODE_DIR mode)); [discriminate|].
  eapply nxt_ino_loop_range; eauto.
Qed.

Lemma path_loop_range dev sb fuel toks :
  forall ino0 ino tr,
    EXT2_ROOT_INO <= ino0 < 2 ^ 32 ->
    path_loop dev sb fuel toks ino0 = Ret ino tr ->
    EXT2_ROOT_INO <= ino < 2 ^ 32.
Proof.
  induction toks as [|tok toks IH]; intros ino0 ino tr H0 H;
    cbn [path_loop] in H.
  - apply ret_Ret_inv in H as (<- & _). exact H0.
  - apply bind_Ret_inv in H as (r & t1 & t2 & Hr & H & _).
    destruct (r <? EXT2_ROOT_INO) eqn:E; [discriminate|].
    apply Z.ltb_ge in E. apply nxt_ino_range in Hr.
    eapply IH; [|exact H]. unfold EXT2_BAD_INO, EXT2_ROOT_INO in *. lia.
Qed.

(** X8.  A lookup in a directory returns either [EXT2_BAD_INO] (1), its
    only "not found" value, or an inode number above 1 that fits in 32
    bits; it never returns 0, even when an entry scan met an unused entry.
    So every inode number that resolution passes on or returns lies
    between 2 and [2^32 - 1], and the loader's [ino - 1] does not wrap on
    it. *)
Theorem lookup_results_are_inode_numbers :
  forall dev sb fuel,
    (forall ino nxt_arg r tr,
        _ext2_nxt_ino dev sb fuel ino nxt_arg = Ret r tr ->
        r = EXT2_BAD_INO \/ EXT2_BAD_INO < r < 2 ^ 32) /\
    (forall blk_addr nxt_arg indir_level r tr,
        _ext2_indir_search dev sb fuel blk_addr nxt_arg indir_level = Ret r tr ->
        r = EXT2_BAD_INO \/ EXT2_BAD_INO < r < 2 ^ 32) /\
    (forall path ino tr,
        ext2_path_to_ino dev sb fuel path = Ret ino tr ->
        EXT2_ROOT_INO <= ino < 2 ^ 32 /\ u64 (ino - 1) = ino - 1).
Proof.
  intros dev sb fuel. split; [|split].
  - intros ino nxt_arg r tr. apply nxt_ino_range.
  - intros blk_addr nxt_arg lvl r tr. apply indir_search_below_range.
  - intros path ino tr H. unfold ext2_path_to_ino in H.
    apply bind_Ret_inv in H as (toks & t1 & t2 & _ & H & _).
    apply path_loop_range in H; [|unfold EXT2_ROOT_INO; lia].
    split; [exact H|]. unfold u64, EXT2_ROOT_INO in *.
    apply Z.mod_small. lia.
Qed.

Lemma lookup_results_are_inode_numbers_witness :
  _ext2_nxt_ino Sample.image_reused Sample.sb 4 2 (Sample.str "old")
  = Ret 1 [Read 2048 32; Read 4224 128; Leaf 3; Read 6144 264] /\
  (1 = EXT2_BAD_INO \/ EXT2_BAD_INO < 1 < 2 ^ 32).
Proof.
  assert (H : _ext2_nxt_ino Sample.image_reused Sample.sb 4 2
                (Sample.str "old")
              = Ret 1 [Read 2048 32; Read 4224 128; Leaf 3; Read 6144 264])
    by (vm_compute; reflexivity).
  split; [exact H|].
  exact (proj1 (lookup_results_are_inode_numbers Sample.image_reused
                  Sample.sb 4) _ _ _ _ H).
Defined.

(** ** Where the entry scans read *)

Lemma dir_search_loop_reads dev sb nxt_arg blk_off :
  0 <= blk_off -> blk_off + EXT2_BLOCK_SIZE sb <= 2 ^ 64 ->
  forall fuel i dir_ent r tr,
    0 <= i ->
    dir_search_loop dev sb fuel blk_off nxt_arg i dir_ent = Ret r tr ->
    Forall (read_in_block blk_off (EXT2_BLOCK_SIZE sb)) (reads_of tr).
Proof.
  intros H0 H1.
  induction fuel as [|fuel IH]; intros i dir_ent r tr Hi H;
    cbn [dir_search_loop] in H; [discriminate|].
  destruct (i <? EXT2_BLOCK_SIZE sb) eqn:E.
  - apply Z.ltb_lt in E.
    apply bind_Ret_inv in H as (d & t1 & t2 & Hrd & H & ->).
    apply ext2_read_Ret_inv in Hrd as (_ & _ & ->).
    unfold u64. rewrite Z.mod_small by lia.
    cbn [app reads_of flat_map]. fold (reads_of t2).
    constructor; [split; cbn [fst snd]; [lia|reflexivity]|].
    apply bind_Ret_inv in H as (nl & t3 & t4 & Hnl & H & ->).
    apply defined_Ret_inv in Hnl as (_ & ->).
    apply bind_Ret_inv in H as (c & t5 & t6 & Hc & H & ->).
    apply defined_Ret_inv in Hc as (_ & ->). cbn [app].
    destruct (c =? 0).
    + apply defined_Ret_inv in H as (_ & ->). constructor.
    + apply bind_Ret_inv in H as (rl & t7 & t8 & Hrl & H & ->).
      apply defined_Ret_inv in Hrl as (_ & ->). cbn [app].
      eapply IH; [|exact H]. unfold u32. apply Z.mod_pos_bound. lia.
  - apply ret_Ret_inv in H as (_ & ->). constructor.
Qed.

Lemma print_dir_loop_reads dev sb blk_off :
  0 <= blk_off -> blk_off + EXT2_BLOCK_SIZE sb <= 2 ^ 64 ->
  forall fuel i dir_ent tr,
    0 <= i ->
    print_dir_loop dev sb fuel blk_off i dir_ent = Ret tt tr ->
    Forall (read_in_block blk_off (EXT2_BLOCK_SIZE sb)) (reads_of tr).
Proof.
  intros H0 H1.
  induction fuel as [|fuel IH]; intros i dir_ent tr Hi H;
    cbn [print_dir_loop] in H; [discriminate|].
  destruct (i <? EXT2_BLOCK_SIZE sb) eqn:E.
  - apply Z.ltb_lt in E.
    apply bind_Ret_inv in H as (d & t1 & t2 & Hrd & H & ->).
    apply ext2_read_Ret_inv in Hrd as (_ & _ & ->).
    unfold u64. rewrite Z.mod_small by lia.
    cbn [app reads_of flat_map]. fold (reads_of t2).
    constructor; [split; cbn [fst snd]; [lia|reflexivity]|].
    apply bind_Ret_inv in H as (ino & t3 & t4 & Hi' & H & ->).
    apply defined_Ret_inv in Hi' as (_ & ->).
    apply bind_Ret_inv in H as (ft & t5 & t6 & Hft & H & ->).
    apply defined_Ret_inv in Hft as (_ & ->).
    apply bind_Ret_inv in H as (s & t7 & t8 & Hs & H & ->).
    apply defined_Ret_inv in Hs as (_ & ->).
    apply bind_Ret_inv in H as (nl & t9 & t10 & Hnl & H & ->).
    apply defined_Ret_inv in Hnl as (_ & ->).
    apply bind_Ret_inv in H as (u & t11 & t12 & He & H & ->).
    unfold emit in He. inversion He; subst.
    apply bind_Ret_inv in H as (rl & t13 & t14 & Hrl & H & ->).
    apply defined_Ret_inv in Hrl as (_ & ->). cbn [app reads_of flat_map].
    fold (reads_of t14).
    eapply IH; [|exact H]. unfold u32. apply Z.mod_pos_bound. lia.
  - apply ret_Ret_inv in H as (_ & ->). constructor.
Qed.

(** X9.  Whatever the block holds, each read of an entry scan (lookup or
    directory printer) starts inside the block it scans and asks for
    [sizeof(struct ext2_dir_entry_2)] bytes: a scan never starts a read
    before the block or at or after its end, though the last read may run
    up to 263 bytes past the end of the block. *)
Theorem entry_scans_read_inside_block :
  forall dev sb fuel blk_addr,
    valid_block_size sb ->
    0 <= blk_addr < 2 ^ 32 ->
    (forall nxt_arg r tr,
        _ext2_dir_search dev sb fuel blk_addr nxt_arg = Ret r tr ->
        Forall (read_in_block (blk_addr * EXT2_BLOCK_SIZE sb)
                  (EXT2_BLOCK_SIZE sb)) (reads_of tr)) /\
    (forall tr,
        _ext2_dir_print_dir dev sb fuel blk_addr = Ret tt tr ->
        Forall (read_in_block (blk_addr * EXT2_BLOCK_SIZE sb)
                  (EXT2_BLOCK_SIZE sb)) (reads_of tr)).
Proof.
  intros dev sb fuel blk_addr Hbs Hblk.
  apply valid_block_size_bounds in Hbs.
  assert (Hoff : u64 (blk_addr * EXT2_BLOCK_SIZE sb)
                 = blk_addr * EXT2_BLOCK_SIZE sb)
    by (unfold u64; apply Z.mod_small; nia).
  split.
  - intros nxt_arg r tr H. unfold _ext2_dir_search in H.
    apply bind_Ret_inv in H as (u & t1 & t2 & He & H & ->).
    unfold emit in He. inversion He; subst.
    cbn [app reads_of flat_map]. fold (reads_of t2). rewrite Hoff in H.
    eapply dir_search_loop_reads; [| | |exact H]; nia.
  - intros tr H. unfold _ext2_dir_print_dir in H. rewrite Hoff in H.
    eapply print_dir_loop_reads; [| | |exact H]; nia.
Qed.

Lemma entry_scans_read_inside_block_witness :
  valid_block_size Sample.sb /\
  Forall (read_in_block (3 * EXT2_BLOCK_SIZE Sample.sb)
            (EXT2_BLOCK_SIZE Sample.sb))
    (reads_of [Leaf 3; Read 6144 264; Read 6156 264; Read 6168 264]).
Proof.
  assert (Hv : valid_block_size Sample.sb) by (right; left; reflexivity).
  split; [exact Hv|].
  refine (proj1 (entry_scans_read_inside_block Sample.image Sample.sb 4 3
                   Hv _) (Sample.str "hello.txt") 12 _ _).
  - lia.
  - vm_compute. reflexivity.
Defined.

(** ** An entry whose [rec_len] is zero *)

Lemma total_rec_len_nonneg_ok ents :
  forallb dirent_ok ents = true -> 0 <= total_rec_len ents.
Proof.
  induction ents as [|e ents IH]; cbn [forallb total_rec_len fold_right];
    [lia|].
  intros H. apply andb_true_iff in H as (He & H).
  fold (total_rec_len ents). apply dirent_ok_inv in He. specialize (IH H). lia.
Qed.

(** One iteration of the lookup on an entry whose name does not agree. *)
Lemma dir_search_loop_miss dev sb fuel blk_off nxt_arg i buf e :
  i < EXT2_BLOCK_SIZE sb ->
  0 <= blk_off + i < 2 ^ 63 ->
  dirent_ok e = true ->
  dev_read dev (blk_off + i) (Z.of_nat (length (dirent_bytes e)))
  = dirent_bytes e ->
  name_agrees nxt_arg e = false ->
  name_fits nxt_arg e = true ->
  exists dir_ent,
    dir_search_loop dev sb (S fuel) blk_off nxt_arg i buf
    = (Ret tt [Read (blk_off + i) EXT2_DIR_ENTRY_SIZE] ;;;
       dir_search_loop dev sb fuel blk_off nxt_arg (u32 (i + d_rec_len e))
         dir_ent).
Proof.
  intros Hi Hoff Hok Hdev Hna Hfe. apply Nat.leb_le in Hfe.
  destruct (read_entry dev (blk_off + i) e buf Hoff Hok Hdev)
    as (dir_ent & rest & Hrd & Hino & Hrl & Hnl & Hft & Hname).
  exists dir_ent. cbn [dir_search_loop].
  apply Z.ltb_lt in Hi. rewrite Hi.
  unfold u64. rewrite Z.mod_small by lia.
  rewrite Hrd, !bind_Ret, Hnl. cbn [defined]. rewrite bind_ret.
  rewrite Nat2Z.id, Hname.
  pose proof (dirent_ok_inv e Hok) as (_ & _ & _ & _ & Hnul).
  destruct (memcmp_name (d_name e) Hnul nxt_arg rest Hfe) as (z & Hz & Hp).
  rewrite Hz. cbn [defined]. rewrite bind_ret.
  unfold name_agrees in Hna. rewrite Hp, Hna, Hrl.
  cbn [defined]. rewrite bind_ret. reflexivity.
Qed.

Lemma dir_search_loop_stuck dev sb blk_off nxt_arg e :
  0 <= blk_off -> blk_off + EXT2_BLOCK_SIZE sb <= 2 ^ 63 ->
  EXT2_BLOCK_SIZE sb < 2 ^ 32 ->
  d_rec_len e = 0 ->
  forall fuel ents o buf,
    0 <= o ->
    forallb dirent_ok (ents ++ [e]) = true ->
    entries_at dev (blk_off + o) (ents ++ [e]) ->
    existsb (name_agrees nxt_arg) (ents ++ [e]) = false ->
    forallb (name_fits nxt_arg) (ents ++ [e]) = true ->
    o + total_rec_len ents < EXT2_BLOCK_SIZE sb ->
    dir_search_loop dev sb fuel blk_off nxt_arg o buf = Timeout.
Proof.
  intros H0 H1 H2 Hz.
  induction fuel as [|fuel IH]; intros ents o buf Ho Hok Hat Hex Hfit Hlt;
    [reflexivity|].
  destruct ents as [|e' ents].
  - pose proof Hok as Hok'. pose proof Hat as Hat'. pose proof Hex as Hex'.
    pose proof Hfit as Hfit'.
    cbn [app forallb] in Hok'. apply andb_true_iff in Hok' as (Hoke & _).
    cbn [app entries_at] in Hat'. destruct Hat' as (Hdev & _).
    cbn [app existsb] in Hex'. apply orb_false_iff in Hex' as (Hna & _).
    cbn [app forallb] in Hfit'. apply andb_true_iff in Hfit' as (Hfe & _).
    cbn [total_rec_len fold_right] in Hlt.
    destruct (dir_search_loop_miss dev sb fuel blk_off nxt_arg o buf e)
      as (d & ->); try assumption; try lia.
    rewrite Hz, Z.add_0_r. unfold u32. rewrite Z.mod_small by lia.
    rewrite (IH [] o d); try assumption. reflexivity.
  - cbn [app forallb] in Hok. apply andb_true_iff in Hok as (Hoke & Hok).
    cbn [app entries_at] in Hat. destruct Hat as (Hdev & Hat).
    cbn [app existsb] in Hex. apply orb_false_iff in Hex as (Hna & Hex).
    cbn [app forallb] in Hfit. apply andb_true_iff in Hfit as (Hfe & Hfit).
    cbn [total_rec_len fold_right] in Hlt. fold (total_rec_len ents) in Hlt.
    assert (Hnn : 0 <= total_rec_len ents).
    { apply total_rec_len_nonneg_ok. rewrite forallb_app in Hok.
      now apply andb_true_iff in Hok as (Hok & _). }
    pose proof (dirent_ok_inv e' Hoke) as (_ & Hr & _).
    destruct (dir_search_loop_miss dev sb fuel blk_off nxt_arg o buf e')
      as (d & ->); try assumption; try lia.
    unfold u32. rewrite Z.mod_small by lia.
    rewrite (IH ents (o + d_rec_len e') d); try assumption; try lia.
    + reflexivity.
    + now rewrite Z.add_assoc.
Qed.

Lemma print_dir_loop_stuck dev sb blk_off e :
  0 <= blk_off -> blk_off + EXT2_BLOCK_SIZE sb <= 2 ^ 63 ->
  EXT2_BLOCK_SIZE sb < 2 ^ 32 ->
  d_rec_len e = 0 ->
  forall fuel ents o buf,
    0 <= o ->
    forallb dirent_ok (ents ++ [e]) = true ->
    entries_at dev (blk_off + o) (ents ++ [e]) ->
    known_types (ents ++ [e]) = true ->
    o + total_rec_len ents < EXT2_BLOCK_SIZE sb ->
    print_dir_loop dev sb fuel blk_off o buf = Timeout.
Proof.
  intros H0 H1 H2 Hz.
  induction fuel as [|fuel IH]; intros ents o buf Ho Hok Hat Hkn Hlt;
    [reflexivity|].
  destruct ents as [|e' ents].
  - pose proof Hok as Hok'. pose proof Hat as Hat'. pose proof Hkn as Hkn'.
    cbn [app forallb] in Hok'. apply andb_true_iff in Hok' as (Hoke & _).
    cbn [app entries_at] in Hat'. destruct Hat' as (Hdev & _).
    unfold known_types in Hkn'. cbn [app forallb] in Hkn'.
    apply andb_true_iff in Hkn' as (Hke & _). apply Z.ltb_lt in Hke.
    cbn [total_rec_len fold_right] in Hlt.
    destruct (ft_lookup_step dev sb fuel blk_off o buf e) as (d & ->);
      try assumption; try lia.
    destruct (ft_to_str_at_in_bounds (d_file_type e)) as (ft & ->).
    { pose proof (dirent_ok_inv e Hoke). lia. }
    rewrite Hz, Z.add_0_r. unfold u32. rewrite Z.mod_small by lia.
    rewrite (IH [] o d); try assumption. reflexivity.
  - cbn [app forallb] in Hok. apply andb_true_iff in Hok as (Hoke & Hok).
    cbn [app entries_at] in Hat. destruct Hat as (Hdev & Hat).
    unfold known_types in Hkn. cbn [app forallb] in Hkn.
    apply andb_true_iff in Hkn as (Hke & Hkn). apply Z.ltb_lt in Hke.
    cbn [total_rec_len fold_right] in Hlt. fold (total_rec_len ents) in Hlt.
    assert (Hnn : 0 <= total_rec_len ents).
    { apply total_rec_len_nonneg_ok. rewrite forallb_app in Hok.
      now apply andb_true_iff in Hok as (Hok & _). }
    pose proof (dirent_ok_inv e' Hoke) as (_ & Hr & _).
    destruct (ft_lookup_step dev sb fuel blk_off o buf e') as (d & ->);
      try assumption; try lia.
    destruct (ft_to_str_at_in_bounds (d_file_type e')) as (ft & ->).
    { pose proof (dirent_ok_inv e' Hoke). lia. }
    unfold u32. rewrite Z.mod_small by lia.
    rewrite (IH ents (o + d_rec_len e') d); try assumption; try lia.
    + reflexivity.
    + now rewrite Z.add_assoc.
Qed.

(** X10.  The entry scans advance by the [rec_len] they read and do not
    check it.  When a directory block holds, after entries [ents] that
    start inside the block, an entry whose [rec_len] is zero, the cursor
    stays on that entry: a lookup of a name that agrees with none of these
    entries, and in whose object their names fit ([name_len <= strlen + 1],
    so that no comparison reads past its end), does not return, whatever
    the number of iterations allowed, and neither does the directory
    printer when the file types are in the table. *)
Theorem zero_rec_len_entry_hangs_scans :
  forall dev sb blk_addr ents e,
    valid_block_size sb ->
    0 <= blk_addr < 2 ^ 32 ->
    forallb dirent_ok (ents ++ [e]) = true ->
    entries_at dev (blk_addr * EXT2_BLOCK_SIZE sb) (ents ++ [e]) ->
    total_rec_len ents < EXT2_BLOCK_SIZE sb ->
    d_rec_len e = 0 ->
    (forall nxt_arg,
        existsb (name_agrees nxt_arg) (ents ++ [e]) = false ->
        forallb (name_fits nxt_arg) (ents ++ [e]) = true ->
        forall fuel,
          _ext2_dir_search dev sb fuel blk_addr nxt_arg = Timeout) /\
    (known_types (ents ++ [e]) = true ->
     forall fuel, _ext2_dir_print_dir dev sb fuel blk_addr = Timeout).
Proof.
  intros dev sb blk_addr ents e Hbs Hblk Hok Hat Hlt Hz.
  apply valid_block_size_bounds in Hbs.
  assert (Hoff : u64 (blk_addr * EXT2_BLOCK_SIZE sb)
                 = blk_addr * EXT2_BLOCK_SIZE sb)
    by (unfold u64; apply Z.mod_small; nia).
  assert (H0 : 0 <= blk_addr * EXT2_BLOCK_SIZE sb) by nia.
  assert (H1 : blk_addr * EXT2_BLOCK_SIZE sb + EXT2_BLOCK_SIZE sb <= 2 ^ 63)
    by nia.
  assert (H2 : EXT2_BLOCK_SIZE sb < 2 ^ 32) by lia.
  split.
  - intros nxt_arg Hex Hfit fuel. unfold _ext2_dir_search. rewrite Hoff.
    rewrite (dir_search_loop_stuck dev sb _ nxt_arg e H0 H1 H2 Hz fuel ents 0);
      try assumption; try lia.
    + reflexivity.
    + now rewrite Z.add_0_r.
  - intros Hkn fuel. unfold _ext2_dir_print_dir. rewrite Hoff.
    apply (print_dir_loop_stuck dev sb _ e H0 H1 H2 Hz fuel ents 0);
      try assumption; try lia.
    now rewrite Z.add_0_r.
Qed.

Lemma zero_rec_len_entry_hangs_scans_witness :
  valid_block_size Sample.sb /\
  entries_at Damaged.image_stuck (3 * EXT2_BLOCK_SIZE Sample.sb)
    ([] ++ [Damaged.stuck_entry]) /\
  _ext2_dir_search Damaged.image_stuck Sample.sb 1000 3 (Sample.str "x")
  = Timeout /\
  _ext2_dir_print_dir Damaged.image_stuck Sample.sb 1000 3 = Timeout.
Proof.
  assert (Hv : valid_block_size Sample.sb) by (right; left; reflexivity).
  assert (Hat : entries_at Damaged.image_stuck
                  (3 * EXT2_BLOCK_SIZE Sample.sb)
                  ([] ++ [Damaged.stuck_entry]))
    by (vm_compute; repeat split).
  assert (Hr : 0 <= 3 < 2 ^ 32) by lia.
  assert (Hlt : total_rec_len [] < EXT2_BLOCK_SIZE Sample.sb)
    by (vm_compute; reflexivity).
  pose proof (zero_rec_len_entry_hangs_scans Damaged.image_stuck Sample.sb 3
                [] Damaged.stuck_entry Hv Hr eq_refl Hat Hlt eq_refl)
    as (Hs & Hp).
  split; [exact Hv|]. split; [exact Hat|]. split.
  - apply Hs; reflexivity.
  - apply Hp. reflexivity.
Defined.

(** ** What the directory printer shows *)

Lemma dirents_of_app t1 t2 :
  dirents_of (t1 ++ t2) = dirents_of t1 ++ dirents_of t2.
Proof. apply flat_map_app. Qed.

Lemma dirents_of_print_dir_events blk_off ents :
  forall o,
    dirents_of (print_dir_events blk_off o ents) = map dirent_line ents.
Proof.
  induction ents as [|e ents IH]; intros o; [reflexivity|].
  cbn [print_dir_events dirents_of flat_map map app].
  fold (dirents_of (print_dir_events blk_off (o + d_rec_len e) ents)).
  now rewrite IH.
Qed.

Lemma leaves_of_print_dir_events blk_off ents :
  forall o,
    leaves_of (print_dir_events blk_off o ents) = [] /\
    chars_of (print_dir_events blk_off o ents) = [].
Proof.
  induction ents as [|e ents IH]; intros o; [now split|].
  cbn [print_dir_events]. apply (IH (o + d_rec_len e)).
Qed.

Lemma length_entry_offsets ents :
  forall o, length (entry_offsets o ents) = length ents.
Proof.
  induction ents as [|e ents IH]; intros o; [reflexivity|].
  cbn [entry_offsets length]. f_equal. apply IH.
Qed.

(** The two scans on a block that satisfies the on-disk invariant. *)
Lemma dir_print_dir_block dev sb blk_addr ents fuel :
  valid_block_size sb ->
  0 <= blk_addr < 2 ^ 32 ->
  dir_block dev sb blk_addr ents ->
  known_types ents = true ->
  (length ents < fuel)%nat ->
  _ext2_dir_print_dir dev sb fuel blk_addr
  = Ret tt (print_dir_events (blk_addr * EXT2_BLOCK_SIZE sb) 0 ents).
Proof.
  intros Hbs Hblk (Hok & Hat & Hpos & Hsum) Hkn Hfuel.
  apply valid_block_size_bounds in Hbs.
  assert (Hoff : u64 (blk_addr * EXT2_BLOCK_SIZE sb)
                 = blk_addr * EXT2_BLOCK_SIZE sb)
    by (unfold u64; apply Z.mod_small; nia).
  unfold _ext2_dir_print_dir. rewrite Hoff.
  apply print_dir_loop_spec; try assumption; try lia; try nia.
  now rewrite Z.add_0_r.
Qed.

Lemma dir_search_block dev sb blk_addr ents nxt_arg fuel :
  valid_block_size sb ->
  0 <= blk_addr < 2 ^ 32 ->
  dir_block dev sb blk_addr ents ->
  (length ents < fuel)%nat ->
  names_fit nxt_arg ents = true ->
  _ext2_dir_search dev sb fuel blk_addr nxt_arg
  = Ret (search_result nxt_arg ents)
        (Leaf blk_addr
         :: map (fun c => Read (blk_addr * EXT2_BLOCK_SIZE sb + c)
                            EXT2_DIR_ENTRY_SIZE)
              (search_offsets nxt_arg 0 ents)).
Proof.
  intros Hbs Hblk (Hok & Hat & Hpos & Hsum) Hfuel Hfit.
  apply valid_block_size_bounds in Hbs.
  assert (Hoff : u64 (blk_addr * EXT2_BLOCK_SIZE sb)
                 = blk_addr * EXT2_BLOCK_SIZE sb)
    by (unfold u64; apply Z.mod_small; nia).
  unfold _ext2_dir_search. rewrite Hoff.
  rewrite (dir_search_loop_spec dev sb (blk_addr * EXT2_BLOCK_SIZE sb))
    with (ents := ents); try assumption; try lia; try nia.
  - reflexivity.
  - now rewrite Z.add_0_r.
Qed.

(** X11.  On a directory block that satisfies the on-disk invariant and
    whose file types are in the table, [_ext2_dir_print_dir] shows exactly
    one line per entry, in the order of the block: the entry's inode
    number, the string of its file type and the [name_len] bytes of its
    name.  It shows unused entries (inode 0) like any other, and shows
    nothing else. *)
Theorem dir_printer_lists_every_entry :
  forall dev sb blk_addr ents fuel,
    valid_block_size sb ->
    0 <= blk_addr < 2 ^ 32 ->
    dir_block dev sb blk_addr ents ->
    known_types ents = true ->
    (length ents < fuel)%nat ->
    exists tr,
      _ext2_dir_print_dir dev sb fuel blk_addr = Ret tt tr /\
      dirents_of tr = map dirent_line ents /\
      chars_of tr = [] /\
      length (reads_of tr) = length ents.
Proof.
  intros dev sb blk_addr ents fuel Hbs Hblk Hdb Hkn Hfuel.
  exists (print_dir_events (blk_addr * EXT2_BLOCK_SIZE sb) 0 ents).
  split; [now apply dir_print_dir_block|].
  split; [apply dirents_of_print_dir_events|].
  split; [apply leaves_of_print_dir_events|].
  rewrite reads_of_print_dir_events. unfold entry_reads.
  rewrite length_map. apply length_entry_offsets.
Qed.

Lemma dir_printer_lists_every_entry_witness :
  dir_block Sample.image Sample.sb 3 Sample.root_entries /\
  exists tr,
    _ext2_dir_print_dir Sample.image Sample.sb 4 3 = Ret tt tr /\
    dirents_of tr = map dirent_line Sample.root_entries /\
    chars_of tr = [] /\
    length (reads_of tr) = length Sample.root_entries.
Proof.
  split; [exact sample_root_dir_block|].
  apply (dir_printer_lists_every_entry Sample.image Sample.sb 3
           Sample.root_entries 4).
  - right; left; reflexivity.
  - lia.
  - exact sample_root_dir_block.
  - reflexivity.
  - simpl; lia.
Defined.

(** ** Directories of one block *)

Lemma search_result_first_agreeing nxt_arg ents :
  search_result nxt_arg ents
  = match first_agreeing nxt_arg ents with
    | Some e => d_inode e
    | None => EXT2_BAD_INO
    end.
Proof.
  induction ents as [|e ents IH]; [reflexivity|].
  cbn [search_result first_agreeing].
  destruct (name_agrees nxt_arg e); [reflexivity|exact IH].
Qed.

Lemma leaves_of_map_Read (f : Z -> Z) size os :
  leaves_of (map (fun c => Read (f c) size) os) = [].
Proof. induction os as [|o os IH]; [reflexivity|exact IH]. Qed.

Lemma i_block_bound ino_st i blk :
  i_block ino_st i = Some blk -> 0 <= blk < 2 ^ 32.
Proof.
  unfold i_block. intros H. apply member_bound in H.
  assert (E : 256 ^ Z.of_nat 4 = 2 ^ 32) by reflexivity.
  rewrite E in H. exact H.
Qed.

Lemma is_dir_not_reg mode :
  EXT2_IS_INODE_DIR mode = true -> EXT2_IS_INODE_REG_FILE mode = false.
Proof.
  unfold EXT2_IS_INODE_DIR, EXT2_IS_INODE_REG_FILE.
  intros H. apply Z.eqb_eq in H. rewrite H. reflexivity.
Qed.

(** X12.  A lookup in a directory whose only data block satisfies the
    on-disk invariant, for an argument in whose object the names it is
    compared with fit ([name_len <= strlen + 1], so that no comparison
    reads past its end), visits that block alone and is decided by the first
    entry whose name agrees with the argument: the result is that entry's
    inode number when it is above 1, and [EXT2_BAD_INO] otherwise, also
    when a later entry of the block carries the same name and a live inode.
    When no name agrees the result is [EXT2_BAD_INO]. *)
Theorem one_block_dir_lookup :
  forall dev sb ino blk ents nxt_arg fuel,
    valid_block_size sb ->
    one_block_dir dev sb ino blk ->
    dir_block dev sb blk ents ->
    (length ents < fuel)%nat ->
    names_fit nxt_arg ents = true ->
    exists tr,
      _ext2_nxt_ino dev sb fuel ino nxt_arg
      = Ret (match first_agreeing nxt_arg ents with
             | Some e =>
                 if d_inode e >? EXT2_BAD_INO then d_inode e
                 else EXT2_BAD_INO
             | None => EXT2_BAD_INO
             end) tr /\
      leaves_of tr = [blk] /\
      length (reads_of tr)
      = (2 + length (search_offsets nxt_arg 0 ents))%nat.
Proof.
  intros dev sb ino blk ents nxt_arg fuel Hbs
    (ino_st & t & mode & Hld & Hmode & Hd & Hb0 & Hnz & Hb1) Hdb Hfuel Hfit.
  pose proof (i_block_bound _ _ _ Hb0) as Hblk.
  pose proof (dir_search_block dev sb blk ents nxt_arg fuel Hbs Hblk Hdb Hfuel
                Hfit) as Hs.
  pose proof (ino_to_ino_st_trace _ _ _ _ _ _ Hld) as (Hl & _ & _ & Hr).
  unfold _ext2_nxt_ino. rewrite Hld, bind_Ret, Hmode. cbn [defined].
  rewrite bind_ret, Hd. cbn [negb].
  change (Z.to_nat EXT2_N_BLOCKS) with (S (S 13)).
  generalize 13%nat; intros n. cbn [nxt_ino_loop].
  rewrite Hb0. cbn [defined]. rewrite bind_ret.
  rewrite (proj2 (Z.eqb_neq _ _) Hnz).
  change (0 <? EXT2_NDIR_BLOCKS) with true. cbv iota.
  rewrite Hs, bind_Ret.
  change (0 + 1) with 1. rewrite Hb1. cbn [defined]. rewrite bind_ret.
  change (0 =? 0) with true. cbv iota.
  rewrite search_result_first_agreeing.
  set (tr1 := Leaf blk :: _).
  assert (Hl1 : leaves_of tr1 = [blk]).
  { unfold tr1. cbn [leaves_of flat_map app]. f_equal.
    apply leaves_of_map_Read. }
  assert (Hr1 : length (reads_of tr1)
                = length (search_offsets nxt_arg 0 ents)).
  { unfold tr1. cbn [reads_of flat_map app].
    fold (reads_of (map (fun c => Read (blk * EXT2_BLOCK_SIZE sb + c)
                                   EXT2_DIR_ENTRY_SIZE)
                      (search_offsets nxt_arg 0 ents))).
    rewrite reads_of_map_Read. apply length_map. }
  assert (Hfin : forall r : Z,
             exists tr, Ret r (t ++ tr1 ++ []) = Ret r tr /\
                        leaves_of tr = [blk] /\
                        length (reads_of tr)
                        = (2 + length (search_offsets nxt_arg 0 ents))%nat).
  { intros r. eexists. split; [reflexivity|].
    rewrite app_nil_r, leaves_of_app, reads_of_app, length_app, Hl, Hl1, Hr,
      Hr1. split; reflexivity. }
  destruct (first_agreeing nxt_arg ents) as [e|].
  - destruct (d_inode e >? EXT2_BAD_INO); unfold ret; cbv iota; apply Hfin.
  - change (EXT2_BAD_INO >? EXT2_BAD_INO) with false. unfold ret; cbv iota.
    apply Hfin.
Qed.

Lemma one_block_dir_lookup_witness :
  one_block_dir Sample.image_reused Sample.sb 2 3 /\
  dir_block Sample.image_reused Sample.sb 3 Sample.reused_entries /\
  first_agreeing (Sample.str "old") Sample.reused_entries
  = Some (mk_dirent 0 12 1 (Sample.str "old")) /\
  exists tr,
    _ext2_nxt_ino Sample.image_reused Sample.sb 3 2 (Sample.str "old")
    = Ret EXT2_BAD_INO tr /\
    leaves_of tr = [3] /\
    length (reads_of tr) = 3%nat.
Proof.
  assert (Hv : valid_block_size Sample.sb) by (right; left; reflexivity).
  assert (Hd : one_block_dir Sample.image_reused Sample.sb 2 3).
  { pose (o := _ext2_ino_to_ino_st Sample.image_reused Sample.sb 2
                 (uninit sizeof_ext2_inode)).
    exists (match o with Ret st _ => st | _ => [] end),
           (match o with Ret _ t => t | _ => [] end), 0x41ED.
    split; [vm_compute; reflexivity|].
    split; [vm_compute; reflexivity|].
    split; [reflexivity|].
    split; [vm_compute; reflexivity|].
    split; [discriminate|vm_compute; reflexivity]. }
  assert (Hb : dir_block Sample.image_reused Sample.sb 3 Sample.reused_entries).
  { split; [reflexivity|]. split; [vm_compute; repeat split|].
    split; [repeat constructor|reflexivity]. }
  split; [exact Hd|]. split; [exact Hb|]. split; [reflexivity|].
  apply (one_block_dir_lookup Sample.image_reused Sample.sb 2 3
           Sample.reused_entries (Sample.str "old") 3 Hv Hd Hb).
  - simpl; lia.
  - reflexivity.
Defined.

(** X13.  Printing the data of a directory whose only data block satisfies
    the on-disk invariant (file types in the table) shows the entries of
    that block, one line each in block order, and no file content. *)
Theorem one_block_dir_listing :
  forall dev sb ino blk ents fuel,
    valid_block_size sb ->
    one_block_dir dev sb ino blk ->
    dir_block dev sb blk ents ->
    known_types ents = true ->
    (length ents < fuel)%nat ->
    exists tr,
      _ext2_print_ino_data dev sb fuel ino = Ret tt tr /\
      dirents_of tr = map dirent_line ents /\
      chars_of tr = [] /\
      leaves_of tr = [blk].
Proof.
  intros dev sb ino blk ents fuel Hbs
    (ino_st & t & mode & Hld & Hmode & Hd & Hb0 & Hnz & Hb1) Hdb Hkn Hfuel.
  pose proof (i_block_bound _ _ _ Hb0) as Hblk.
  pose proof (dir_print_dir_block dev sb blk ents fuel Hbs Hblk Hdb Hkn Hfuel)
    as Hp.
  pose proof (ino_to_ino_st_trace _ _ _ _ _ _ Hld) as (Hl & Hc & Hde & _).
  unfold _ext2_print_ino_data. rewrite Hld, bind_Ret, Hmode. cbn [defined].
  rewrite bind_ret, (is_dir_not_reg mode Hd), Hd, bind_ret.
  change (Z.to_nat EXT2_N_BLOCKS) with (S (S 13)).
  generalize 13%nat; intros n. cbn [print_ino_data_loop].
  rewrite Hb0. cbn [defined]. rewrite bind_ret.
  rewrite (proj2 (Z.eqb_neq _ _) Hnz).
  change (0 <? EXT2_NDIR_BLOCKS) with true. cbv iota.
  unfold _ext2_dir_print, emit.
  change (EXT2_FT_DIR =? EXT2_FT_REG_FILE) with false.
  change (EXT2_FT_DIR =? EXT2_FT_DIR) with true. cbv iota.
  rewrite Hp, !bind_Ret.
  change (0 + 1) with 1. rewrite Hb1. cbn [defined]. rewrite bind_ret.
  change (0 =? 0) with true. cbv iota. unfold ret. cbv iota.
  eexists. split; [reflexivity|].
  pose proof (leaves_of_print_dir_events (blk * EXT2_BLOCK_SIZE sb) ents 0)
    as (Hl2 & Hc2).
  rewrite !app_nil_r.
  rewrite dirents_of_app, chars_of_app, leaves_of_app, Hl, Hc, Hde.
  cbn [app dirents_of chars_of leaves_of flat_map].
  fold (dirents_of (print_dir_events (blk * EXT2_BLOCK_SIZE sb) 0 ents)).
  fold (chars_of (print_dir_events (blk * EXT2_BLOCK_SIZE sb) 0 ents)).
  fold (leaves_of (print_dir_events (blk * EXT2_BLOCK_SIZE sb) 0 ents)).
  rewrite Hl2, Hc2, dirents_of_print_dir_events. repeat split.
Qed.

Lemma one_block_dir_listing_witness :
  one_block_dir Sample.image Sample.sb 2 3 /\
  exists tr,
    _ext2_print_ino_data Sample.image Sample.sb 4 2 = Ret tt tr /\
    dirents_of tr = map dirent_line Sample.root_entries /\
    chars_of tr = [] /\
    leaves_of tr = [3].
Proof.
  assert (Hv : valid_block_size Sample.sb) by (right; left; reflexivity).
  assert (Hd : one_block_dir Sample.image Sample.sb 2 3).
  { pose (o := _ext2_ino_to_ino_st Sample.image Sample.sb 2
                 (uninit sizeof_ext2_inode)).
    exists (match o with Ret st _ => st | _ => [] end),
           (match o with Ret _ t => t | _ => [] end), 0x41ED.
    split; [vm_compute; reflexivity|].
    split; [vm_compute; reflexivity|].
    split; [reflexivity|].
    split; [vm_compute; reflexivity|].
    split; [discriminate|vm_compute; reflexivity]. }
  split; [exact Hd|].
  apply (one_block_dir_listing Sample.image Sample.sb 2 3 Sample.root_entries
           4 Hv Hd sample_root_dir_block).
  - reflexivity.
  - simpl; lia.
Defined.

(** ** The lookup and the printer walk the same blocks *)

Section SameWalk.

Variable dev : list byte.

Lemma indir_loops_agree search print blk_off :
  walks_agree search print ->
  forall n i buf r t1 t2,
    indir_search_loop dev search blk_off n i buf = Ret r t1 ->
    indir_print_loop dev print blk_off n i buf = Ret tt t2 ->
    exists rest,
      leaves_of t2 = leaves_of t1 ++ rest /\
      ((r >? EXT2_BAD_INO) = false -> rest = []).
Proof.
  intros Hw. induction n as [|n IH]; intros i buf r t1 t2 Hs Hp;
    cbn [indir_search_loop indir_print_loop] in Hs, Hp.
  - apply ret_Ret_inv in Hs as (_ & ->). apply ret_Ret_inv in Hp as (_ & ->).
    now exists [].
  - apply bind_Ret_inv in Hs as (b1 & s1 & s2 & Hrd1 & Hs & ->).
    apply bind_Ret_inv in Hp as (b2 & p1 & p2 & Hrd2 & Hp & ->).
    rewrite Hrd1 in Hrd2. inversion Hrd2; subst b2 p1. clear Hrd2.
    apply ext2_read_Ret_inv in Hrd1 as (_ & _ & ->).
    apply bind_Ret_inv in Hs as (a & s3 & s4 & Ha1 & Hs & ->).
    apply bind_Ret_inv in Hp as (a' & p3 & p4 & Ha2 & Hp & ->).
    rewrite Ha1 in Ha2. inversion Ha2; subst a' p3. clear Ha2.
    apply defined_Ret_inv in Ha1 as (_ & ->).
    cbn [app leaves_of flat_map]. fold (leaves_of s4). fold (leaves_of p4).
    destruct (a =? 0).
    + apply ret_Ret_inv in Hs as (_ & ->).
      apply ret_Ret_inv in Hp as (_ & ->). now exists [].
    + apply bind_Ret_inv in Hs as (nxt & s5 & s6 & Hc1 & Hs & ->).
      apply bind_Ret_inv in Hp as (u & p5 & p6 & Hc2 & Hp & ->).
      destruct u.
      destruct (Hw a nxt s5 p5 Hc1 Hc2) as (rest & Hrest & Hnil).
      rewrite !leaves_of_app, Hrest.
      destruct (nxt >? EXT2_BAD_INO) eqn:E.
      * apply ret_Ret_inv in Hs as (<- & ->).
        exists (rest ++ leaves_of p6). split.
        -- cbn [leaves_of flat_map]. now rewrite app_nil_r, app_assoc.
        -- intros E'. rewrite E in E'. discriminate.
      * destruct (IH _ _ _ _ _ Hs Hp) as (rest' & Hrest' & Hnil').
        rewrite (Hnil eq_refl), app_nil_r, Hrest'.
        exists rest'. split; [now rewrite app_assoc|exact Hnil'].
Qed.

Variable sb : list byte.
Variables fuel1 fuel2 : nat.
Variable nxt_arg : list byte.
Variable file_type : Z.

Lemma dir_walks_agree :
  walks_agree (fun a => _ext2_dir_search dev sb fuel1 a nxt_arg)
              (fun a => _ext2_dir_print dev sb fuel2 a file_type).
Proof.
  intros a r t1 t2 Hs Hp.
  apply dir_search_leaves in Hs. apply dir_print_leaves in Hp.
  exists []. rewrite Hs, Hp. now split.
Qed.

Lemma indir_below_walks_agree :
  forall below,
    walks_agree (fun a => indir_search_below dev sb below fuel1 a nxt_arg)
                (fun a => indir_print_below dev sb below fuel2 a file_type).
Proof.
  induction below as [|below IH]; intros a r t1 t2 Hs Hp;
    cbn [indir_search_below indir_print_below] in Hs, Hp;
    eapply indir_loops_agree; try exact Hs; try exact Hp.
  - exact dir_walks_agree.
  - exact IH.
Qed.

Lemma ino_loops_agree ino_st :
  forall n i r t1 t2,
    nxt_ino_loop dev sb fuel1 ino_st nxt_arg n i = Ret r t1 ->
    print_ino_data_loop dev sb fuel2 ino_st file_type n i = Ret tt t2 ->
    exists rest,
      leaves_of t2 = leaves_of t1 ++ rest /\
      ((r >? EXT2_BAD_INO) = false -> rest = []).
Proof.
  induction n as [|n IH]; intros i r t1 t2 Hs Hp;
    cbn [nxt_ino_loop print_ino_data_loop] in Hs, Hp.
  - apply ret_Ret_inv in Hs as (_ & ->). apply ret_Ret_inv in Hp as (_ & ->).
    now exists [].
  - apply bind_Ret_inv in Hs as (a & s3 & s4 & Ha1 & Hs & ->).
    apply bind_Ret_inv in Hp as (a' & p3 & p4 & Ha2 & Hp & ->).
    rewrite Ha1 in Ha2. inversion Ha2; subst a' p3. clear Ha2.
    apply defined_Ret_inv in Ha1 as (_ & ->). cbn [app].
    destruct (a =? 0).
    + apply ret_Ret_inv in Hs as (_ & ->).
      apply ret_Ret_inv in Hp as (_ & ->). now exists [].
    + apply bind_Ret_inv in Hs as (nxt & s5 & s6 & Hc1 & Hs & ->).
      apply bind_Ret_inv in Hp as (u & p5 & p6 & Hc2 & Hp & ->).
      destruct u.
      assert (Hw : exists rest,
                 leaves_of p5 = leaves_of s5 ++ rest /\
                 ((nxt >? EXT2_BAD_INO) = false -> rest = [])).
      { unfold _ext2_indir_search, _ext2_indir_print in Hc1, Hc2.
        destruct (i <? EXT2_NDIR_BLOCKS);
          [exact (dir_walks_agree _ _ _ _ Hc1 Hc2)|].
        destruct (i =? EXT2_IND_BLOCK);
          [exact (indir_below_walks_agree _ _ _ _ _ Hc1 Hc2)|].
        destruct (i =? EXT2_DIND_BLOCK);
          [exact (indir_below_walks_agree _ _ _ _ _ Hc1 Hc2)|].
        destruct (i =? EXT2_TIND_BLOCK);
          [exact (indir_below_walks_agree _ _ _ _ _ Hc1 Hc2)|].
        discriminate. }
      destruct Hw as (rest & Hrest & Hnil).
      rewrite !leaves_of_app, Hrest.
      destruct (nxt >? EXT2_BAD_INO) eqn:E.
      * apply ret_Ret_inv in Hs as (<- & ->).
        exists (rest ++ leaves_of p6). split.
        -- cbn [leaves_of flat_map]. now rewrite app_nil_r, app_assoc.
        -- intros E'. rewrite E in E'. discriminate.
      * destruct (IH _ _ _ _ Hs Hp) as (rest' & Hrest' & Hnil').
        rewrite (Hnil eq_refl), app_nil_r, Hrest'.
        exists rest'. split; [now rewrite app_assoc|exact Hnil'].
Qed.

End SameWalk.

(** X14.  The lookup and the data printer walk the blocks of a directory
    in the same order.  When a lookup in inode [ino] and the printing of
    its data both return, the data blocks the lookup visited are the first
    of those the printer visits, in the same order; a lookup that does not
    find the name (result [EXT2_BAD_INO]) visited all of them. *)
Theorem lookup_walks_the_printed_blocks :
  forall dev sb fuel1 fuel2 ino nxt_arg r t1 t2,
    _ext2_nxt_ino dev sb fuel1 ino nxt_arg = Ret r t1 ->
    _ext2_print_ino_data dev sb fuel2 ino = Ret tt t2 ->
    exists rest,
      leaves_of t2 = leaves_of t1 ++ rest /\
      (r = EXT2_BAD_INO -> rest = []).
Proof.
  intros dev sb fuel1 fuel2 ino nxt_arg r t1 t2 Hs Hp.
  unfold _ext2_nxt_ino in Hs. unfold _ext2_print_ino_data in Hp.
  apply bind_Ret_inv in Hs as (st & s1 & s2 & Hld1 & Hs & ->).
  apply bind_Ret_inv in Hp as (st' & p1 & p2 & Hld2 & Hp & ->).
  rewrite Hld1 in Hld2. inversion Hld2; subst st' p1. clear Hld2.
  apply bind_Ret_inv in Hs as (mode & s3 & s4 & Hm1 & Hs & ->).
  apply bind_Ret_inv in Hp as (mode' & p3 & p4 & Hm2 & Hp & ->).
  rewrite Hm1 in Hm2. inversion Hm2; subst mode' p3. clear Hm2.
  apply defined_Ret_inv in Hm1 as (_ & ->).
  destruct (negb (EXT2_IS_INODE_DIR mode)); [discriminate|].
  apply bind_Ret_inv in Hp as (ft & p5 & p6 & Hft & Hp & ->).
  assert (Hp5 : p5 = []).
  { destruct (EXT2_IS_INODE_REG_FILE mode);
      [now apply ret_Ret_inv in Hft|].
    destruct (EXT2_IS_INODE_DIR mode);
      [now apply ret_Ret_inv in Hft|discriminate]. }
  subst p5.
  destruct (ino_loops_agree dev sb fuel1 fuel2 nxt_arg ft st _ _ _ _ _ Hs Hp)
    as (rest & Hrest & Hnil).
  exists rest. cbn [app]. rewrite !leaves_of_app, Hrest.
  split; [now rewrite app_assoc|].
  intros ->. apply Hnil. reflexivity.
Qed.

Lemma lookup_walks_the_printed_blocks_witness :
  exists t1 t2 rest,
    _ext2_nxt_ino Sample.image_sparse Sample.sb 4 13 (Sample.str "x")
    = Ret EXT2_BAD_INO t1 /\
    _ext2_print_ino_data Sample.image_sparse Sample.sb 4 13 = Ret tt t2 /\
    leaves_of t2 = leaves_of t1 ++ rest /\
    rest = [].
Proof.
  pose (o1 := _ext2_nxt_ino Sample.image_sparse Sample.sb 4 13
                (Sample.str "x")).
  pose (t1 := match o1 with Ret _ t => t | _ => [] end).
  pose (o2 := _ext2_print_ino_data Sample.image_sparse Sample.sb 4 13).
  pose (t2 := match o2 with Ret _ t => t | _ => [] end).
  assert (H1 : _ext2_nxt_ino Sample.image_sparse Sample.sb 4 13
                 (Sample.str "x") = Ret EXT2_BAD_INO t1)
    by (vm_compute; reflexivity).
  assert (H2 : _ext2_print_ino_data Sample.image_sparse Sample.sb 4 13
               = Ret tt t2)
    by (vm_compute; reflexivity).
  destruct (lookup_walks_the_printed_blocks _ _ _ _ _ _ _ _ _ H1 H2)
    as (rest & Hrest & Hnil).
  exists t1, t2, rest. split; [exact H1|]. split; [exact H2|].
  split; [exact Hrest|]. apply Hnil. reflexivity.
Defined.

(** ** The order in which data blocks are visited *)

(** X15.  [_ext2_indir_print] visits the data blocks under an index block
    in the order of the addresses stored in it: at level 1 the addresses
    before the first zero, one after the other; at a higher level the
    blocks under the first address, then those under the second, and so
    on.  The index blocks reached must be on the device. *)
Theorem index_tree_is_walked_in_address_order :
  forall dev sb fuel blk_addr file_type indir_level tr,
    valid_block_size sb ->
    1 <= indir_level <= 3 ->
    index_tree_ok dev sb (Z.to_nat (indir_level - 1)) blk_addr ->
    _ext2_indir_print dev sb fuel blk_addr file_type indir_level = Ret tt tr ->
    leaves_of tr = tree_leaves dev sb (Z.to_nat (indir_level - 1)) blk_addr.
Proof.
  intros dev sb fuel blk_addr file_type lvl tr Hbs Hlvl Hok H.
  unfold _ext2_indir_print in H. unfold u8 in H.
  rewrite Z.mod_small in H by lia.
  eapply indir_print_below_tree; eauto.
Qed.

Lemma index_tree_is_walked_in_address_order_witness :
  index_tree_ok Sample.image_sparse Sample.sb (Z.to_nat (2 - 1)) 17 /\
  tree_leaves Sample.image_sparse Sample.sb (Z.to_nat (2 - 1)) 17 = [19] /\
  exists tr,
    _ext2_indir_print Sample.image_sparse Sample.sb 4 17 EXT2_FT_DIR 2
    = Ret tt tr /\
    leaves_of tr
    = tree_leaves Sample.image_sparse Sample.sb (Z.to_nat (2 - 1)) 17.
Proof.
  assert (Hv : valid_block_size Sample.sb) by (right; left; reflexivity).
  assert (Hok : index_tree_ok Sample.image_sparse Sample.sb
                  (Z.to_nat (2 - 1)) 17).
  { split; [vm_compute; repeat split; discriminate|].
    assert (E : leading_addresses Sample.image_sparse
                  (17 * EXT2_BLOCK_SIZE Sample.sb)
                  (Z.to_nat (EXT2_ADDR_PER_BLOCK Sample.sb)) 0 = [18])
      by (vm_compute; reflexivity).
    rewrite E. constructor; [|constructor].
    split; [vm_compute; repeat split; discriminate|exact I]. }
  split; [exact Hok|]. split; [vm_compute; reflexivity|].
  pose (o := _ext2_indir_print Sample.image_sparse Sample.sb 4 17
               EXT2_FT_DIR 2).
  pose (tr := match o with Ret _ t => t | _ => [] end).
  assert (H : _ext2_indir_print Sample.image_sparse Sample.sb 4 17
                EXT2_FT_DIR 2 = Ret tt tr) by (vm_compute; reflexivity).
  exists tr. split; [exact H|].
  apply (index_tree_is_walked_in_address_order Sample.image_sparse Sample.sb
           4 17 EXT2_FT_DIR 2 tr Hv); [lia|exact Hok|exact H].
Defined.



(** ** The inode printer *)

Lemma print_ino_st_loop_spec ino_st :
  forall n i lines tr,
    print_ino_st_loop ino_st n i = Ret lines tr ->
    tr = [] /\ lines = block_lines i (leading_blocks ino_st n i).
Proof.
  induction n as [|n IH]; intros i lines tr H;
    cbn [print_ino_st_loop leading_blocks] in *.
  - apply ret_Ret_inv in H as (<- & ->). now split.
  - destruct (i_block ino_st i) as [b|]; cbn [defined] in H; [|discriminate].
    rewrite bind_ret in H. destruct (b =? 0).
    + apply ret_Ret_inv in H as (<- & ->). now split.
    + apply bind_Ret_inv in H as (rest & t1 & t2 & Hr & H & ->).
      apply ret_Ret_inv in H as (<- & ->).
      apply IH in Hr as (-> & ->). now split.
Qed.

Lemma length_leading_blocks ino_st :
  forall n i, (length (leading_blocks ino_st n i) <= n)%nat.
Proof.
  induction n as [|n IH]; intros i; cbn [leading_blocks]; [simpl; lia|].
  destruct (i_block ino_st i) as [b|]; [|simpl; lia].
  destruct (b =? 0); [simpl; lia|]. cbn [length]. specialize (IH (i + 1)). lia.
Qed.

Lemma length_block_lines :
  forall blks i,
    0 <= i -> i + Z.of_nat (length blks) <= EXT2_N_BLOCKS ->
    length (block_lines i blks) = length blks.
Proof.
  induction blks as [|b blks IH]; intros i Hi Hle; [reflexivity|].
  cbn [block_lines length] in *. rewrite length_app, IH by lia.
  unfold block_line, EXT2_N_BLOCKS, EXT2_NDIR_BLOCKS, EXT2_IND_BLOCK,
    EXT2_DIND_BLOCK, EXT2_TIND_BLOCK in *.
  destruct (i <? 12) eqn:E1; [reflexivity|].
  destruct (i =? 12) eqn:E2; [reflexivity|].
  destruct (i =? 13) eqn:E3; [reflexivity|].
  destruct (i =? 14) eqn:E4; [reflexivity|].
  apply Z.ltb_ge in E1. apply Z.eqb_neq in E2, E3, E4. lia.
Qed.

Lemma mode_split mode :
  0 <= mode < 2 ^ 16 ->
  Z.lor (Z.land mode 0xF000) (Z.land mode 0x0FFF) = mode /\
  Z.land (Z.land mode 0xF000) (Z.land mode 0x0FFF) = 0.
Proof.
  intros H. split.
  - rewrite <- Z.land_lor_distr_r.
    change (Z.lor 0xF000 0x0FFF) with (Z.ones 16).
    rewrite Z.land_ones by lia. apply Z.mod_small. exact H.
  - rewrite Z.land_assoc, (Z.land_comm (Z.land mode 0xF000) mode),
      Z.land_assoc, Z.land_diag, <- Z.land_assoc.
    change (Z.land 0xF000 0x0FFF) with 0. apply Z.land_0_r.
Qed.

(** X17.  [_ext2_print_ino_st] reads nothing but the inode: its trace is
    that of the loader.  It makes [printf] calls for the fifteen header
    lines, in which the values shown as Type and Mode are disjoint parts
    of [i_mode] and together give it back, and then one line for each
    leading non-zero slot of [i_block], stopping at the first zero slot;
    so it makes at most thirty calls. *)
Theorem print_ino_st_shows_inode_only :
  forall dev sb ino out tr,
    _ext2_print_ino_st dev sb ino = Ret out tr ->
    exists ino_st mode ty md,
      _ext2_ino_to_ino_st dev sb ino (uninit sizeof_ext2_inode)
      = Ret ino_st tr /\
      leaves_of tr = [] /\ chars_of tr = [] /\
      i_mode ino_st = Some mode /\
      nth_error out 1 = Some (Printf "Type: 0x%x " [ty]) /\
      nth_error out 2 = Some (Printf "Mode: 0%o " [md]) /\
      Z.lor ty md = mode /\ Z.land ty md = 0 /\
      skipn 15 out
      = block_lines 0 (leading_blocks ino_st (Z.to_nat EXT2_N_BLOCKS) 0) /\
      (length out
       = 15 + length (leading_blocks ino_st (Z.to_nat EXT2_N_BLOCKS) 0))%nat /\
      (length out <= 30)%nat.
Proof.
  intros dev sb ino out tr H. unfold _ext2_print_ino_st in H.
  apply bind_Ret_inv in H as (ino_st & t0 & t & Hld & H & ->).
  apply bind_Ret_inv in H as (mode & t1 & t' & Hmode & H & ->).
  apply defined_Ret_inv in Hmode as (Hmode & ->).
  do 11 (apply bind_Ret_inv in H as (? & ? & ? & Hx & H & ->);
         apply defined_Ret_inv in Hx as (_ & ->)).
  apply bind_Ret_inv in H as (lines & t2 & t3 & Hl & H & ->).
  apply ret_Ret_inv in H as (<- & ->).
  apply print_ino_st_loop_spec in Hl as (-> & ->).
  cbn [app]. rewrite app_nil_r.
  pose proof (ino_to_ino_st_trace _ _ _ _ _ _ Hld) as (Hlv & Hch & _).
  pose proof (member_bound _ _ _ _ Hmode) as Hb.
  assert (E : 256 ^ Z.of_nat 2 = 2 ^ 16) by reflexivity. rewrite E in Hb.
  destruct (mode_split mode Hb) as (Hor & Hand).
  pose proof (length_leading_blocks ino_st (Z.to_nat EXT2_N_BLOCKS) 0) as Hll.
  assert (Hlen : length (block_lines 0
                   (leading_blocks ino_st (Z.to_nat EXT2_N_BLOCKS) 0))
                 = length (leading_blocks ino_st (Z.to_nat EXT2_N_BLOCKS) 0)).
  { apply length_block_lines; [lia|].
    change (Z.to_nat EXT2_N_BLOCKS) with 15%nat in *.
    unfold EXT2_N_BLOCKS. lia. }
  change (Z.to_nat EXT2_N_BLOCKS) with 15%nat in *.
  exists ino_st, mode, (Z.land mode 0xF000), (Z.land mode 0x0FFF).
  split; [exact Hld|]. split; [exact Hlv|]. split; [exact Hch|].
  split; [exact Hmode|]. split; [reflexivity|]. split; [reflexivity|].
  split; [exact Hor|]. split; [exact Hand|]. split; [reflexivity|].
  cbn [length]. rewrite Hlen. split; lia.
Qed.

Lemma print_ino_st_shows_inode_only_witness :
  exists out tr ino_st,
    _ext2_print_ino_st Sample.image Sample.sb 12 = Ret out tr /\
    _ext2_ino_to_ino_st Sample.image Sample.sb 12 (uninit sizeof_ext2_inode)
    = Ret ino_st tr /\
    skipn 15 out = [Printf "Direct data block (%u): %u\n" [0; 4]] /\
    nth_error out 1 = Some (Printf "Type: 0x%x " [0x8000]) /\
    nth_error out 2 = Some (Printf "Mode: 0%o " [0x1A4]).
Proof.
  pose (o := _ext2_print_ino_st Sample.image Sample.sb 12).
  pose (out := match o with Ret x _ => x | _ => [] end).
  pose (tr := match o with Ret _ t => t | _ => [] end).
  assert (H : _ext2_print_ino_st Sample.image Sample.sb 12 = Ret out tr)
    by (vm_compute; reflexivity).
  destruct (print_ino_st_shows_inode_only Sample.image Sample.sb 12 out tr H)
    as (ino_st & mode & ty & md & Hld & _).
  exists out, tr, ino_st. split; [exact H|]. split; [exact Hld|].
  split; [vm_compute; reflexivity|]. split; vm_compute; reflexivity.
Defined.

(** ** The entry point *)

Lemma get_req_type_cases arg :
  (_get_req_type arg = REQUEST_TYPE_INODE /\
   until_nul arg = list_byte_of_string "inode") \/
  (_get_req_type arg = REQUEST_TYPE_DATA /\
   until_nul arg = list_byte_of_string "data") \/
  _get_req_type arg = REQUEST_TYPE_INVALID.
Proof.
  unfold _get_req_type.
  destruct (strcmp arg (list_byte_of_string "inode") =? 0) eqn:E1.
  - left. split; [reflexivity|].
    apply Z.eqb_eq, strcmp_zero_iff in E1. exact E1.
  - destruct (strcmp arg (list_byte_of_string "data") =? 0) eqn:E2.
    + right; left. split; [reflexivity|].
      apply Z.eqb_eq, strcmp_zero_iff in E2. exact E2.
    + right; right. reflexivity.
Qed.

(** X18.  [main] reaches [exit(EXIT_SUCCESS)] only when it was given
    exactly two arguments, the device file could be opened and the request
    keyword is exactly [inode] or [data]; its first access to the device
    is the superblock read, and a [data] request makes none of the inode
    printer's [printf] calls. *)
Theorem main_succeeds_only_on_valid_request :
  forall device_file fuel argv out tr,
    main device_file fuel argv = Ret out tr ->
    length argv = 3%nat /\
    (exists dev, device_file = Some dev) /\
    hd_error tr = Some (Read EXT2_SUPER_BLOCK_OFFSET EXT2_SUPER_BLOCK_SIZE) /\
    (until_nul (nth 2 argv []) = list_byte_of_string "inode" \/
     until_nul (nth 2 argv []) = list_byte_of_string "data" /\ out = []).
Proof.
  intros device_file fuel argv out tr H. unfold main in H.
  destruct (Nat.eqb (length argv) 3) eqn:El; cbn [negb] in H;
    [|discriminate].
  apply Nat.eqb_eq in El. split; [exact El|].
  apply bind_Ret_inv in H as (g & t1 & t2 & Hinit & H & ->).
  destruct device_file as [dev|]; [|discriminate].
  split; [now exists dev|].
  assert (Ht1 : t1 = [Read EXT2_SUPER_BLOCK_OFFSET EXT2_SUPER_BLOCK_SIZE])
    by (unfold ext2_init in Hinit; congruence).
  split; [rewrite Ht1; reflexivity|].
  apply bind_Ret_inv in H as (ino & t3 & t4 & _ & H & _).
  apply bind_Ret_inv in H as (o & t5 & t6 & Hp & H & _).
  apply bind_Ret_inv in H as ([] & t7 & t8 & _ & H & _).
  apply ret_Ret_inv in H as (<- & _).
  unfold ext2_print_ino in Hp.
  destruct (get_req_type_cases (nth 2 argv [])) as [(E & Hs)|[(E & Hs)|E]];
    rewrite E in Hp.
  - now left.
  - right. split; [exact Hs|].
    change (REQUEST_TYPE_DATA =? REQUEST_TYPE_INODE) with false in Hp.
    change (REQUEST_TYPE_DATA =? REQUEST_TYPE_DATA) with true in Hp.
    cbv iota in Hp.
    apply bind_Ret_inv in Hp as (u & t9 & t10 & _ & Hp & _).
    now apply ret_Ret_inv in Hp as (<- & _).
  - discriminate.
Qed.

Lemma main_succeeds_only_on_valid_request_witness :
  exists tr,
    main (Some Sample.image) 4
      [Sample.str "ext2"; Sample.str "/hello.txt"; Sample.str "data"]
    = Ret [] tr /\
    hd_error tr = Some (Read EXT2_SUPER_BLOCK_OFFSET EXT2_SUPER_BLOCK_SIZE).
Proof.
  pose (o := main (Some Sample.image) 4
               [Sample.str "ext2"; Sample.str "/hello.txt";
                Sample.str "data"]).
  pose (tr := match o with Ret _ t => t | _ => [] end).
  assert (H : main (Some Sample.image) 4
                [Sample.str "ext2"; Sample.str "/hello.txt";
                 Sample.str "data"] = Ret [] tr)
    by (vm_compute; reflexivity).
  exists tr. split; [exact H|].
  exact (proj1 (proj2 (proj2 (main_succeeds_only_on_valid_request _ _ _ _ _
                                H)))).
Defined.

(** X19.  [main] looks at the request keyword only after the path has been
    resolved.  With two arguments, a device file that opens and a keyword
    that is neither [inode] nor [data], the outcome is that of the path
    resolution when it does not return (its error message, not "Invalid
    request"), and "Invalid request" when it returns; the inode is never
    loaded for printing. *)
Theorem invalid_request_is_reported_after_resolution :
  forall dev sb t0 fuel argv,
    ext2_init (Some dev) = Ret (dev, sb) t0 ->
    length argv = 3%nat ->
    _get_req_type (nth 2 argv []) = REQUEST_TYPE_INVALID ->
    main (Some dev) fuel argv
    = match ext2_path_to_ino dev sb fuel (nth 1 argv []) with
      | Ret _ _ => Exit "Invalid request"
      | Exit msg => Exit msg
      | Undef => Undef
      | Timeout => Timeout
      end.
Proof.
  intros dev sb t0 fuel argv Hinit Hl Hreq. unfold main.
  rewrite Hl, Hinit. cbn [Nat.eqb negb]. rewrite bind_Ret. cbn [fst snd].
  destruct (ext2_path_to_ino dev sb fuel (nth 1 argv [])) as [ino t| | |];
    try reflexivity.
  rewrite bind_Ret, Hreq. reflexivity.
Qed.

Lemma invalid_request_is_reported_after_resolution_witness :
  main (Some Sample.image) 4
    [Sample.str "ext2"; Sample.str "/no-such-file"; Sample.str "Inode"]
  = Exit "File search failed" /\
  main (Some Sample.image) 4
    [Sample.str "ext2"; Sample.str "/hello.txt"; Sample.str "Inode"]
  = Exit "Invalid request".
Proof.
  split.
  - rewrite (invalid_request_is_reported_after_resolution Sample.image
               Sample.sb _ 4
               [Sample.str "ext2"; Sample.str "/no-such-file";
                Sample.str "Inode"] eq_refl eq_refl eq_refl).
    vm_compute. reflexivity.
  - rewrite (invalid_request_is_reported_after_resolution Sample.image
               Sample.sb _ 4
               [Sample.str "ext2"; Sample.str "/hello.txt";
                Sample.str "Inode"] eq_refl eq_refl eq_refl).
    vm_compute. reflexivity.
Defined.

(** ** Degenerate inputs *)

Lemma skipn_repeat_all {A : Type} (a : A) :
  forall n k, skipn k (repeat a n) = repeat a (n - k).
Proof.
  induction n as [|n IH]; intros k.
  - cbn [repeat Nat.sub]. now destruct k.
  - destruct k as [|k]; [reflexivity|]. cbn [repeat skipn Nat.sub]. apply IH.
Qed.

Lemma init_short_device dev sb t0 :
  ext2_init (Some dev) = Ret (dev, sb) t0 ->
  (length dev <= 1064)%nat ->
  EXT2_INODES_PER_GROUP sb = 0.
Proof.
  intros Hinit Hlen.
  assert (Hsb : sb = overwrite (repeat x00 sizeof_ext2_super_block)
                       (dev_read dev EXT2_SUPER_BLOCK_OFFSET
                          EXT2_SUPER_BLOCK_SIZE))
    by (unfold ext2_init in Hinit; congruence).
  rewrite Hsb. clear Hinit Hsb.
  unfold EXT2_INODES_PER_GROUP, s_inodes_per_group, smember, overwrite.
  set (got := dev_read dev EXT2_SUPER_BLOCK_OFFSET EXT2_SUPER_BLOCK_SIZE).
  assert (Hg : (length got <= 40)%nat).
  { unfold got, dev_read. rewrite length_firstn, length_skipn.
    change (Z.to_nat EXT2_SUPER_BLOCK_OFFSET) with 1024%nat. lia. }
  rewrite skipn_app, (skipn_all2 got) by lia.
  rewrite !skipn_repeat_all. cbn [app].
  change sizeof_ext2_super_block with 1024%nat.
  replace (1024 - length got - (40 - length got))%nat with 984%nat by lia.
  reflexivity.
Qed.

Lemma loader_without_groups dev sb ino buf :
  EXT2_INODES_PER_GROUP sb = 0 ->
  _ext2_ino_to_ino_st dev sb ino buf = Undef.
Proof. intros E. unfold _ext2_ino_to_ino_st. now rewrite E. Qed.

Lemma resolve_without_groups dev sb fuel path :
  EXT2_INODES_PER_GROUP sb = 0 ->
  ext2_path_to_ino dev sb fuel path = Undef \/
  ext2_path_to_ino dev sb fuel path = Ret EXT2_ROOT_INO [].
Proof.
  intros E. unfold ext2_path_to_ino. rewrite get_toks_total.
  destruct (_ <=? MAX_PATH_TOKS); [|now left].
  rewrite bind_Ret.
  destruct (components path) as [|tok toks]; [now right|left].
  cbn [path_loop]. unfold _ext2_nxt_ino.
  rewrite (loader_without_groups dev sb _ _ E). reflexivity.
Qed.

(** X20.  [ext2_init] accepts a device file of any length; a short read
    leaves the rest of [_sb] zero.  On a device file of at most 1064 bytes
    the superblock's inodes-per-group count is therefore zero, every load
    of an inode divides by zero, and [main] has no defined behaviour for
    any path once the request keyword is valid. *)
Theorem short_device_divides_by_zero :
  forall dev sb t0,
    ext2_init (Some dev) = Ret (dev, sb) t0 ->
    (length dev <= 1064)%nat ->
    EXT2_INODES_PER_GROUP sb = 0 /\
    (forall ino buf, _ext2_ino_to_ino_st dev sb ino buf = Undef) /\
    (forall fuel argv,
        length argv = 3%nat ->
        _get_req_type (nth 2 argv []) <> REQUEST_TYPE_INVALID ->
        main (Some dev) fuel argv = Undef).
Proof.
  intros dev sb t0 Hinit Hlen.
  pose proof (init_short_device dev sb t0 Hinit Hlen) as E.
  split; [exact E|]. split; [intros; now apply loader_without_groups|].
  intros fuel argv Hl Hreq. unfold main.
  rewrite Hl, Hinit. cbn [Nat.eqb negb]. rewrite bind_Ret. cbn [fst snd].
  destruct (resolve_without_groups dev sb fuel (nth 1 argv []) E) as [-> | ->];
    [reflexivity|].
  rewrite bind_Ret. unfold ext2_print_ino.
  destruct (get_req_type_cases (nth 2 argv [])) as [(Er & _)|[(Er & _)|Er]];
    [| |contradiction]; rewrite Er.
  - change (REQUEST_TYPE_INODE =? REQUEST_TYPE_INODE) with true. cbv iota.
    unfold _ext2_print_ino_st.
    rewrite (loader_without_groups dev sb _ _ E). reflexivity.
  - change (REQUEST_TYPE_DATA =? REQUEST_TYPE_INODE) with false.
    change (REQUEST_TYPE_DATA =? REQUEST_TYPE_DATA) with true. cbv iota.
    unfold _ext2_print_ino_data.
    rewrite (loader_without_groups dev sb _ _ E). reflexivity.
Qed.

Lemma short_device_divides_by_zero_witness :
  ext2_init (Some [])
  = Ret ([], repeat x00 sizeof_ext2_super_block)
        [Read EXT2_SUPER_BLOCK_OFFSET EXT2_SUPER_BLOCK_SIZE] /\
  main (Some []) 4 [Sample.str "ext2"; Sample.str "/"; Sample.str "inode"]
  = Undef.
Proof.
  assert (Hinit : ext2_init (Some [])
                  = Ret ([], repeat x00 sizeof_ext2_super_block)
                        [Read EXT2_SUPER_BLOCK_OFFSET EXT2_SUPER_BLOCK_SIZE])
    by reflexivity.
  split; [exact Hinit|].
  destruct (short_device_divides_by_zero [] _ _ Hinit) as (_ & _ & Hmain).
  - simpl; lia.
  - apply Hmain; [reflexivity|]. vm_compute. discriminate.
Defined.

(** X21.  The token array has [MAX_PATH_TOKS] slots and [_get_toks] does
    not check the index it stores at: a path with more than 256 components
    makes it write past the array, so [ext2_path_to_ino] has no defined
    behaviour on such a path, on any volume and before any read. *)
Theorem long_path_overflows_tokens :
  forall path,
    MAX_PATH_TOKS < Z.of_nat (length (components path)) ->
    _get_toks path slash = Undef /\
    forall dev sb fuel, ext2_path_to_ino dev sb fuel path = Undef.
Proof.
  intros path H.
  assert (E : _get_toks path slash = Undef).
  { rewrite get_toks_total.
    destruct (_ <=? MAX_PATH_TOKS) eqn:El; [|reflexivity].
    apply Z.leb_le in El. lia. }
  split; [exact E|]. intros dev sb fuel.
  unfold ext2_path_to_ino. now rewrite E.
Qed.

Lemma long_path_overflows_tokens_witness :
  length (components (join_path (repeat (Sample.str "a") 257))) = 257%nat /\
  ext2_path_to_ino Sample.image Sample.sb 4
    (join_path (repeat (Sample.str "a") 257)) = Undef.
Proof.
  assert (Hl : length (components (join_path (repeat (Sample.str "a") 257)))
               = 257%nat) by (vm_compute; reflexivity).
  split; [exact Hl|].
  apply (long_path_overflows_tokens (join_path (repeat (Sample.str "a") 257))).
  rewrite Hl. vm_compute. reflexivity.
Defined.
